(** * Cr2Decoder: a shallow embedding of RawSpeed's Canon CR2 decoder

    The definitions follow [src/librawspeed/decoders/Cr2Decoder.cpp].
    The TIFF reader, the byte stream, the raw image and the lossless-JPEG
    decompressor live in other translation units; they appear here through
    the interface the decoder uses. *)

From Stdlib Require Import ZArith List Bool Lia.
From Stdlib Require Import Strings.Byte.
From Stdlib Require Import Floats.SpecFloat.
From stdpp Require Import base option list gmap strings.

Local Open Scope Z_scope.

(** ** Machine integers

    [uint32], [int] and [ushort16] are carried by [Z]; every conversion
    and every operation that can leave the type's range wraps explicitly. *)

Definition wrap_u32 (z : Z) : Z := z mod 2 ^ 32.
Definition wrap_u16 (z : Z) : Z := z mod 2 ^ 16.
(** Conversion to [int] (and [int] arithmetic on two's complement targets). *)
Definition wrap_s32 (z : Z) : Z := (z + 2 ^ 31) mod 2 ^ 32 - 2 ^ 31.

(** ** Exceptions and results *)

Inductive Exn : Type :=
  | RawDecoderException (what : string)
  | IOException (what : string)
  | TiffParserException (what : string).

Definition what (e : Exn) : string :=
  match e with
  | RawDecoderException w | IOException w | TiffParserException w => w
  end.

Inductive result (A : Type) : Type :=
  | Ok (a : A)
  | Throw (e : Exn).
Arguments Ok {A} a.
Arguments Throw {A} e.

Definition ThrowRDE {A : Type} (msg : string) : result A :=
  Throw (RawDecoderException msg).

(** [result] is used through stdpp's monad notation [x ← m; k]. *)
Global Instance result_ret : MRet result := fun A a => Ok a.
Global Instance result_bind : MBind result := fun A B f m =>
  match m with
  | Ok a => f a
  | Throw e => Throw e
  end.

(** ** The TIFF collaborator, at its interface *)

Inductive TiffDataType : Type :=
  | TIFF_BYTE | TIFF_ASCII | TIFF_SHORT | TIFF_LONG | TIFF_RATIONAL
  | TIFF_UNDEFINED | TIFF_FLOAT.

Global Instance TiffDataType_eq_dec : EqDecision TiffDataType.
Proof. solve_decision. Defined.

(** Modelled from the spec: [TiffEntry] (tiff/TiffEntry.h is not among the
    sources): "a tagged value: a scalar type, a count, and accessors
    returning the i-th element coerced to integer".  [vals] are the
    elements already coerced; an accessor past the end throws. *)
Record TiffEntry : Type := mkTiffEntry {
  type : TiffDataType;
  vals : list Z
}.

Definition count (e : TiffEntry) : Z := Z.of_nat (length (vals e)).

Definition entry_at (e : TiffEntry) (num : nat) : result Z :=
  match vals e !! num with
  | Some v => Ok v
  | None => Throw (TiffParserException "TIFF: Trying to read out of bounds")
  end.

(** [uint32 TiffEntry::getInt(uint32 num = 0)] *)
Definition getInt (e : TiffEntry) (num : nat) : result Z :=
  v ← entry_at e num; Ok (wrap_u32 v).

(** [ushort16 TiffEntry::getShort(uint32 num = 0)] *)
Definition getShort (e : TiffEntry) (num : nat) : result Z :=
  v ← entry_at e num; Ok (wrap_u16 v).

Definition TiffTag : Type := Z.

Definition IMAGEWIDTH : TiffTag := 0x100.
Definition IMAGELENGTH : TiffTag := 0x101.
Definition STRIPOFFSETS : TiffTag := 0x111.
Definition STRIPBYTECOUNTS : TiffTag := 0x117.
Definition CFAPATTERN : TiffTag := 0x828E.
Definition CANONCOLORDATA : TiffTag := 0x4001.
Definition CANONCR2SLICE : TiffTag := 0xC640.

Inductive Endianness : Type := little | big.

Global Instance Endianness_eq_dec : EqDecision Endianness.
Proof. solve_decision. Defined.

(** One directory: the entries it owns. *)
Record TiffIFD : Type := mkTiffIFD {
  entries : gmap Z TiffEntry
}.

Definition hasEntry (ifd : TiffIFD) (tag : TiffTag) : bool :=
  bool_decide (is_Some (entries ifd !! tag)).

Definition getEntry (ifd : TiffIFD) (tag : TiffTag) : result TiffEntry :=
  match entries ifd !! tag with
  | Some e => Ok e
  | None => Throw (TiffParserException "TiffIFD: TIFF Parser entry not found")
  end.

(** Modelled from the spec: the root directory (tiff/TiffIFD.h is not among
    the sources), as the "container view": "find any entry matching tag T
    anywhere in the tree", "find directories owning tag T", "child
    directory by index"; "endianness is fixed at parse time". *)
Record TiffRootIFD : Type := mkTiffRootIFD {
  getEntryRecursive : TiffTag -> option TiffEntry;
  getIFDsWithTag : TiffTag -> list TiffIFD;
  getSubIFDs : list TiffIFD;
  endian : Endianness
}.

Definition hasEntryRecursive (root : TiffRootIFD) (tag : TiffTag) : bool :=
  bool_decide (is_Some (getEntryRecursive root tag)).

(** ** Hints: [std::map<std::string, std::string>] *)

Definition has_hint (hints : gmap string string) (name : string) : bool :=
  bool_decide (is_Some (hints !! name)).

(** ** The raw image *)

Module iPoint2D.
Record t : Type := mk { x : Z; y : Z }.
End iPoint2D.
Abbreviation iPoint2D := iPoint2D.t.

(** A table of [ntables = 1] installed by [setTable(table, nfilled, dither)]. *)
Record TableLookUp : Type := mkTableLookUp {
  tbl : list Z;
  dither : bool
}.

Record RawImage : Type := mkRawImage {
  dim : iPoint2D;
  cpp : Z;
  isCFA : bool;
  (** rows of [dim.x * cpp] samples of 16 bits; no rows until [createData] *)
  data : list (list Z);
  (** [metadata.subsampling] *)
  subsampling : iPoint2D;
  errors : list string;
  table : option TableLookUp
}.

Definition set_dim (d : iPoint2D) (r : RawImage) : RawImage :=
  mkRawImage d (cpp r) (isCFA r) (data r) (subsampling r) (errors r) (table r).
Definition setCpp (c : Z) (r : RawImage) : RawImage :=
  mkRawImage (dim r) c (isCFA r) (data r) (subsampling r) (errors r) (table r).
Definition set_isCFA (b : bool) (r : RawImage) : RawImage :=
  mkRawImage (dim r) (cpp r) b (data r) (subsampling r) (errors r) (table r).
Definition set_data (d : list (list Z)) (r : RawImage) : RawImage :=
  mkRawImage (dim r) (cpp r) (isCFA r) d (subsampling r) (errors r) (table r).
Definition set_subsampling (s : iPoint2D) (r : RawImage) : RawImage :=
  mkRawImage (dim r) (cpp r) (isCFA r) (data r) s (errors r) (table r).
Definition set_table (t : option TableLookUp) (r : RawImage) : RawImage :=
  mkRawImage (dim r) (cpp r) (isCFA r) (data r) (subsampling r) (errors r) t.

(** [RawImageData::setError]: append to the error log. *)
Definition setError (msg : string) (r : RawImage) : RawImage :=
  mkRawImage (dim r) (cpp r) (isCFA r) (data r) (subsampling r)
    (errors r ++ [msg]) (table r).

(** [RawImage::create()]: no dimensions, one component, mosaic. *)
Definition RawImage_create : RawImage :=
  mkRawImage (iPoint2D.mk 0 0) 1 true [] (iPoint2D.mk 1 1) [] None.

(** ** The mode string of [Cr2Decoder::decodeMetaDataInternal] *)

Definition metadata_mode (mRaw : RawImage) : string :=
  let mode := "" in
  let mode :=
    if (iPoint2D.y (subsampling mRaw) =? 2) && (iPoint2D.x (subsampling mRaw) =? 2)
    then "sRaw1" else mode in
  let mode :=
    if (iPoint2D.y (subsampling mRaw) =? 1) && (iPoint2D.x (subsampling mRaw) =? 2)
    then "sRaw2" else mode in
  mode.

(** ** Loops *)

(** [for (i = lo; i < lo + n; i++) s = body i s] *)
Fixpoint for_loop {S : Type} (n : nat) (i : Z) (body : Z -> S -> S) (s : S) : S :=
  match n with
  | O => s
  | S n' => for_loop n' (i + 1) body (body i s)
  end.

(** [for (i = lo; i < hi; i++) s = body i s] *)
Definition for_range {S : Type} (lo hi : Z) (body : Z -> S -> S) (s : S) : S :=
  for_loop (Z.to_nat (hi - lo)) lo body s.

(** ** sRaw interpolation kernels *)

(** Modelled from the spec: [clampbits] (common/Common.h is not among the
    sources): "clamped to the unsigned 16-bit range [0, 65535]", for [n]
    bits. *)
Definition clampbits (x : Z) (n : Z) : Z := Z.max 0 (Z.min x (2 ^ n - 1)).

(** [int sraw_coeffs[3]] *)
Record SrawCoeffs : Type := mkSrawCoeffs {
  sraw_coeffs_0 : Z;
  sraw_coeffs_1 : Z;
  sraw_coeffs_2 : Z
}.

(** The three definitions of the macro [YUV_TO_RGB]; the products by the
    coefficients are [int] products. *)
Definition YUV_TO_RGB (k : SrawCoeffs) (Y Cb Cr : Z) : Z * Z * Z :=
  let r := wrap_s32 (sraw_coeffs_0 k * (Y + Z.shiftr (50 * Cb + 22929 * Cr) 12)) in
  let g := wrap_s32 (sraw_coeffs_1 k * (Y + Z.shiftr (-5640 * Cb - 11751 * Cr) 12)) in
  let b := wrap_s32 (sraw_coeffs_2 k * (Y + Z.shiftr (29040 * Cb - 101 * Cr) 12)) in
  (Z.shiftr r 8, Z.shiftr g 8, Z.shiftr b 8).

Definition YUV_TO_RGB_old (k : SrawCoeffs) (Y Cb Cr : Z) : Z * Z * Z :=
  let r := wrap_s32 (sraw_coeffs_0 k * (Y + Cr - 512)) in
  let g := wrap_s32 (sraw_coeffs_1 k *
             (Y + Z.shiftr (-778 * Cb - Z.shiftl Cr 11) 12 - 512)) in
  let b := wrap_s32 (sraw_coeffs_2 k * (Y + (Cb - 512))) in
  (Z.shiftr r 8, Z.shiftr g 8, Z.shiftr b 8).

Definition YUV_TO_RGB_new (k : SrawCoeffs) (Y Cb Cr : Z) : Z * Z * Z :=
  let r := wrap_s32 (sraw_coeffs_0 k * (Y + Cr)) in
  let g := wrap_s32 (sraw_coeffs_1 k * (Y + Z.shiftr (-778 * Cb - Z.shiftl Cr 11) 12)) in
  let b := wrap_s32 (sraw_coeffs_2 k * (Y + Cb)) in
  (Z.shiftr r 8, Z.shiftr g 8, Z.shiftr b 8).

(** The macro [STORE_RGB(X, A, B, C)] *)
Definition STORE_RGB (X : list Z) (A B C : nat) (rgb : Z * Z * Z) : list Z :=
  let '(r, g, b) := rgb in
  <[C := clampbits b 16]> (<[B := clampbits g 16]> (<[A := clampbits r 16]> X)).

(** The 4:2:2 interpolators differ in the [YUV_TO_RGB] in force when they
    are compiled and in what the last two pixels of a line subtract from
    their chroma ([hue] in [interpolate_422], the literal [16384] in
    [interpolate_422_old] and [interpolate_422_new]); [yuv] and
    [hue_last] stand for the two.  A line is the samples from
    [getData(0, y)] on; [hue] is the local [const int hue]. *)
Section Interpolate422.
Context (yuv : Z -> Z -> Z -> Z * Z * Z) (hue hue_last : Z).

(** body of [for (int x = 0; x < w; x++)] *)
Definition body_422 (st : list Z * nat) : list Z * nat :=
let '(c_line, off) := st in
let Y := c_line !!! off in
let Cb := c_line !!! (off + 1)%nat - hue in
let Cr := c_line !!! (off + 2)%nat - hue in
let c_line := STORE_RGB c_line off (off + 1) (off + 2) (yuv Y Cb Cr) in
let off := (off + 3)%nat in
let Y := c_line !!! off in
let Cb2 := Z.shiftr (Cb + c_line !!! (off + 1 + 3)%nat - hue) 1 in
let Cr2 := Z.shiftr (Cr + c_line !!! (off + 2 + 3)%nat - hue) 1 in
let c_line := STORE_RGB c_line off (off + 1) (off + 2) (yuv Y Cb2 Cr2) in
let off := (off + 3)%nat in
(c_line, off).

(** "Last two pixels" *)
Definition last_422 (st : list Z * nat) : list Z :=
let '(c_line, off) := st in
let Y := c_line !!! off in
let Cb := c_line !!! (off + 1)%nat - hue_last in
let Cr := c_line !!! (off + 2)%nat - hue_last in
let c_line := STORE_RGB c_line off (off + 1) (off + 2) (yuv Y Cb Cr) in
let Y := c_line !!! (off + 3)%nat in
STORE_RGB c_line (off + 3) (off + 4) (off + 5) (yuv Y Cb Cr).

(** one pass of the [y] loop over the line [c_line], after [w--] *)
Definition line_422 (w : Z) (c_line : list Z) : list Z :=
last_422 (Nat.iter (Z.to_nat w) body_422 (c_line, 0%nat)).

Definition rows_422 (w h start_h end_h : Z) (img : list (list Z)) : list (list Z) :=
let w := w - 1 in
for_range start_h end_h
  (fun y img => alter (line_422 w) (Z.to_nat y) img) img.
End Interpolate422.

(** The 4:2:0 interpolators differ in [YUV_TO_RGB] only. *)
Section Interpolate420.
Context (yuv : Z -> Z -> Z -> Z * Z * Z) (hue : Z).

(** body of the [x] loop of a line pair; [nn_line] is only read *)
Definition body_420 (nn_line : list Z) (st : list Z * list Z * nat)
: list Z * list Z * nat :=
let '(c_line, n_line, off) := st in
let Y := c_line !!! off in
let Cb := c_line !!! (off + 1)%nat - hue in
let Cr := c_line !!! (off + 2)%nat - hue in
let c_line := STORE_RGB c_line off (off + 1) (off + 2) (yuv Y Cb Cr) in
let Y := c_line !!! (off + 3)%nat in
let Cb2 := Z.shiftr (Cb + c_line !!! (off + 1 + 6)%nat - hue) 1 in
let Cr2 := Z.shiftr (Cr + c_line !!! (off + 2 + 6)%nat - hue) 1 in
let c_line := STORE_RGB c_line (off + 3) (off + 4) (off + 5) (yuv Y Cb2 Cr2) in
let Y := n_line !!! off in
let Cb3 := Z.shiftr (Cb + nn_line !!! (off + 1)%nat - hue) 1 in
let Cr3 := Z.shiftr (Cr + nn_line !!! (off + 2)%nat - hue) 1 in
let n_line := STORE_RGB n_line off (off + 1) (off + 2) (yuv Y Cb3 Cr3) in
let Y := n_line !!! (off + 3)%nat in
let Cb := Z.shiftr (Cb + Cb2 + Cb3 + nn_line !!! (off + 1 + 6)%nat - hue) 2 in
let Cr := Z.shiftr (Cr + Cr2 + Cr3 + nn_line !!! (off + 2 + 6)%nat - hue) 2 in
let n_line := STORE_RGB n_line (off + 3) (off + 4) (off + 5) (yuv Y Cb Cr) in
let off := (off + 6)%nat in
(c_line, n_line, off).

(** the last two pixels of both lines of a pair, after the [x] loop *)
Definition last_420 (nn_line : list Z) (st : list Z * list Z * nat)
: list Z * list Z :=
let '(c_line, n_line, off) := st in
let Y := c_line !!! off in
let Cb := c_line !!! (off + 1)%nat - hue in
let Cr := c_line !!! (off + 2)%nat - hue in
let c_line := STORE_RGB c_line off (off + 1) (off + 2) (yuv Y Cb Cr) in
let Y := c_line !!! (off + 3)%nat in
let c_line := STORE_RGB c_line (off + 3) (off + 4) (off + 5) (yuv Y Cb Cr) in
let Y := n_line !!! off in
let Cb := Z.shiftr (Cb + nn_line !!! (off + 1)%nat - hue) 1 in
let Cr := Z.shiftr (Cr + nn_line !!! (off + 2)%nat - hue) 1 in
let n_line := STORE_RGB n_line off (off + 1) (off + 2) (yuv Y Cb Cr) in
let Y := n_line !!! (off + 3)%nat in
let n_line := STORE_RGB n_line (off + 3) (off + 4) (off + 5) (yuv Y Cb Cr) in
(c_line, n_line).

Definition pair_420 (w : Z) (c_line n_line nn_line : list Z) : list Z * list Z :=
last_420 nn_line
  (Nat.iter (Z.to_nat w) (body_420 nn_line) (c_line, n_line, 0%nat)).

(** body of the [x] loop of the block "Last line" *)
Definition body_420_lastline (st : list Z * list Z * nat)
: list Z * list Z * nat :=
let '(c_line, n_line, off) := st in
let Y := c_line !!! off in
let Cb := c_line !!! (off + 1)%nat - hue in
let Cr := c_line !!! (off + 2)%nat - hue in
let c_line := STORE_RGB c_line off (off + 1) (off + 2) (yuv Y Cb Cr) in
let Y := c_line !!! (off + 3)%nat in
let c_line := STORE_RGB c_line (off + 3) (off + 4) (off + 5) (yuv Y Cb Cr) in
let Y := n_line !!! off in
let n_line := STORE_RGB n_line off (off + 1) (off + 2) (yuv Y Cb Cr) in
let Y := n_line !!! (off + 3)%nat in
let n_line := STORE_RGB n_line (off + 3) (off + 4) (off + 5) (yuv Y Cb Cr) in
let off := (off + 6)%nat in
(c_line, n_line, off).

Definition lastline_420 (w : Z) (c_line n_line : list Z) : list Z * list Z :=
let '(c_line, n_line, _) :=
  Nat.iter (Z.to_nat w) body_420_lastline (c_line, n_line, 0%nat) in
(c_line, n_line).

(** body of the loop over [y]: [c_line], [n_line] and [nn_line] are rows
  [2y], [2y + 1] and [2y + 2]; [getData(0, y)] names a row, and
  distinct rows do not overlap. *)
Definition line_pair_420 (w : Z) (y : Z) (img : list (list Z)) : list (list Z) :=
let c := Z.to_nat (y * 2) in
let n := Z.to_nat (y * 2 + 1) in
let nn := Z.to_nat (y * 2 + 2) in
let '(c_line, n_line) := pair_420 w (img !!! c) (img !!! n) (img !!! nn) in
<[n := n_line]> (<[c := c_line]> img).

Definition rows_420 (w h start_h end_h : Z) (img : list (list Z)) : list (list Z) :=
let w := w - 1 in
let atLastLine := bool_decide (end_h = h) in
let end_h := if atLastLine then end_h - 1 else end_h in
let img := for_range start_h end_h (line_pair_420 w) img in
if atLastLine then
  let c := Z.to_nat (end_h * 2) in
  let n := Z.to_nat (end_h * 2 + 1) in
  let '(c_line, n_line) := lastline_420 w (img !!! c) (img !!! n) in
  <[n := n_line]> (<[c := c_line]> img)
else img.
End Interpolate420.

(** ** [float] arithmetic

    IEEE binary32, through the Standard Library's specification of
    floating-point operations at precision 24 and maximal exponent 128. *)

Definition float_of_int (z : Z) : spec_float := binary_normalize 24 128 z 0 false.
Definition float_div (a b : spec_float) : spec_float := SFdiv 24 128 a b.

(** [(int)f]: the fraction is discarded.  The conversion of a value that
    [int] cannot hold is undefined in C++; the SSE conversion yields
    [INT_MIN], as here. *)
Definition int_of_float (f : spec_float) : Z :=
  match f with
  | S754_zero _ => 0
  | S754_finite s m e =>
      let mag := Z.shiftl (Z.pos m) e in
      let v := if s then - mag else mag in
      if (- 2 ^ 31 <=? v) && (v <? 2 ^ 31) then v else - 2 ^ 31
  | _ => - 2 ^ 31
  end.

(** [(int)(1024.0f/((float)c/1024.0f))] *)
Definition invert_coeff (c : Z) : Z :=
  int_of_float
    (float_div (float_of_int 1024)
       (float_div (float_of_int c) (float_of_int 1024))).

(** ** The file and the byte stream *)

(** Modelled from the spec: [FileMap] (io/FileMap.h is not among the
    sources): the file's bytes, with the "byte-range validity test:
    isValid(offset, size)" and the "total file size". *)
Record FileMap : Type := mkFileMap {
  file_data : list byte;
  isValid : Z -> Z -> bool
}.

Definition getSize (f : FileMap) : Z := wrap_u32 (Z.of_nat (length (file_data f))).

(** Modelled from the spec: [ByteStream] (io/ByteStream.h is not among the
    sources), the "byte-stream reader": a position in the file and whether
    the data is in the byte order of the host.  [getShort] reads the next
    two bytes as the host does, swaps them when the data is not in the
    host's order, and advances; past the end it throws. *)
Record ByteStream : Type := mkByteStream {
  bs_file : FileMap;
  bs_pos : Z;
  inNativeByteOrder : bool
}.

Definition ByteStream_getShort (host : Endianness) (b : ByteStream)
  : result (Z * ByteStream) :=
  let bytes := file_data (bs_file b) in
  if bs_pos b <? 0 then Throw (IOException "Out of buffer read") else
  match bytes !! Z.to_nat (bs_pos b), bytes !! Z.to_nat (bs_pos b + 1) with
  | Some b0, Some b1 =>
      let lo_first := Z.of_N (Byte.to_N b0) + 256 * Z.of_N (Byte.to_N b1) in
      let hi_first := 256 * Z.of_N (Byte.to_N b0) + Z.of_N (Byte.to_N b1) in
      let as_host := match host with little => lo_first | big => hi_first end in
      let swapped := match host with little => hi_first | big => lo_first end in
      Ok (if inNativeByteOrder b then as_host else swapped,
          mkByteStream (bs_file b) (bs_pos b + 2) (inNativeByteOrder b))
  | _, _ => Throw (IOException "Out of buffer read")
  end.

(** ** The lossless-JPEG collaborator *)

Module SOFInfo.
Record t : Type := mk { w : Z; h : Z; cps : Z; bps : Z }.
End SOFInfo.
Abbreviation SOFInfo := SOFInfo.t.

(** What one [decode] leaves behind: the samples of the raster, the
    subsampling factors of the frame, and the exception it ended with. *)
Record DecodeEffect : Type := mkDecodeEffect {
  written : list (list Z);
  frame_subsampling : iPoint2D;
  thrown : option Exn
}.

(** Modelled from the spec: [LJpegPlain] (decompressors/LJpegPlain.h is not
    among the sources), a black box: "getSOF(offset, size) -> (w, h,
    components, precision) without consuming the stream" and
    "decode(offset, size, dst_x, dst_y) writing into a caller-owned 16-bit
    raster, with an optional per-slice width table" (the list given to
    [addSlices], first argument here). *)
Record LJpegPlain : Type := mkLJpegPlain {
  getSOF : Z -> Z -> result SOFInfo;
  decode : list Z -> Z -> Z -> Z -> Z -> RawImage -> DecodeEffect
}.

(** The calls the decoder makes into the black box, in order. *)
Inductive LJpegCall : Type :=
  | Call_getSOF (offset size : Z)
  | Call_decode (slicesW : list Z) (offset size offX offY : Z).

(** A computation that calls into the black box: the calls made, and the
    value returned or the exception thrown. *)
Definition M (A : Type) : Type := list LJpegCall * result A.

Global Instance M_ret : MRet M := fun A a => ([], Ok a).
Global Instance M_bind : MBind M := fun A B f m =>
  match m with
  | (t, Ok a) => let '(t', r) := f a in (t ++ t', r)
  | (t, Throw e) => (t, Throw e)
  end.

Definition lift {A : Type} (r : result A) : M A := ([], r).
Definition call {A : Type} (c : LJpegCall) (r : result A) : M A := ([c], r).

(** ** The decoder *)

Module Cr2Slice.
Record t : Type := mk { w : Z; h : Z; offset : Z; size : Z }.
End Cr2Slice.
Abbreviation Cr2Slice := Cr2Slice.t.

(** The members of [Cr2Decoder] that the decoding reads, with the two
    things it gets from its surroundings: the lossless-JPEG decompressor
    it constructs over [mFile] and [getHostEndianness()]. *)
Record Cr2Decoder : Type := mkCr2Decoder {
  mFile : FileMap;
  mRootIFD : TiffRootIFD;
  hints : gmap string string;
  uncorrectedRawValues : bool;
  ljpeg : LJpegPlain;
  getHostEndianness : Endianness
}.

(** Modelled from the spec: [RawImageData::createData] (common/RawImage.cpp
    is not among the sources): "allocate the raster", [dim.y] rows of
    [dim.x * cpp] samples. *)
Definition createData (r : RawImage) : RawImage :=
  set_data
    (replicate (Z.to_nat (iPoint2D.y (dim r)))
       (replicate (Z.to_nat (iPoint2D.x (dim r) * cpp r)) 0)) r.

(** Modelled from the spec: [RawImageData::sixteenBitLookup]
    (common/RawImage.cpp is not among the sources): with a table
    installed, "every sample is replaced by table[sample & 0xfff]". *)
Definition sixteenBitLookup (r : RawImage) : RawImage :=
  match table r with
  | Some t => set_data (map (map (fun s => tbl t !!! Z.to_nat (Z.land s 0xfff))) (data r)) r
  | None => r
  end.

(** Modelled from the spec: [RawImageData::setTable(table, nfilled, dither)]
    and [setTable(nullptr)] (common/RawImage.cpp is not among the sources):
    the table "is installed on the raster", or "detached". *)
Definition setTable (t : list Z) (nfilled : Z) (dith : bool) (r : RawImage) : RawImage :=
  set_table (Some (mkTableLookUp (take (Z.to_nat nfilled) t) dith)) r.
Definition setTable_nullptr (r : RawImage) : RawImage := set_table None r.

Section Cr2Decoder.
Context (this : Cr2Decoder).

(** *** [Cr2Decoder::getHue] *)
Definition getHue (mRaw : RawImage) : result Z :=
let sub := subsampling mRaw in
if has_hint (hints this) "old_sraw_hue" then
  Ok (wrap_s32 (iPoint2D.y sub * iPoint2D.x sub))
else if negb (hasEntryRecursive (mRootIFD this) 0x10) then
  Ok 0
else
  match getEntryRecursive (mRootIFD this) 0x10 with
  | None => Throw (TiffParserException "TiffIFD: TIFF Parser entry not found")
  | Some e =>
    model_id ← getInt e 0;
    (if (0x80000281 <=? model_id) || (model_id =? 0x80000218)
        || has_hint (hints this) "force_new_sraw_hue"
     then Ok (Z.shiftr (wrap_s32 (iPoint2D.y sub * iPoint2D.x sub) - 1) 1)
     else Ok (wrap_s32 (iPoint2D.y sub * iPoint2D.x sub)))
  end.

(** *** The five interpolators

  Each reads the member [sraw_coeffs] and starts with
  [const int hue = -getHue() + 16384]. *)
Definition interpolate_422 (k : SrawCoeffs) (w h start_h end_h : Z)
  (mRaw : RawImage) : result RawImage :=
g ← getHue mRaw;
let hue := - g + 16384 in
Ok (set_data (rows_422 (YUV_TO_RGB k) hue hue w h start_h end_h (data mRaw)) mRaw).

Definition interpolate_420 (k : SrawCoeffs) (w h start_h end_h : Z)
  (mRaw : RawImage) : result RawImage :=
g ← getHue mRaw;
let hue := - g + 16384 in
Ok (set_data (rows_420 (YUV_TO_RGB k) hue w h start_h end_h (data mRaw)) mRaw).

Definition interpolate_422_old (k : SrawCoeffs) (w h start_h end_h : Z)
  (mRaw : RawImage) : result RawImage :=
g ← getHue mRaw;
let hue := - g + 16384 in
Ok (set_data (rows_422 (YUV_TO_RGB_old k) hue 16384 w h start_h end_h (data mRaw)) mRaw).

Definition interpolate_422_new (k : SrawCoeffs) (w h start_h end_h : Z)
  (mRaw : RawImage) : result RawImage :=
g ← getHue mRaw;
let hue := - g + 16384 in
Ok (set_data (rows_422 (YUV_TO_RGB_new k) hue 16384 w h start_h end_h (data mRaw)) mRaw).

Definition interpolate_420_new (k : SrawCoeffs) (w h start_h end_h : Z)
  (mRaw : RawImage) : result RawImage :=
g ← getHue mRaw;
let hue := - g + 16384 in
Ok (set_data (rows_420 (YUV_TO_RGB_new k) hue w h start_h end_h (data mRaw)) mRaw).

(** *** [Cr2Decoder::sRawInterpolate] *)

(** the coefficients as read from CANONCOLORDATA *)
Definition read_sraw_coeffs (wb : TiffEntry) : result SrawCoeffs :=
let offset := 78%nat in
c0 ← getShort wb (offset + 0);
c1a ← getShort wb (offset + 1);
c1b ← getShort wb (offset + 2);
c2 ← getShort wb (offset + 3);
Ok (mkSrawCoeffs c0 (Z.shiftr (c1a + c1b + 1) 1) c2).

(** the block under [hints.find("invert_sraw_wb") != hints.end()] *)
Definition invert_sraw_wb (k : SrawCoeffs) : SrawCoeffs :=
mkSrawCoeffs (invert_coeff (sraw_coeffs_0 k)) (sraw_coeffs_1 k)
  (invert_coeff (sraw_coeffs_2 k)).

Definition sraw_coeffs_of (wb : TiffEntry) : result SrawCoeffs :=
k ← read_sraw_coeffs wb;
Ok (if has_hint (hints this) "invert_sraw_wb" then invert_sraw_wb k else k).

(** C++ [int] division *)
Definition idiv (a b : Z) : Z := Z.quot a b.

Definition sRawInterpolate (mRaw : RawImage) : result RawImage :=
match getIFDsWithTag (mRootIFD this) CANONCOLORDATA with
| [] => ThrowRDE "CR2 sRaw: Unable to locate WB info."
| data0 :: _ =>
  wb ← getEntry data0 CANONCOLORDATA;
  k ← sraw_coeffs_of wb;
  let isOldSraw := has_hint (hints this) "sraw_40d" in
  let isNewSraw := has_hint (hints this) "sraw_new" in
  let sub := subsampling mRaw in
  let dx := iPoint2D.x (dim mRaw) in
  let dy := iPoint2D.y (dim mRaw) in
  if (iPoint2D.y sub =? 1) && (iPoint2D.x sub =? 2) then
    if isOldSraw then interpolate_422_old k (idiv dx 2) dy 0 dy mRaw
    else if isNewSraw then interpolate_422_new k (idiv dx 2) dy 0 dy mRaw
    else interpolate_422 k (idiv dx 2) dy 0 dy mRaw
  else if (iPoint2D.y sub =? 2) && (iPoint2D.x sub =? 2) then
    if isNewSraw then
      interpolate_420_new k (idiv dx 2) (idiv dy 2) 0 (idiv dy 2) mRaw
    else interpolate_420 k (idiv dx 2) (idiv dy 2) 0 (idiv dy 2) mRaw
  else ThrowRDE "CR2 Decoder: Unknown subsampling"
end.

(** *** [Cr2Decoder::decodeNewFormat] *)

(** the slice recorded for a frame: the "Canon double height" fix, then
  [slice.w = sof.w * sof.cps] and [slice.h = sof.h] *)
Definition slice_of_sof (sof : SOFInfo) (offset size : Z) : Cr2Slice :=
let sof :=
  if (SOFInfo.cps sof =? 4) && (SOFInfo.h sof <? SOFInfo.w sof) then
    SOFInfo.mk (SOFInfo.w sof / 2) (wrap_u32 (SOFInfo.h sof * 2))
      (SOFInfo.cps sof) (SOFInfo.bps sof)
  else sof in
Cr2Slice.mk (wrap_u32 (SOFInfo.w sof * SOFInfo.cps sof)) (SOFInfo.h sof)
  offset size.

(** body of the loop "Iterate through all slices"; [s] is the loop
  variable, [acc] the vector [slices] and [completeH] *)
Definition slice_body (offsets counts : TiffEntry) (s : nat)
  (acc : list Cr2Slice * Z) : M (list Cr2Slice * Z) :=
let '(slices, completeH) := acc in
offset ← lift (getInt offsets 0);
size ← lift (getInt counts 0);
sof ← call (Call_getSOF offset size) (getSOF (ljpeg this) offset size);
let slice := slice_of_sof sof offset size in
match slices with
| slice0 :: _ =>
    if negb (Cr2Slice.w slice0 =? Cr2Slice.w slice) then
      lift (ThrowRDE "CR2 Decoder: Slice width does not match.")
    else mret ()
| [] => mret ()
end ≫= fun _ =>
let slices :=
  if isValid (mFile this) (Cr2Slice.offset slice) (Cr2Slice.size slice)
  then slices ++ [slice] else slices in
mret (slices, wrap_s32 (completeH + Cr2Slice.h slice)).

(** [for (uint32 s = s0; s < s0 + n; s++)] *)
Fixpoint slice_loop (offsets counts : TiffEntry) (n : nat) (s : nat)
  (acc : list Cr2Slice * Z) : M (list Cr2Slice * Z) :=
match n with
| O => mret acc
| S n' =>
    acc' ← slice_body offsets counts s acc;
    slice_loop offsets counts n' (S s) acc'
end.

(** the block under [raw->hasEntry((TiffTag)0xc6c5)] *)
Definition sraw_geometry (raw : TiffIFD) (mRaw : RawImage) : result RawImage :=
if hasEntry raw 0xc6c5 then
  e ← getEntry raw 0xc6c5;
  v ← getInt e 0;
  let ss := wrap_u16 v in
  mRaw ←
    (if ss =? 4 then
       let mRaw :=
         set_dim (iPoint2D.mk (idiv (iPoint2D.x (dim mRaw)) 3)
                    (iPoint2D.y (dim mRaw))) mRaw in
       let mRaw := setCpp 3 mRaw in
       let mRaw := set_isCFA false mRaw in
       if hasEntry raw IMAGEWIDTH && hasEntry raw IMAGELENGTH then
         ew ← getEntry raw IMAGEWIDTH;
         wv ← getInt ew 0;
         eh ← getEntry raw IMAGELENGTH;
         hv ← getInt eh 0;
         let w := wrap_s32 wv in
         let h := wrap_s32 hv in
         if negb (wrap_s32 (w * h) =?
                  wrap_s32 (iPoint2D.x (dim mRaw) * iPoint2D.y (dim mRaw)))
         then ThrowRDE "CR2 Decoder: Wrapped slices don't match image size"
         else Ok (set_dim (iPoint2D.mk w h) mRaw)
       else Ok mRaw
     else Ok mRaw);
  (if iPoint2D.x (dim mRaw) <? iPoint2D.y (dim mRaw) then
     Ok (set_dim (iPoint2D.mk (iPoint2D.y (dim mRaw)) (iPoint2D.x (dim mRaw))) mRaw)
   else Ok mRaw)
else Ok mRaw.

(** the vector [s_width] *)
Definition slice_widths (raw : TiffIFD) (slice0 : Cr2Slice) : result (list Z) :=
if hasEntry raw CANONCR2SLICE then
  ss ← getEntry raw CANONCR2SLICE;
  n ← getShort ss 0;
  firsts ←
    (if 0 <? n then
       w1 ← getShort ss 1; Ok (replicate (Z.to_nat n) w1)
     else Ok []);
  w2 ← getShort ss 2;
  Ok (firsts ++ [w2])
else Ok [wrap_s32 (Cr2Slice.w slice0)].

(** [for (uint32 i = i0; i < slices.size(); i++)], over the slices from
  [i0] on *)
Fixpoint decode_loop (s_width : list Z) (i : nat) (rest : list Cr2Slice)
  (offY : Z) (mRaw : RawImage) : M RawImage :=
match rest with
| [] => mret mRaw
| slice :: rest' =>
    let eff :=
      decode (ljpeg this) s_width (Cr2Slice.offset slice) (Cr2Slice.size slice)
        0 offY mRaw in
    let mRaw := set_subsampling (frame_subsampling eff) (set_data (written eff) mRaw) in
    mRaw ←
      call (Call_decode s_width (Cr2Slice.offset slice) (Cr2Slice.size slice) 0 offY)
        match thrown eff with
        | None => Ok mRaw
        | Some (RawDecoderException m) =>
            if bool_decide (i = 0%nat) then Throw (RawDecoderException m)
            else Ok (setError m mRaw)
        | Some (IOException m) => Ok (setError m mRaw)
        | Some e => Throw e
        end;
    decode_loop s_width (S i) rest' (wrap_u32 (offY + Cr2Slice.w slice)) mRaw
end.

Definition decodeNewFormat : M RawImage :=
match getSubIFDs (mRootIFD this) !! 3%nat with
| None => lift (ThrowRDE "CR2 Decoder: No image data found")
| Some raw =>
  let mRaw := set_isCFA true RawImage_create in
  offsets ← lift (getEntry raw STRIPOFFSETS);
  counts ← lift (getEntry raw STRIPBYTECOUNTS);
  acc ← slice_loop offsets counts (Z.to_nat (count offsets)) 0 ([], 0);
  let '(slices, completeH) := acc in
  match slices with
  | [] => lift (ThrowRDE "CR2 Decoder: No Slices found.")
  | slice0 :: _ =>
    let mRaw := set_dim (iPoint2D.mk (wrap_s32 (Cr2Slice.w slice0)) completeH) mRaw in
    mRaw ← lift (sraw_geometry raw mRaw);
    let mRaw := createData mRaw in
    s_width ← lift (slice_widths raw slice0);
    mRaw ← decode_loop s_width 0 slices 0 mRaw;
    if (1 <? iPoint2D.x (subsampling mRaw)) || (1 <? iPoint2D.y (subsampling mRaw))
    then lift (sRawInterpolate mRaw)
    else mret mRaw
  end
end.

(** *** [Cr2Decoder::decodeOldFormat] *)

(** the payload offset [off] *)
Definition old_format_offset : result Z :=
match getEntryRecursive (mRootIFD this) 0x81 with
| Some e => getInt e 0
| None =>
  match getIFDsWithTag (mRootIFD this) CFAPATTERN with
  | [] => ThrowRDE "CR2 Decoder: Couldn't find offset"
  | data0 :: _ =>
    if hasEntry data0 STRIPOFFSETS then
      e ← getEntry data0 STRIPOFFSETS; getInt e 0
    else ThrowRDE "CR2 Decoder: Couldn't find offset"
  end
end.

(** [ByteStream b(mFile, off+41, getHostEndianness() == big)] and the two
  [getShort]s: [(height, width)] *)
Definition old_format_size (off : Z) : result (Z * Z) :=
let b :=
  mkByteStream (mFile this) (wrap_u32 (off + 41))
    (bool_decide (getHostEndianness this = big)) in
'(height, b) ← ByteStream_getShort (getHostEndianness this) b;
'(width, b) ← ByteStream_getShort (getHostEndianness this) b;
Ok (height, width).

(** the copy of the double-width half-height image into [procRaw] *)
Definition double_line_copy (width height : Z) (src procRows : list (list Z))
: list (list Z) :=
for_range 0 height
  (fun y rows =>
     let src_x := if y mod 2 =? 0 then 0 else width in
     let src_line := drop (Z.to_nat src_x) (src !!! Z.to_nat (y / 2)) in
     alter
       (fun dst =>
          for_range 0 width
            (fun x dst => <[Z.to_nat x := src_line !!! Z.to_nat x]> dst) dst)
       (Z.to_nat y) rows)
  procRows.

(** the block under [mRootIFD->getEntryRecursive((TiffTag)0x123)] *)
Definition apply_linearization (mRaw : RawImage) : RawImage :=
match getEntryRecursive (mRootIFD this) 0x123 with
| Some curve =>
  if bool_decide (type curve = TIFF_SHORT) && (count curve =? 4096) then
    let linearization := curve in
    let len := count linearization in
    (* getShortArray(table, len) *)
    let table := map wrap_u16 (take (Z.to_nat len) (vals linearization)) in
    if negb (uncorrectedRawValues this) then
      let mRaw := setTable table 4096 true mRaw in
      let mRaw := sixteenBitLookup mRaw in
      setTable_nullptr mRaw
    else
      setTable table 4096 false mRaw
  else mRaw
| None => mRaw
end.

Definition decodeOldFormat : M RawImage :=
let mRaw := RawImage_create in
off ← lift old_format_offset;
'(height, width) ← lift (old_format_size off);
let double_line := has_hint (hints this) "double_line_ljpeg" in
let '(width, height, mRaw) :=
  if double_line then
    let height := wrap_u32 (height * 2) in
    (width, height,
     set_dim (iPoint2D.mk (wrap_s32 (width * 2)) (wrap_s32 (height / 2))) mRaw)
  else
    let width := wrap_u32 (width * 2) in
    (width, height, set_dim (iPoint2D.mk (wrap_s32 width) (wrap_s32 height)) mRaw) in
let mRaw := createData mRaw in
let size := wrap_u32 (getSize (mFile this) - off) in
let eff := decode (ljpeg this) [] off size 0 0 mRaw in
let mRaw := set_subsampling (frame_subsampling eff) (set_data (written eff) mRaw) in
mRaw ←
  call (Call_decode [] off size 0 0)
    match thrown eff with
    | None => Ok mRaw
    | Some (IOException m) => Ok (setError m mRaw)
    | Some e => Throw e
    end;
let mRaw :=
  if double_line then
    let final_size := iPoint2D.mk (wrap_s32 width) (wrap_s32 height) in
    let procRaw := createData (set_dim final_size RawImage_create) in
    let procRaw := set_subsampling (subsampling mRaw) procRaw in
    let procRaw :=
      mkRawImage (dim procRaw) (cpp procRaw) (isCFA procRaw) (data procRaw)
        (subsampling procRaw) (errors procRaw ++ errors mRaw) (table procRaw) in
    set_data (double_line_copy width height (data mRaw) (data procRaw)) procRaw
  else mRaw in
mret (apply_linearization mRaw).

(** *** [Cr2Decoder::decodeRawInternal] *)
Definition decodeRawInternal : M RawImage :=
let '(calls, r) :=
  if has_hint (hints this) "old_format" then decodeOldFormat
  else decodeNewFormat in
match r with
| Throw (TiffParserException _) =>
    (calls, ThrowRDE "CR2 Decoder: Unsupported format.")
| _ => (calls, r)
end.
End Cr2Decoder.

(** ** Concrete inputs *)

Definition no_entries : TiffIFD := mkTiffIFD ∅.

(** A raw directory with two strips, at (100, 10) and (200, 20). *)
Definition two_strips_raw : TiffIFD :=
  mkTiffIFD
    (<[STRIPOFFSETS := mkTiffEntry TIFF_LONG [100; 200]]>
       (<[STRIPBYTECOUNTS := mkTiffEntry TIFF_LONG [10; 20]]> ∅)).

Definition root_of (raw : TiffIFD) : TiffRootIFD :=
  mkTiffRootIFD (fun _ => None) (fun _ => [])
    [no_entries; no_entries; no_entries; raw] little.

Definition any_file : FileMap := mkFileMap [] (fun _ _ => true).

(** A black box whose frames are 100 wide; the frame at offset 100 is 50
    high, any other 70; [decode] leaves the raster alone and ends with
    [ex]. *)
Definition ljpeg_100 (ex : Z -> option Exn) : LJpegPlain :=
  mkLJpegPlain
    (fun offset size =>
       Ok (SOFInfo.mk 100 (if offset =? 100 then 50 else 70) 1 14))
    (fun _ offset _ _ _ r => mkDecodeEffect (data r) (subsampling r) (ex offset)).

Definition two_strips : Cr2Decoder :=
  mkCr2Decoder any_file (root_of two_strips_raw) ∅ false
    (ljpeg_100 (fun _ => None)) little.

(** One strip, whose decoding ends with an [IOException]. *)
Definition one_strip_raw : TiffIFD :=
  mkTiffIFD
    (<[STRIPOFFSETS := mkTiffEntry TIFF_LONG [100]]>
       (<[STRIPBYTECOUNTS := mkTiffEntry TIFF_LONG [10]]> ∅)).

Definition truncated_strip : Cr2Decoder :=
  mkCr2Decoder any_file (root_of one_strip_raw) ∅ false
    (ljpeg_100 (fun _ => Some (IOException "truncated"))) little.


(** "force_new_sraw_hue" set, no entry 0x10 anywhere. *)
Definition forced_hue_decoder : Cr2Decoder :=
  mkCr2Decoder any_file (root_of no_entries) {[ "force_new_sraw_hue" := "" ]}
    false (ljpeg_100 (fun _ => None)) little.

(** A CANONCOLORDATA entry whose shorts 78..81 are [a], [b], [c], [d]. *)
Definition color_data (a b c d : Z) : TiffEntry :=
  mkTiffEntry TIFF_SHORT (replicate 78 0 ++ [a; b; c; d]).

Definition invert_wb_decoder : Cr2Decoder :=
  mkCr2Decoder any_file (root_of no_entries) {[ "invert_sraw_wb" := "" ]}
    false (ljpeg_100 (fun _ => None)) little.

(** A linearisation curve of 4096 shorts, and a decoder that finds it
    under tag 0x123. *)
Definition curve_4096 : TiffEntry :=
  mkTiffEntry TIFF_SHORT (map (fun i => 2 * Z.of_nat i) (seq 0 4096)).

Definition curve_decoder (uncorrected : bool) : Cr2Decoder :=
  mkCr2Decoder any_file
    (mkTiffRootIFD (fun tag => if tag =? 0x123 then Some curve_4096 else None)
       (fun _ => []) [] little)
    ∅ uncorrected (ljpeg_100 (fun _ => None)) little.

Definition raster_2x2 : RawImage :=
  set_data [[5; 4096]; [4097; 65535]] (set_dim (iPoint2D.mk 2 2) RawImage_create).

(** An old-format file whose size record, 41 bytes in, is 0B B8 07 D0; the
    container and the host have the byte order [e]. *)
Definition old_header_decoder (e : Endianness) : Cr2Decoder :=
  mkCr2Decoder
    (mkFileMap (replicate 41 x00 ++ [x0b; xb8; x07; xd0]) (fun _ _ => true))
    (mkTiffRootIFD (fun _ => None) (fun _ => []) [] e)
    {[ "old_format" := "" ]} false (ljpeg_100 (fun _ => None)) e.

(** One strip, whose decoding ends with a [RawDecoderException]. *)
Definition malformed_strip : Cr2Decoder :=
  mkCr2Decoder any_file (root_of one_strip_raw) ∅ false
    (ljpeg_100 (fun _ => Some (RawDecoderException "malformed"))) little.

(** The slice recorded for the frame at (100, 10). *)
Definition slice_100 : Cr2Slice := Cr2Slice.mk 100 50 100 10.

(** The raster [two_strips] decodes to: 100 by 100, untouched by the
    black box of the example. *)
Definition two_strips_raster : RawImage :=
  createData (set_dim (iPoint2D.mk 100 100) (set_isCFA true RawImage_create)).

(** A camera whose model id, 0x80000218, asks for the halved hue. *)
Definition hue_decoder : Cr2Decoder :=
  mkCr2Decoder any_file
    (mkTiffRootIFD
       (fun tag => if tag =? 0x10 then Some (mkTiffEntry TIFF_LONG [0x80000218]) else None)
       (fun _ => []) [] little)
    ∅ false (ljpeg_100 (fun _ => None)) little.

(** Two lines of four pixels, 4:2:0 subsampled. *)
Definition sraw_raster : RawImage :=
  set_subsampling (iPoint2D.mk 2 2)
    (setCpp 3
       (set_data
          [[1000; 16484; 16584; 1100; 0; 0; 1200; 16284; 16184; 1300; 0; 0];
           [2000; 0; 0; 2100; 0; 0; 2200; 0; 0; 2300; 0; 0]]
          (set_dim (iPoint2D.mk 4 2) RawImage_create))).

(** One line of two pixels. *)
Definition sraw_line : RawImage :=
  set_subsampling (iPoint2D.mk 2 1)
    (setCpp 3
       (set_data [[1000; 16484; 16584; 1100; 0; 0]]
          (set_dim (iPoint2D.mk 2 1) RawImage_create))).

Definition unit_coeffs : SrawCoeffs := mkSrawCoeffs 1024 1024 1024.

(** ** Auxiliary notions for the statements *)

(** [p] holds of [x], [x + 1], ..., [x + n - 1] *)
Fixpoint all_from (p : Z -> bool) (n : nat) (x : Z) : bool :=
  match n with
  | O => true
  | S n' => p x && all_from p n' (x + 1)
  end.

(** [n] is an integer nearest to the quotient [a / b], for [0 < b] *)
Definition nearest_integer (n a b : Z) : Prop := 2 * Z.abs (n * b - a) <= b.

(** the 16-bit big-endian value at [pos] *)
Definition be16 (bytes : list byte) (pos : Z) : option Z :=
  match bytes !! Z.to_nat pos, bytes !! Z.to_nat (pos + 1) with
  | Some b0, Some b1 => Some (256 * Z.of_N (Byte.to_N b0) + Z.of_N (Byte.to_N b1))
  | _, _ => None
  end.

(** the call [c], then what [m] does *)
Definition prepend {A : Type} (c : LJpegCall) (m : M A) : M A := (c :: fst m, snd m).

(** the raster once the black box has run on [slice] *)
Definition after_decode (lj : LJpegPlain) (s_width : list Z) (slice : Cr2Slice)
    (offY : Z) (mRaw : RawImage) : RawImage :=
  let eff :=
    decode lj s_width (Cr2Slice.offset slice) (Cr2Slice.size slice) 0 offY mRaw in
  set_subsampling (frame_subsampling eff) (set_data (written eff) mRaw).

Definition sum_Z (l : list Z) : Z := foldr Z.add 0 l.

(** the widths of the slices before the [i]-th, added up *)
Definition widths_before (slices : list Cr2Slice) (i : nat) : Z :=
  sum_Z (map Cr2Slice.w (take i slices)).

(** The black box throws its documented exceptions only: "IOException
    (truncation), generic decoder exception (malformed bitstream)". *)
Definition documented_exceptions (lj : LJpegPlain) : Prop :=
  forall s_width offset size offX offY r e,
    thrown (decode lj s_width offset size offX offY r) = Some e ->
    exists m, e = RawDecoderException m \/ e = IOException m.

(** [sl] is the slice [slice_of_sof] records for the frame the black box
    reports at [sl]'s own offset and size *)
Definition interrogated (this : Cr2Decoder) (sl : Cr2Slice) : Prop :=
  exists sof,
    getSOF (ljpeg this) (Cr2Slice.offset sl) (Cr2Slice.size sl) = Ok sof /\
    sl = slice_of_sof sof (Cr2Slice.offset sl) (Cr2Slice.size sl).

(** the slices of [all] that lie in the file *)
Definition retained (this : Cr2Decoder) (all : list Cr2Slice) : list Cr2Slice :=
  List.filter
    (fun sl => isValid (mFile this) (Cr2Slice.offset sl) (Cr2Slice.size sl)) all.

Definition getSOF_calls (all : list Cr2Slice) : list LJpegCall :=
  map (fun sl => Call_getSOF (Cr2Slice.offset sl) (Cr2Slice.size sl)) all.

(** the call is a [decode] *)
Definition is_decode_call (c : LJpegCall) : bool :=
  match c with
  | Call_decode _ _ _ _ _ => true
  | Call_getSOF _ _ => false
  end.

(** the [decode] calls among [calls] *)
Definition decode_calls (calls : list LJpegCall) : list LJpegCall :=
  List.filter is_decode_call calls.

(** The slices a run has interrogated, read off its calls: one for each
    [getSOF] call to which the black box reports a frame, in the order of
    the calls. *)
Definition interrogated_slices (this : Cr2Decoder) (calls : list LJpegCall) :
    list Cr2Slice :=
  omap (fun c =>
          match c with
          | Call_getSOF offset size =>
              match getSOF (ljpeg this) offset size with
              | Ok sof => Some (slice_of_sof sof offset size)
              | Throw _ => None
              end
          | Call_decode _ _ _ _ _ => None
          end) calls.

(** the slices of [l] are as wide as its first *)
Definition same_width (l : list Cr2Slice) : Prop :=
  match l with
  | [] => True
  | slice0 :: rest => Forall (fun sl => Cr2Slice.w sl = Cr2Slice.w slice0) rest
  end.

(** the dimensions before the sRaw fixes: the width of [slice0], and the
    heights of [all] added up, both as [int] *)
Definition provisional_dim (slice0 : Cr2Slice) (all : list Cr2Slice) : iPoint2D :=
  iPoint2D.mk (wrap_s32 (Cr2Slice.w slice0)) (wrap_s32 (sum_Z (map Cr2Slice.h all))).

Definition max_Z (l : list Z) : Z := foldr Z.max 0 l.

(** the pixel whose three samples start at [j] *)
Definition px (l : list Z) (j : nat) : Z * Z * Z :=
  (l !!! j, l !!! (j + 1)%nat, l !!! (j + 2)%nat).

(** what [STORE_RGB] writes for [r], [g], [b] *)
Definition clamp_rgb (rgb : Z * Z * Z) : Z * Z * Z :=
  let '(r, g, b) := rgb in (clampbits r 16, clampbits g 16, clampbits b 16).

(** the two chroma samples of the triplet at [j], less [bias] each *)
Definition chroma_at (bias : Z) (l : list Z) (j : nat) : Z * Z :=
  (l !!! (j + 1)%nat - bias, l !!! (j + 2)%nat - bias).

(** Pair [k] of a 4:2:2 line: in [out], its first pixel is made of the
    luma and of the chroma of triplet [6k] of [c], its second of the next
    luma and of the mean of that chroma and the chroma of triplet
    [6k + 6]; [bias] is taken off every chroma sample read. *)
Definition pair_422 (yuv : Z -> Z -> Z -> Z * Z * Z) (bias : Z)
    (c out : list Z) (k : nat) : Prop :=
  let j := (6 * k)%nat in
  let '(Cb, Cr) := chroma_at bias c j in
  let '(Cbn, Crn) := chroma_at bias c (j + 6) in
  px out j = clamp_rgb (yuv (c !!! j) Cb Cr) /\
  px out (j + 3) =
    clamp_rgb (yuv (c !!! (j + 3)%nat) (Z.shiftr (Cb + Cbn) 1) (Z.shiftr (Cr + Crn) 1)).

(** A pair without a next triplet: both pixels take the chroma of triplet
    [6k]. *)
Definition pair_422_last (yuv : Z -> Z -> Z -> Z * Z * Z) (bias : Z)
    (c out : list Z) (k : nat) : Prop :=
  let j := (6 * k)%nat in
  let '(Cb, Cr) := chroma_at bias c j in
  px out j = clamp_rgb (yuv (c !!! j) Cb Cr) /\
  px out (j + 3) = clamp_rgb (yuv (c !!! (j + 3)%nat) Cb Cr).

(** Block [k] of a 4:2:0 line pair: [c] and [n] are the two lines as found
    and [nn] the line below them, [c'] and [n'] the two lines as left.
    The chroma of the block's own triplet, of the triplet to its right, of
    the one below and of the one below right are each read with [bias]
    taken off. *)
Definition block_420 (yuv : Z -> Z -> Z -> Z * Z * Z) (bias : Z)
    (c n nn c' n' : list Z) (k : nat) : Prop :=
  let j := (6 * k)%nat in
  let '(Cb, Cr) := chroma_at bias c j in
  let '(Cbr, Crr) := chroma_at bias c (j + 6) in
  let '(Cbb, Crb) := chroma_at bias nn j in
  let '(Cbd, Crd) := chroma_at bias nn (j + 6) in
  let Cb2 := Z.shiftr (Cb + Cbr) 1 in
  let Cr2 := Z.shiftr (Cr + Crr) 1 in
  let Cb3 := Z.shiftr (Cb + Cbb) 1 in
  let Cr3 := Z.shiftr (Cr + Crb) 1 in
  px c' j = clamp_rgb (yuv (c !!! j) Cb Cr) /\
  px c' (j + 3) = clamp_rgb (yuv (c !!! (j + 3)%nat) Cb2 Cr2) /\
  px n' j = clamp_rgb (yuv (n !!! j) Cb3 Cr3) /\
  px n' (j + 3) =
    clamp_rgb (yuv (n !!! (j + 3)%nat)
                 (Z.shiftr (Cb + Cb2 + Cb3 + Cbd) 2)
                 (Z.shiftr (Cr + Cr2 + Cr3 + Crd) 2)).

(** The last block of a line pair: no triplet to the right. *)
Definition block_420_last (yuv : Z -> Z -> Z -> Z * Z * Z) (bias : Z)
    (c n nn c' n' : list Z) (k : nat) : Prop :=
  let j := (6 * k)%nat in
  let '(Cb, Cr) := chroma_at bias c j in
  let '(Cbb, Crb) := chroma_at bias nn j in
  let Cb3 := Z.shiftr (Cb + Cbb) 1 in
  let Cr3 := Z.shiftr (Cr + Crb) 1 in
  px c' j = clamp_rgb (yuv (c !!! j) Cb Cr) /\
  px c' (j + 3) = clamp_rgb (yuv (c !!! (j + 3)%nat) Cb Cr) /\
  px n' j = clamp_rgb (yuv (n !!! j) Cb3 Cr3) /\
  px n' (j + 3) = clamp_rgb (yuv (n !!! (j + 3)%nat) Cb3 Cr3).

(** A block of the last line pair: the four pixels take the chroma of the
    block's own triplet. *)
Definition block_420_lastline (yuv : Z -> Z -> Z -> Z * Z * Z) (bias : Z)
    (c n c' n' : list Z) (k : nat) : Prop :=
  let j := (6 * k)%nat in
  let '(Cb, Cr) := chroma_at bias c j in
  px c' j = clamp_rgb (yuv (c !!! j) Cb Cr) /\
  px c' (j + 3) = clamp_rgb (yuv (c !!! (j + 3)%nat) Cb Cr) /\
  px n' j = clamp_rgb (yuv (n !!! j) Cb Cr) /\
  px n' (j + 3) = clamp_rgb (yuv (n !!! (j + 3)%nat) Cb Cr).

(** the raster has [rows] rows of [cols] samples at least *)
Definition raster_at_least (rows cols : nat) (img : list (list Z)) : Prop :=
  (rows <= length img)%nat /\
  forall y, (y < rows)%nat -> (cols <= length (img !!! y))%nat.

(** [pair_422] for the first [pairs] pairs of each of the first [rows]
    lines, [img] being the raster as found and [out] as left *)
Definition lines_422 (yuv : Z -> Z -> Z -> Z * Z * Z) (bias : Z)
    (pairs rows : nat) (img out : list (list Z)) : Prop :=
  forall y, (y < rows)%nat ->
  forall k, (k < pairs)%nat -> pair_422 yuv bias (img !!! y) (out !!! y) k.

(** [pair_422_last] for pair [pairs] of each of the first [rows] lines *)
Definition line_ends_422 (yuv : Z -> Z -> Z -> Z * Z * Z) (bias : Z)
    (pairs rows : nat) (img out : list (list Z)) : Prop :=
  forall y, (y < rows)%nat -> pair_422_last yuv bias (img !!! y) (out !!! y) pairs.

(** [block_420] for the first [pairs] blocks of each of the first
    [line_pairs] line pairs *)
Definition blocks_420 (yuv : Z -> Z -> Z -> Z * Z * Z) (bias : Z)
    (pairs line_pairs : nat) (img out : list (list Z)) : Prop :=
  forall y, (y < line_pairs)%nat ->
  forall k, (k < pairs)%nat ->
    block_420 yuv bias (img !!! (2 * y)%nat) (img !!! (2 * y + 1)%nat)
      (img !!! (2 * y + 2)%nat) (out !!! (2 * y)%nat) (out !!! (2 * y + 1)%nat) k.

(** [block_420_last] for block [pairs] of each of the first [line_pairs]
    line pairs *)
Definition block_ends_420 (yuv : Z -> Z -> Z -> Z * Z * Z) (bias : Z)
    (pairs line_pairs : nat) (img out : list (list Z)) : Prop :=
  forall y, (y < line_pairs)%nat ->
    block_420_last yuv bias (img !!! (2 * y)%nat) (img !!! (2 * y + 1)%nat)
      (img !!! (2 * y + 2)%nat) (out !!! (2 * y)%nat) (out !!! (2 * y + 1)%nat) pairs.

(** [block_420_lastline] for the first [pairs] blocks of line pair [y] *)
Definition lastline_blocks_420 (yuv : Z -> Z -> Z -> Z * Z * Z) (bias : Z)
    (pairs y : nat) (img out : list (list Z)) : Prop :=
  forall k, (k < pairs)%nat ->
    block_420_lastline yuv bias (img !!! (2 * y)%nat) (img !!! (2 * y + 1)%nat)
      (out !!! (2 * y)%nat) (out !!! (2 * y + 1)%nat) k.

(** ** Further notions for the statements *)

(** the raw directory announces sRaw: entry 0xc6c5 whose first value,
    read as [ushort16], is 4 *)
Definition sraw_flag (raw : TiffIFD) : bool :=
  match entries raw !! 0xc6c5 with
  | Some e =>
      match vals e with
      | v :: _ => wrap_u16 (wrap_u32 v) =? 4
      | [] => false
      end
  | None => false
  end.

(** A raw directory with one strip and the slice table (3, 1512, 552). *)
Definition sliced_raw : TiffIFD :=
  mkTiffIFD
    (<[CANONCR2SLICE := mkTiffEntry TIFF_SHORT [3; 1512; 552]]>
       (<[STRIPOFFSETS := mkTiffEntry TIFF_LONG [100]]>
          (<[STRIPBYTECOUNTS := mkTiffEntry TIFF_LONG [10]]> ∅))).

(** A raw directory that announces sRaw, without declared image size. *)
Definition sraw_raw : TiffIFD :=
  mkTiffIFD
    (<[0xc6c5 := mkTiffEntry TIFF_SHORT [4]]>
       (<[STRIPOFFSETS := mkTiffEntry TIFF_LONG [100]]>
          (<[STRIPBYTECOUNTS := mkTiffEntry TIFF_LONG [10]]> ∅))).

(** The same with IMAGEWIDTH 50 and IMAGELENGTH 1000. *)
Definition sraw_sized_raw : TiffIFD :=
  mkTiffIFD
    (<[IMAGEWIDTH := mkTiffEntry TIFF_LONG [50]]>
       (<[IMAGELENGTH := mkTiffEntry TIFF_LONG [1000]]> (entries sraw_raw))).

(** A raster of provisional dimensions 300 by 500, not yet allocated. *)
Definition provisional_300_500 : RawImage :=
  set_dim (iPoint2D.mk 300 500) (set_isCFA true RawImage_create).

(** One strip, sRaw announced; the frames of the black box are 300
    samples wide and 50 high, and [decode] reports no subsampling. *)
Definition sraw_strip : Cr2Decoder :=
  mkCr2Decoder any_file (root_of sraw_raw) ∅ false
    (mkLJpegPlain (fun _ _ => Ok (SOFInfo.mk 300 50 1 14))
       (fun _ _ _ _ _ r => mkDecodeEffect (data r) (subsampling r) None))
    little.

(** Two strips, neither of which lies in the file. *)
Definition strips_outside_file : Cr2Decoder :=
  mkCr2Decoder (mkFileMap [] (fun _ _ => false)) (root_of two_strips_raw) ∅ false
    (ljpeg_100 (fun _ => None)) little.

(** Four sub-directories, the raw one without any entry. *)
Definition no_strips_decoder : Cr2Decoder :=
  mkCr2Decoder any_file (root_of no_entries) ∅ false (ljpeg_100 (fun _ => None)) little.

(** the call reads the byte range ([offset], [size]) *)
Definition call_at (offset size : Z) (c : LJpegCall) : Prop :=
  match c with
  | Call_getSOF o s => o = offset /\ s = size
  | Call_decode _ o s _ _ => o = offset /\ s = size
  end.

(** the decoder with other hints *)
Definition with_hints (h : gmap string string) (this : Cr2Decoder) : Cr2Decoder :=
  mkCr2Decoder (mFile this) (mRootIFD this) h (uncorrectedRawValues this)
    (ljpeg this) (getHostEndianness this).

(** A container with sRaw coefficients (1024, 1024, 512) in its colour
    data and no model id. *)
Definition color_data_ifd : TiffIFD :=
  mkTiffIFD (<[CANONCOLORDATA := color_data 1024 1024 1024 512]> ∅).

Definition sraw_decoder : Cr2Decoder :=
  mkCr2Decoder any_file
    (mkTiffRootIFD (fun _ => None)
       (fun tag => if tag =? CANONCOLORDATA then [color_data_ifd] else [])
       [] little)
    ∅ false (ljpeg_100 (fun _ => None)) little.

(** the three 4:2:2 interpolators *)
Definition interpolators_422
  : list (Cr2Decoder -> SrawCoeffs -> Z -> Z -> Z -> Z -> RawImage -> result RawImage) :=
  [interpolate_422; interpolate_422_old; interpolate_422_new].

(** the two 4:2:0 interpolators *)
Definition interpolators_420
  : list (Cr2Decoder -> SrawCoeffs -> Z -> Z -> Z -> Z -> RawImage -> result RawImage) :=
  [interpolate_420; interpolate_420_new].
(** ** Old format *)

(** The raster the black box decodes an old-format payload into: twice
    the width of the size record wide, and as high. *)
Definition old_format_frame (width height : Z) : RawImage :=
  createData (set_dim (iPoint2D.mk (2 * width) height) RawImage_create).

(** What the one [decode] of the old format leaves behind. *)
Definition old_format_decode (this : Cr2Decoder) (off width height : Z) : DecodeEffect :=
  decode (ljpeg this) [] off (wrap_u32 (getSize (mFile this) - off)) 0 0
    (old_format_frame width height).

(** no entry 0x123 that counts as a linearisation table *)
Definition no_linearization (this : Cr2Decoder) : Prop :=
  match getEntryRecursive (mRootIFD this) 0x123 with
  | Some curve => type curve <> TIFF_SHORT \/ count curve <> 4096
  | None => True
  end.

(** An old-format file whose payload starts at 0 and whose size record
    says height 1 and width 2; the black box writes 10, 11, 12, 13 on the
    one line of the frame and ends with [ex]. *)
Definition old_format_decoder (h : gmap string string) (ex : option Exn) : Cr2Decoder :=
  mkCr2Decoder
    (mkFileMap (replicate 41 x00 ++ [x00; x01; x00; x02]) (fun _ _ => true))
    (mkTiffRootIFD
       (fun tag => if tag =? 0x81 then Some (mkTiffEntry TIFF_LONG [0]) else None)
       (fun _ => []) [] little)
    h false
    (mkLJpegPlain (fun _ _ => Ok (SOFInfo.mk 4 1 1 12))
       (fun _ _ _ _ _ r => mkDecodeEffect [[10; 11; 12; 13]] (subsampling r) ex))
    little.

Definition double_line_hints : gmap string string :=
  {[ "old_format" := ""; "double_line_ljpeg" := "" ]}.
(** * Properties *)

(** ** Results *)

Lemma bind_Ok_inv {A B : Type} (m : result A) (f : A -> result B) (b : B) :
  m ≫= f = Ok b -> exists a, m = Ok a /\ f a = Ok b.
Proof. destruct m as [a | e]; cbn; [eauto | discriminate]. Qed.

Lemma bind_Ok {A B : Type} (m : result A) (f : A -> result B) (a : A) :
  m = Ok a -> m ≫= f = f a.
Proof. intros ->. reflexivity. Qed.

(** Take apart a chain of binds known to return. *)
Ltac bind_inv H :=
  let a := fresh "v" in
  let Ha := fresh "E" in
  apply bind_Ok_inv in H as (a & Ha & H).

(** ** Mode string *)

(** C9, as the code has it: the mode string is "sRaw1" exactly when
    (sx, sy) = (2, 2), "sRaw2" exactly when (sx, sy) = (2, 1), and empty
    for every other pair of subsampling factors. *)
Theorem metadata_mode_cases (mRaw : RawImage) :
  let sx := iPoint2D.x (subsampling mRaw) in
  let sy := iPoint2D.y (subsampling mRaw) in
  (metadata_mode mRaw = "sRaw1" <-> sx = 2 /\ sy = 2) /\
  (metadata_mode mRaw = "sRaw2" <-> sx = 2 /\ sy = 1) /\
  (metadata_mode mRaw = "" <-> ~ (sx = 2 /\ sy = 2) /\ ~ (sx = 2 /\ sy = 1)).
Proof.
  unfold metadata_mode; cbv zeta.
  destruct (Z.eqb_spec (iPoint2D.y (subsampling mRaw)) 2) as [Hy2 | Hy2];
    destruct (Z.eqb_spec (iPoint2D.x (subsampling mRaw)) 2) as [Hx2 | Hx2];
    destruct (Z.eqb_spec (iPoint2D.y (subsampling mRaw)) 1) as [Hy1 | Hy1];
    cbn; repeat split; intros; try discriminate; try lia.
Qed.

(** C9, as the claim has it, fails: with (sx, sy) = (1, 2) the mode is not
    "sRaw2", and with (sx, sy) = (2, 1) it is not empty. *)
Lemma metadata_mode_1_2_not_sRaw2 :
  metadata_mode (set_subsampling (iPoint2D.mk 1 2) RawImage_create) <> "sRaw2" /\
  metadata_mode (set_subsampling (iPoint2D.mk 2 1) RawImage_create) <> "".
Proof. split; vm_compute; discriminate. Qed.

(** ** Hue *)

(** C10: without the hint "old_sraw_hue" and without an entry 0x10,
    [getHue] is 0 whatever the other hints are ("force_new_sraw_hue"
    included), and each of the five interpolators runs its kernel with
    the chroma bias 16384. *)
Theorem getHue_without_model_id (this : Cr2Decoder) (mRaw : RawImage)
    (k : SrawCoeffs) (w h start_h end_h : Z) :
  hints this !! "old_sraw_hue" = None ->
  getEntryRecursive (mRootIFD this) 0x10 = None ->
  getHue this mRaw = Ok 0 /\
  interpolate_422 this k w h start_h end_h mRaw =
    Ok (set_data (rows_422 (YUV_TO_RGB k) 16384 16384 w h start_h end_h (data mRaw)) mRaw) /\
  interpolate_422_old this k w h start_h end_h mRaw =
    Ok (set_data (rows_422 (YUV_TO_RGB_old k) 16384 16384 w h start_h end_h (data mRaw)) mRaw) /\
  interpolate_422_new this k w h start_h end_h mRaw =
    Ok (set_data (rows_422 (YUV_TO_RGB_new k) 16384 16384 w h start_h end_h (data mRaw)) mRaw) /\
  interpolate_420 this k w h start_h end_h mRaw =
    Ok (set_data (rows_420 (YUV_TO_RGB k) 16384 w h start_h end_h (data mRaw)) mRaw) /\
  interpolate_420_new this k w h start_h end_h mRaw =
    Ok (set_data (rows_420 (YUV_TO_RGB_new k) 16384 w h start_h end_h (data mRaw)) mRaw).
Proof.
  intros Hold Hid.
  assert (Hg : getHue this mRaw = Ok 0).
  { unfold getHue, has_hint, hasEntryRecursive. rewrite Hold, Hid.
    rewrite !bool_decide_eq_false_2 by (intros [? ?]; discriminate).
    reflexivity. }
  unfold interpolate_422, interpolate_422_old, interpolate_422_new,
    interpolate_420, interpolate_420_new.
  rewrite Hg. cbn. repeat split; reflexivity.
Qed.

Lemma getHue_without_model_id_witness :
  hints forced_hue_decoder !! "old_sraw_hue" = None /\
  getEntryRecursive (mRootIFD forced_hue_decoder) 0x10 = None /\
  is_Some (hints forced_hue_decoder !! "force_new_sraw_hue") /\
  getHue forced_hue_decoder (set_subsampling (iPoint2D.mk 2 2) RawImage_create) = Ok 0.
Proof.
  split; [reflexivity | split; [reflexivity | split; [eexists; reflexivity |]]].
  apply (getHue_without_model_id forced_hue_decoder
           (set_subsampling (iPoint2D.mk 2 2) RawImage_create)
           (mkSrawCoeffs 1024 1024 1024) 2 2 0 2);
    reflexivity.
Defined.

(** ** Inverted white balance *)

Lemma all_from_spec (p : Z -> bool) (n : nat) (x : Z) :
  all_from p n x = true -> forall z, x <= z < x + Z.of_nat n -> p z = true.
Proof.
  revert x; induction n as [| n IH]; intros x Hall z Hz; [lia |].
  cbn [all_from] in Hall. apply andb_true_iff in Hall as [Hx Hrest].
  destruct (Z.eq_dec z x) as [-> | Hne]; [exact Hx |].
  apply (IH (x + 1) Hrest). lia.
Qed.

(** The binary32 computation discards the fraction of 2^20 / c, for every
    value a 16-bit coefficient can take but 0: checked value by value. *)
Lemma invert_coeff_quotient (c : Z) :
  1 <= c <= 65535 -> invert_coeff c = 1024 * 1024 / c.
Proof.
  intros Hc. apply Z.eqb_eq.
  apply (all_from_spec (fun c => invert_coeff c =? 1024 * 1024 / c)
           (Z.to_nat 65535) 1); [vm_compute; reflexivity | lia].
Qed.

Lemma getShort_range (e : TiffEntry) (num : nat) (v : Z) :
  getShort e num = Ok v -> 0 <= v <= 65535.
Proof.
  unfold getShort, entry_at. destruct (vals e !! num); cbn; [| discriminate].
  intros [= <-]. unfold wrap_u16.
  pose proof (Z.mod_pos_bound z (2 ^ 16)). lia.
Qed.

Lemma read_sraw_coeffs_range (wb : TiffEntry) (k : SrawCoeffs) :
  read_sraw_coeffs wb = Ok k ->
  0 <= sraw_coeffs_0 k <= 65535 /\ 0 <= sraw_coeffs_2 k <= 65535.
Proof.
  unfold read_sraw_coeffs. intros H.
  bind_inv H. bind_inv H. bind_inv H. bind_inv H.
  injection H as <-. cbn.
  split; eapply getShort_range; eassumption.
Qed.

(** C7, as the code has it: with the hint "invert_sraw_wb", coefficients
    0 and 2 (when not 0) are each replaced by 1024*1024 / original with
    the fraction discarded, and coefficient 1 is unchanged; for
    (1024, 1024, 512) the result is (1024, 1024, 2048). *)
Theorem invert_sraw_wb_truncates (this : Cr2Decoder) (wb : TiffEntry) (k : SrawCoeffs) :
  is_Some (hints this !! "invert_sraw_wb") ->
  read_sraw_coeffs wb = Ok k ->
  sraw_coeffs_0 k <> 0 ->
  sraw_coeffs_2 k <> 0 ->
  sraw_coeffs_of this wb =
    Ok (mkSrawCoeffs (1024 * 1024 / sraw_coeffs_0 k) (sraw_coeffs_1 k)
          (1024 * 1024 / sraw_coeffs_2 k)) /\
  invert_sraw_wb (mkSrawCoeffs 1024 1024 512) = mkSrawCoeffs 1024 1024 2048.
Proof.
  intros Hhint Hread H0 H2.
  destruct (read_sraw_coeffs_range wb k Hread) as [R0 R2].
  split; [| vm_compute; reflexivity].
  unfold sraw_coeffs_of. rewrite Hread. cbn.
  unfold has_hint. rewrite bool_decide_eq_true_2 by exact Hhint.
  unfold invert_sraw_wb.
  rewrite !invert_coeff_quotient by lia. reflexivity.
Qed.

Lemma invert_sraw_wb_truncates_witness :
  is_Some (hints invert_wb_decoder !! "invert_sraw_wb") /\
  read_sraw_coeffs (color_data 1000 1024 1024 512) = Ok (mkSrawCoeffs 1000 1024 512) /\
  sraw_coeffs_of invert_wb_decoder (color_data 1000 1024 1024 512) =
    Ok (mkSrawCoeffs (1024 * 1024 / 1000) 1024 (1024 * 1024 / 512)).
Proof.
  split; [eexists; reflexivity | split; [reflexivity |]].
  apply (invert_sraw_wb_truncates invert_wb_decoder
           (color_data 1000 1024 1024 512) (mkSrawCoeffs 1000 1024 512)).
  - eexists; reflexivity.
  - reflexivity.
  - cbn; lia.
  - cbn; lia.
Defined.

(** C7, as the claim has it, fails: the coefficient 1000 becomes 1048,
    which is not an integer nearest to 1024*1024/1000 = 1048.576. *)
Lemma invert_sraw_wb_1000_not_rounded :
  invert_sraw_wb (mkSrawCoeffs 1000 1024 512) = mkSrawCoeffs 1048 1024 2048 /\
  ~ nearest_integer 1048 (1024 * 1024) 1000 /\
  nearest_integer 1049 (1024 * 1024) 1000.
Proof.
  split; [vm_compute; reflexivity |].
  unfold nearest_integer. split; lia.
Qed.

(** ** Old format: the size record *)

Lemma wrap_u32_nonneg (z : Z) : 0 <= wrap_u32 z.
Proof. unfold wrap_u32. pose proof (Z.mod_pos_bound z (2 ^ 32)). lia. Qed.

(** One [getShort] of a stream declared native exactly on a big-endian
    host reads big-endian on either host. *)
Lemma ByteStream_getShort_big_endian (host : Endianness) (f : FileMap) (pos : Z) :
  0 <= pos ->
  ByteStream_getShort host (mkByteStream f pos (bool_decide (host = big))) =
    match be16 (file_data f) pos with
    | Some v => Ok (v, mkByteStream f (pos + 2) (bool_decide (host = big)))
    | None => Throw (IOException "Out of buffer read")
    end.
Proof.
  intros Hpos. unfold ByteStream_getShort, be16; cbn.
  destruct (Z.ltb_spec pos 0) as [? | _]; [lia |].
  destruct (file_data f !! Z.to_nat pos) as [b0 |]; [| reflexivity].
  destruct (file_data f !! Z.to_nat (pos + 1)) as [b1 |]; [| reflexivity].
  destruct host; reflexivity.
Qed.

Lemma old_format_size_reads (this : Cr2Decoder) (off : Z) :
  old_format_size this off =
    match be16 (file_data (mFile this)) (wrap_u32 (off + 41)),
          be16 (file_data (mFile this)) (wrap_u32 (off + 41) + 2) with
    | Some height, Some width => Ok (height, width)
    | _, _ => Throw (IOException "Out of buffer read")
    end.
Proof.
  pose proof (wrap_u32_nonneg (off + 41)) as Hpos.
  unfold old_format_size.
  rewrite ByteStream_getShort_big_endian by exact Hpos.
  destruct (be16 (file_data (mFile this)) (wrap_u32 (off + 41))) as [height |];
    [| reflexivity].
  cbn. rewrite ByteStream_getShort_big_endian by lia.
  destruct (be16 (file_data (mFile this)) (wrap_u32 (off + 41) + 2)) as [width |];
    reflexivity.
Qed.

(** C5: the two 16-bit values at 41 and 43 bytes into the payload are read
    big-endian, height first and width second, whatever the byte order of
    the host and of the container: two decoders over the same file, with
    any containers, read the same height and width. *)
Theorem old_format_size_big_endian (this this' : Cr2Decoder) (off : Z) :
  mFile this = mFile this' ->
  old_format_size this off = old_format_size this' off /\
  old_format_size this off =
    match be16 (file_data (mFile this)) (wrap_u32 (off + 41)),
          be16 (file_data (mFile this)) (wrap_u32 (off + 41) + 2) with
    | Some height, Some width => Ok (height, width)
    | _, _ => Throw (IOException "Out of buffer read")
    end.
Proof.
  intros Hf. split; [| apply old_format_size_reads].
  rewrite !old_format_size_reads, Hf. reflexivity.
Qed.

(** The record 0B B8 07 D0 at offset 41: height 3000 and width 2000, on a
    little-endian host with a little-endian container and on a big-endian
    host with a big-endian container. *)
Lemma old_format_size_big_endian_witness :
  mFile (old_header_decoder little) = mFile (old_header_decoder big) /\
  old_format_size (old_header_decoder little) 0 =
    old_format_size (old_header_decoder big) 0 /\
  old_format_size (old_header_decoder little) 0 = Ok (3000, 2000).
Proof.
  split; [reflexivity |].
  destruct (old_format_size_big_endian
              (old_header_decoder little) (old_header_decoder big) 0 eq_refl)
    as [Hsame Hread].
  split; [exact Hsame |].
  rewrite Hread. vm_compute. reflexivity.
Defined.

(** ** Old format: the linearisation table *)

(** C8: with an entry 0x123 of 4096 shorts, the raster keeps its
    dimensions; when uncorrected values are not asked for, every sample
    [s] becomes [table[s & 0xfff]] and no table stays on the raster; when
    they are, the samples are untouched and the table stays installed. *)
Theorem apply_linearization_table (this : Cr2Decoder) (mRaw : RawImage)
    (curve : TiffEntry) :
  getEntryRecursive (mRootIFD this) 0x123 = Some curve ->
  type curve = TIFF_SHORT ->
  count curve = 4096 ->
  let T := map wrap_u16 (vals curve) in
  let r := apply_linearization this mRaw in
  dim r = dim mRaw /\
  (uncorrectedRawValues this = false ->
     data r = map (map (fun s => T !!! Z.to_nat (Z.land s 0xfff))) (data mRaw) /\
     table r = None) /\
  (uncorrectedRawValues this = true ->
     data r = data mRaw /\ table r = Some (mkTableLookUp T false)).
Proof.
  intros Hcurve Htype Hcount T r. subst T r.
  unfold apply_linearization. rewrite Hcurve, Hcount.
  rewrite bool_decide_eq_true_2 by exact Htype. cbn [andb Z.eqb Pos.eqb].
  assert (Hlen : length (vals curve) = Z.to_nat 4096).
  { unfold count in Hcount. lia. }
  assert (Htake : take (Z.to_nat 4096) (map wrap_u16 (take (Z.to_nat 4096) (vals curve)))
                  = map wrap_u16 (vals curve)).
  { rewrite (take_ge (vals curve)) by lia.
    apply take_ge. rewrite length_map. lia. }
  destruct (uncorrectedRawValues this); cbn [negb].
  - split; [reflexivity |]. split; [discriminate |]. intros _.
    unfold setTable; cbn. rewrite Htake. split; reflexivity.
  - split; [reflexivity |]. split; [| discriminate]. intros _.
    unfold setTable_nullptr, sixteenBitLookup, setTable; cbn.
    rewrite Htake. split; reflexivity.
Qed.

Lemma apply_linearization_table_witness :
  getEntryRecursive (mRootIFD (curve_decoder false)) 0x123 = Some curve_4096 /\
  type curve_4096 = TIFF_SHORT /\
  count curve_4096 = 4096 /\
  dim (apply_linearization (curve_decoder false) raster_2x2) = dim raster_2x2 /\
  data (apply_linearization (curve_decoder false) raster_2x2) =
    [[10; 0]; [2; 8190]].
Proof.
  split; [reflexivity |]. split; [reflexivity |]. split; [vm_compute; reflexivity |].
  destruct (apply_linearization_table (curve_decoder false) raster_2x2 curve_4096)
    as (Hdim & Hlookup & _); [reflexivity | reflexivity | vm_compute; reflexivity |].
  split; [exact Hdim |].
  destruct (Hlookup eq_refl) as [Hdata _].
  rewrite Hdata. vm_compute. reflexivity.
Defined.

(** ** Calls into the black box *)

Lemma M_bind_Ok_inv {A B : Type} (m : M A) (f : A -> M B) (t : list LJpegCall) (b : B) :
  m ≫= f = (t, Ok b) ->
  exists t1 a t2, m = (t1, Ok a) /\ f a = (t2, Ok b) /\ t = t1 ++ t2.
Proof.
  destruct m as [t1 [a | e]]; cbn; [| discriminate].
  destruct (f a) as [t2 r] eqn:Hf. intros [= <- ->]. eauto 6.
Qed.

Lemma M_bind_lift_Ok_inv {A B : Type} (m : result A) (f : A -> M B)
    (t : list LJpegCall) (b : B) :
  lift m ≫= f = (t, Ok b) -> exists a, m = Ok a /\ f a = (t, Ok b).
Proof.
  intros H. apply M_bind_Ok_inv in H as (t1 & a & t2 & Hm & Hf & ->).
  injection Hm as <- ->. eauto.
Qed.

Lemma M_bind_call {A B : Type} (c : LJpegCall) (r : result A) (f : A -> M B) :
  call c r ≫= f =
    match r with
    | Ok a => prepend c (f a)
    | Throw e => ([c], Throw e)
    end.
Proof. destruct r as [a | e]; cbn; [| reflexivity]. destruct (f a); reflexivity. Qed.

(** ** Machine integers *)

Lemma wrap_u32_add_l (a b : Z) : wrap_u32 (wrap_u32 a + b) = wrap_u32 (a + b).
Proof. unfold wrap_u32. apply Z.add_mod_idemp_l. lia. Qed.

Lemma wrap_s32_add_l (a b : Z) : wrap_s32 (wrap_s32 a + b) = wrap_s32 (a + b).
Proof.
  unfold wrap_s32. f_equal.
  replace ((a + 2 ^ 31) mod 2 ^ 32 - 2 ^ 31 + b + 2 ^ 31)
    with ((a + 2 ^ 31) mod 2 ^ 32 + b) by lia.
  rewrite Z.add_mod_idemp_l by lia. f_equal. lia.
Qed.

(** ** The decode loop *)

Lemma widths_before_cons (slice : Cr2Slice) (rest : list Cr2Slice) (i : nat) :
  widths_before (slice :: rest) (S i) = Cr2Slice.w slice + widths_before rest i.
Proof. reflexivity. Qed.

Section DecodeLoop.
Context (this : Cr2Decoder) (s_width : list Z).

Lemma decode_loop_cons (i : nat) (slice : Cr2Slice) (rest : list Cr2Slice)
  (offY : Z) (mRaw : RawImage) :
decode_loop this s_width i (slice :: rest) offY mRaw =
  let c := Call_decode s_width (Cr2Slice.offset slice) (Cr2Slice.size slice) 0 offY in
  let mRaw' := after_decode (ljpeg this) s_width slice offY mRaw in
  let next r :=
    prepend c
      (decode_loop this s_width (S i) rest (wrap_u32 (offY + Cr2Slice.w slice)) r) in
  match thrown (decode (ljpeg this) s_width (Cr2Slice.offset slice)
                  (Cr2Slice.size slice) 0 offY mRaw) with
  | None => next mRaw'
  | Some (RawDecoderException m) =>
      if bool_decide (i = 0%nat) then ([c], Throw (RawDecoderException m))
      else next (setError m mRaw')
  | Some (IOException m) => next (setError m mRaw')
  | Some e => ([c], Throw e)
  end.
Proof.
cbn [decode_loop]. rewrite M_bind_call. unfold after_decode. cbv zeta.
destruct (thrown _) as [[m | m | m] |]; try reflexivity.
destruct (bool_decide (i = 0%nat)); reflexivity.
Qed.

(** The calls of the loop start with the decode of its first slice; the
  rest, if any, are the calls of the loop over the remaining slices. *)
Lemma decode_loop_trace_cons (i : nat) (slice : Cr2Slice) (rest : list Cr2Slice)
  (offY : Z) (mRaw : RawImage) :
exists t,
  fst (decode_loop this s_width i (slice :: rest) offY mRaw) =
    Call_decode s_width (Cr2Slice.offset slice) (Cr2Slice.size slice) 0 offY :: t /\
  (t = [] \/
   exists r,
     t = fst (decode_loop this s_width (S i) rest
                (wrap_u32 (offY + Cr2Slice.w slice)) r)).
Proof.
rewrite decode_loop_cons. cbv zeta.
destruct (thrown _) as [[m | m | m] |]; cbn [prepend fst]; eauto.
destruct (bool_decide (i = 0%nat)); cbn [prepend fst]; eauto.
Qed.

Lemma decode_loop_calls (slices : list Cr2Slice) :
forall (i0 : nat) (offY : Z) (mRaw : RawImage) (i : nat) (c : LJpegCall),
  0 <= offY < 2 ^ 32 ->
  fst (decode_loop this s_width i0 slices offY mRaw) !! i = Some c ->
  exists sl,
    slices !! i = Some sl /\
    c = Call_decode s_width (Cr2Slice.offset sl) (Cr2Slice.size sl) 0
          (wrap_u32 (offY + widths_before slices i)).
Proof.
induction slices as [| slice rest IH]; intros i0 offY mRaw i c HoffY Hc.
- cbn in Hc. discriminate.
- destruct (decode_loop_trace_cons i0 slice rest offY mRaw) as (t & Ht & Hrest).
  rewrite Ht in Hc. destruct i as [| i].
  + injection Hc as <-. exists slice. split; [reflexivity |].
    unfold widths_before; cbn. rewrite Z.add_0_r.
    unfold wrap_u32. rewrite Z.mod_small by lia. reflexivity.
  + cbn in Hc. destruct Hrest as [-> | [r ->]]; [discriminate |].
    apply IH in Hc as (sl & Hsl & ->);
      [| unfold wrap_u32; apply Z.mod_pos_bound; lia].
    exists sl. split; [exact Hsl |].
    rewrite wrap_u32_add_l, widths_before_cons.
    do 2 f_equal. lia.
Qed.

(** A loop that returns has decoded every slice. *)
Lemma decode_loop_Ok_length (slices : list Cr2Slice) :
forall (i0 : nat) (offY : Z) (mRaw img : RawImage) (t : list LJpegCall),
  decode_loop this s_width i0 slices offY mRaw = (t, Ok img) ->
  length t = length slices.
Proof.
induction slices as [| slice rest IH]; intros i0 offY mRaw img t Hrun.
- cbn in Hrun. injection Hrun as <- _. reflexivity.
- rewrite decode_loop_cons in Hrun. cbv zeta in Hrun.
  assert (Hnext : forall r,
             prepend
               (Call_decode s_width (Cr2Slice.offset slice) (Cr2Slice.size slice) 0 offY)
               (decode_loop this s_width (S i0) rest
                  (wrap_u32 (offY + Cr2Slice.w slice)) r) = (t, Ok img) ->
             length t = length (slice :: rest)).
  { intros r. destruct (decode_loop _ _ _ rest _ r) as [t' res] eqn:Hloop.
    unfold prepend; cbn. intros [= <- ->]. cbn. f_equal. eapply IH, Hloop. }
  destruct (thrown _) as [[m | m | m] |]; eauto; try discriminate.
  destruct (bool_decide (i0 = 0%nat)); eauto; discriminate.
Qed.

(** The loop changes neither the dimensions nor the components. *)
Lemma decode_loop_dim (slices : list Cr2Slice) :
forall (i0 : nat) (offY : Z) (mRaw img : RawImage) (t : list LJpegCall),
  decode_loop this s_width i0 slices offY mRaw = (t, Ok img) ->
  dim img = dim mRaw.
Proof.
induction slices as [| slice rest IH]; intros i0 offY mRaw img t Hrun.
- cbn in Hrun. injection Hrun as _ <-. reflexivity.
- rewrite decode_loop_cons in Hrun. cbv zeta in Hrun.
  assert (Hnext : forall r,
             dim r = dim mRaw ->
             prepend
               (Call_decode s_width (Cr2Slice.offset slice) (Cr2Slice.size slice) 0 offY)
               (decode_loop this s_width (S i0) rest
                  (wrap_u32 (offY + Cr2Slice.w slice)) r) = (t, Ok img) ->
             dim img = dim mRaw).
  { intros r Hr. destruct (decode_loop _ _ _ rest _ r) as [t' res] eqn:Hloop.
    unfold prepend; cbn. intros [= <- ->]. rewrite <- Hr. eapply IH, Hloop. }
  destruct (thrown _) as [[m | m | m] |]; try discriminate;
    try (eapply Hnext; [| exact Hrun]; reflexivity).
  destruct (bool_decide (i0 = 0%nat)); [discriminate |].
  eapply Hnext; [| exact Hrun]; reflexivity.
Qed.

(** Past slice 0, a black box that throws its documented exceptions
  cannot stop the loop. *)
Lemma decode_loop_past_first (slices : list Cr2Slice) :
documented_exceptions (ljpeg this) ->
forall (i0 : nat) (offY : Z) (mRaw : RawImage),
  i0 <> 0%nat ->
  exists img, snd (decode_loop this s_width i0 slices offY mRaw) = Ok img.
Proof.
intros Hdoc. induction slices as [| slice rest IH]; intros i0 offY mRaw Hi0.
- cbn. eauto.
- rewrite decode_loop_cons. cbv zeta.
  destruct (thrown _) as [[m | m | m] |] eqn:Hthrown; cbn [prepend snd];
    try (apply IH; lia).
  + rewrite bool_decide_eq_false_2 by exact Hi0. cbn [prepend snd].
    apply IH; lia.
  + apply Hdoc in Hthrown as [m' [? | ?]]; discriminate.
Qed.
End DecodeLoop.

(** C3, as the code has it: every slice [i] is decoded into the raster at
    x-origin 0, and slice 0 at y-origin 0, by call [i] of the loop, from
    the slice's own offset and size and with the slice-width table; a loop
    that returns has decoded every slice.  Slices are not placed side by
    side.  The y-origin of the later slices is not part of the statement
    (see [decode_loop_calls] for the value the code passes). *)
Theorem decode_loop_origins (this : Cr2Decoder) (s_width : list Z)
    (slices : list Cr2Slice) (mRaw : RawImage)
    (calls : list LJpegCall) (r : result RawImage) :
  decode_loop this s_width 0 slices 0 mRaw = (calls, r) ->
  (forall (i : nat) (c : LJpegCall),
     calls !! i = Some c ->
     exists (sl : Cr2Slice) (offY : Z),
       slices !! i = Some sl /\
       c = Call_decode s_width (Cr2Slice.offset sl) (Cr2Slice.size sl) 0 offY /\
       (i = 0%nat -> offY = 0)) /\
  (forall img, r = Ok img -> length calls = length slices).
Proof.
  intros Hrun. split.
  - intros i c Hc.
    replace calls with (fst (decode_loop this s_width 0 slices 0 mRaw)) in Hc
      by (rewrite Hrun; reflexivity).
    apply decode_loop_calls in Hc as (sl & Hsl & ->); [| lia].
    exists sl, (wrap_u32 (0 + widths_before slices i)).
    split; [exact Hsl |]. split; [reflexivity |].
    intros ->. reflexivity.
  - intros img ->. eapply decode_loop_Ok_length, Hrun.
Qed.

Lemma decode_loop_origins_witness :
  decode_loop two_strips [100] 0 [slice_100; slice_100] 0 RawImage_create =
    ([Call_decode [100] 100 10 0 0; Call_decode [100] 100 10 0 100],
     Ok RawImage_create) /\
  exists (sl : Cr2Slice) (offY : Z),
    [slice_100; slice_100] !! 1%nat = Some sl /\
    Call_decode [100] 100 10 0 100 =
      Call_decode [100] (Cr2Slice.offset sl) (Cr2Slice.size sl) 0 offY.
Proof.
  split; [reflexivity |].
  destruct (decode_loop_origins two_strips [100] [slice_100; slice_100]
              RawImage_create
              [Call_decode [100] 100 10 0 0; Call_decode [100] 100 10 0 100]
              (Ok RawImage_create) eq_refl) as [Hcalls _].
  destruct (Hcalls 1%nat _ eq_refl) as (sl & offY & Hsl & Hc & _).
  exists sl, offY. split; assumption.
Defined.

(** C3, as the claim has it, fails: the second of two slices of width 100
    is decoded at (x, y) = (0, 100), not at (100, 0). *)
Lemma second_slice_origin_is_0_100 :
  fst (decodeNewFormat two_strips) !! 3%nat = Some (Call_decode [100] 100 10 0 100) /\
  Call_decode [100] 100 10 0 100 <> Call_decode [100] 100 10 100 0.
Proof. split; [vm_compute; reflexivity | discriminate]. Qed.

(** C4, as the code has it: a [RawDecoderException] on slice 0 ends the
    loop with that exception; a [RawDecoderException] on a later slice and
    an [IOException] on any slice, slice 0 included, are appended to the
    error log and the loop goes on with the next slice; so a loop whose
    slice 0 does not end with a [RawDecoderException] returns a raster. *)
Theorem decode_loop_failures (this : Cr2Decoder) (s_width : list Z) (i : nat)
    (slice : Cr2Slice) (rest : list Cr2Slice) (offY : Z) (mRaw : RawImage)
    (m : string) :
  let eff :=
    decode (ljpeg this) s_width (Cr2Slice.offset slice) (Cr2Slice.size slice)
      0 offY mRaw in
  let c := Call_decode s_width (Cr2Slice.offset slice) (Cr2Slice.size slice) 0 offY in
  let logged :=
    prepend c
      (decode_loop this s_width (S i) rest (wrap_u32 (offY + Cr2Slice.w slice))
         (setError m (after_decode (ljpeg this) s_width slice offY mRaw))) in
  (thrown eff = Some (RawDecoderException m) -> i = 0%nat ->
   decode_loop this s_width i (slice :: rest) offY mRaw =
     ([c], Throw (RawDecoderException m))) /\
  (thrown eff = Some (RawDecoderException m) -> i <> 0%nat ->
   decode_loop this s_width i (slice :: rest) offY mRaw = logged) /\
  (thrown eff = Some (IOException m) ->
   decode_loop this s_width i (slice :: rest) offY mRaw = logged) /\
  (documented_exceptions (ljpeg this) ->
   (i = 0%nat -> forall m', thrown eff <> Some (RawDecoderException m')) ->
   exists img, snd (decode_loop this s_width i (slice :: rest) offY mRaw) = Ok img).
Proof.
  cbv zeta. repeat split.
  - intros Hthrown ->. rewrite decode_loop_cons. cbv zeta. rewrite Hthrown.
    reflexivity.
  - intros Hthrown Hi. rewrite decode_loop_cons. cbv zeta. rewrite Hthrown.
    rewrite bool_decide_eq_false_2 by exact Hi. reflexivity.
  - intros Hthrown. rewrite decode_loop_cons. cbv zeta. rewrite Hthrown.
    reflexivity.
  - intros Hdoc Hfirst. rewrite decode_loop_cons. cbv zeta.
    destruct (thrown _) as [[m' | m' | m'] |] eqn:Hthrown; cbn [prepend snd];
      try (apply decode_loop_past_first; [exact Hdoc | lia]).
    + destruct (bool_decide_reflect (i = 0%nat)) as [Hi | Hi].
      * exfalso. exact (Hfirst Hi m' eq_refl).
      * cbn [prepend snd]. apply decode_loop_past_first; [exact Hdoc | lia].
    + apply Hdoc in Hthrown as [m'' [? | ?]]; discriminate.
Qed.

Lemma decode_loop_failures_witness :
  thrown (decode (ljpeg malformed_strip) [100] 100 10 0 0 RawImage_create) =
    Some (RawDecoderException "malformed") /\
  decode_loop malformed_strip [100] 0 [slice_100] 0 RawImage_create =
    ([Call_decode [100] 100 10 0 0], Throw (RawDecoderException "malformed")) /\
  thrown (decode (ljpeg truncated_strip) [100] 100 10 0 0 RawImage_create) =
    Some (IOException "truncated") /\
  decode_loop truncated_strip [100] 0 [slice_100] 0 RawImage_create =
    prepend (Call_decode [100] 100 10 0 0)
      (decode_loop truncated_strip [100] 1 [] (wrap_u32 (0 + 100))
         (setError "truncated"
            (after_decode (ljpeg truncated_strip) [100] slice_100 0 RawImage_create))).
Proof.
  split; [reflexivity |]. split.
  - destruct (decode_loop_failures malformed_strip [100] 0 slice_100 [] 0
                RawImage_create "malformed") as (Hfatal & _).
    apply Hfatal; reflexivity.
  - split; [reflexivity |].
    destruct (decode_loop_failures truncated_strip [100] 0 slice_100 [] 0
                RawImage_create "truncated") as (_ & _ & Hlogged & _).
    apply Hlogged; reflexivity.
Defined.

(** C4, as the claim has it, fails: the only slice ends with an
    [IOException], and the decode returns a raster with the message in
    its error log. *)
Lemma io_failure_on_slice_0_is_logged :
  thrown (decode (ljpeg truncated_strip) [100] 100 10 0 0 RawImage_create) =
    Some (IOException "truncated") /\
  exists img,
    snd (decodeNewFormat truncated_strip) = Ok img /\
    errors img = ["truncated"].
Proof.
  split; [reflexivity |]. eexists. split; vm_compute; reflexivity.
Qed.

(** C2, evaluated on a directory with strips at (100, 10) and (200, 20):
    both frames are interrogated, and both slices decoded, at (100, 10). *)
Theorem two_strips_calls :
  getEntry two_strips_raw STRIPOFFSETS = Ok (mkTiffEntry TIFF_LONG [100; 200]) /\
  getEntry two_strips_raw STRIPBYTECOUNTS = Ok (mkTiffEntry TIFF_LONG [10; 20]) /\
  fst (decodeNewFormat two_strips) =
    [Call_getSOF 100 10; Call_getSOF 100 10;
     Call_decode [100] 100 10 0 0; Call_decode [100] 100 10 0 100].
Proof. repeat split; vm_compute; reflexivity. Qed.

(** ** The slice loop *)

Lemma wrap_s32_idem (a : Z) : wrap_s32 (wrap_s32 a) = wrap_s32 a.
Proof.
  pose proof (wrap_s32_add_l a 0) as H. rewrite !Z.add_0_r in H. exact H.
Qed.

Section SliceLoop.
Context (this : Cr2Decoder) (offsets counts : TiffEntry).

Lemma slice_body_Ok_inv (s : nat) (slices slices' : list Cr2Slice)
  (completeH completeH' : Z) (t : list LJpegCall) :
slice_body this offsets counts s (slices, completeH) = (t, Ok (slices', completeH')) ->
exists sl,
  interrogated this sl /\
  t = getSOF_calls [sl] /\
  slices' = slices ++ retained this [sl] /\
  completeH' = wrap_s32 (completeH + Cr2Slice.h sl) /\
  (forall slice0, head slices = Some slice0 -> Cr2Slice.w sl = Cr2Slice.w slice0).
Proof.
unfold slice_body. intros H.
apply M_bind_lift_Ok_inv in H as (offset & Hoff & H).
apply M_bind_lift_Ok_inv in H as (size & Hsize & H).
rewrite M_bind_call in H.
destruct (getSOF (ljpeg this) offset size) as [sof |] eqn:Hsof; [| discriminate].
exists (slice_of_sof sof offset size).
assert (Hint : interrogated this (slice_of_sof sof offset size)).
{ exists sof. split; [exact Hsof | reflexivity]. }
unfold retained, getSOF_calls. cbn [List.filter map].
change (Cr2Slice.offset (slice_of_sof sof offset size)) with offset in *.
change (Cr2Slice.size (slice_of_sof sof offset size)) with size in *.
destruct slices as [| slice0 rest].
- cbn in H. injection H as <- <- <-.
  repeat split; try assumption; try reflexivity.
  intros slice0 [=].
- destruct (Z.eqb_spec (Cr2Slice.w slice0) (Cr2Slice.w (slice_of_sof sof offset size)))
    as [Hw | Hw]; cbn in H; [| discriminate].
  injection H as <- <- <-.
  repeat split; try assumption; try reflexivity.
  + cbn [app]. destruct (isValid _ _ _);
      [reflexivity | rewrite app_nil_r; reflexivity].
  + intros ? [= <-]. symmetry. exact Hw.
Qed.

Lemma same_width_snoc (slices : list Cr2Slice) (sl : Cr2Slice) :
same_width slices ->
(forall slice0, head slices = Some slice0 -> Cr2Slice.w sl = Cr2Slice.w slice0) ->
same_width (slices ++ [sl]).
Proof.
destruct slices as [| slice0 rest]; cbn; intros Hsame Hsl.
- constructor.
- apply Forall_app. split; [exact Hsame |].
  constructor; [apply Hsl; reflexivity | constructor].
Qed.

(** What the loop has when it returns: the slices it was given and then
  the interrogated ones that lie in the file, all as wide as the
  first; and the heights of all interrogated ones, added up. *)
Lemma slice_loop_Ok_inv (n : nat) :
forall (s : nat) (slices slices' : list Cr2Slice) (completeH completeH' : Z)
       (t : list LJpegCall),
  slice_loop this offsets counts n s (slices, completeH) =
    (t, Ok (slices', completeH')) ->
  wrap_s32 completeH = completeH ->
  same_width slices ->
  exists all,
    length all = n /\
    Forall (interrogated this) all /\
    t = getSOF_calls all /\
    slices' = slices ++ retained this all /\
    completeH' = wrap_s32 (completeH + sum_Z (map Cr2Slice.h all)) /\
    same_width slices'.
Proof.
induction n as [| n IH]; intros s slices slices' completeH completeH' t Hrun HH Hsame.
- cbn in Hrun. injection Hrun as <- <- <-. exists [].
  cbn. rewrite app_nil_r, Z.add_0_r, HH. repeat split; try assumption; constructor.
- cbn [slice_loop] in Hrun.
  apply M_bind_Ok_inv in Hrun as (t1 & [slices1 H1] & t2 & Hbody & Hrest & ->).
  apply slice_body_Ok_inv in Hbody as (sl & Hint & -> & -> & -> & Hw).
  apply IH in Hrest as (all & Hlen & Hall & -> & -> & -> & Hsame');
    [| apply wrap_s32_idem |].
  + exists (sl :: all). cbn [length map sum_Z foldr].
    repeat split.
    * lia.
    * constructor; assumption.
    * unfold retained. cbn [List.filter].
      unfold retained in Hsame'. cbn [List.filter] in Hsame'.
      destruct (isValid _ _ _); rewrite <- ?app_assoc; reflexivity.
    * rewrite wrap_s32_add_l. f_equal. unfold sum_Z. lia.
    * unfold retained in *. cbn [List.filter] in *.
      destruct (isValid _ _ _); rewrite <- ?app_assoc in *; assumption.
  + unfold retained. cbn [List.filter].
    destruct (isValid _ _ _); [| rewrite app_nil_r; exact Hsame].
    apply same_width_snoc; assumption.
Qed.
End SliceLoop.

(** ** New format: dimensions *)

Section KeepsDim.
Context (this : Cr2Decoder) (k : SrawCoeffs) (w h start_h end_h : Z)
(mRaw r : RawImage).

Lemma interpolate_422_dim :
interpolate_422 this k w h start_h end_h mRaw = Ok r -> dim r = dim mRaw.
Proof. intros H. bind_inv H. injection H as <-. reflexivity. Qed.

Lemma interpolate_422_old_dim :
interpolate_422_old this k w h start_h end_h mRaw = Ok r -> dim r = dim mRaw.
Proof. intros H. bind_inv H. injection H as <-. reflexivity. Qed.

Lemma interpolate_422_new_dim :
interpolate_422_new this k w h start_h end_h mRaw = Ok r -> dim r = dim mRaw.
Proof. intros H. bind_inv H. injection H as <-. reflexivity. Qed.

Lemma interpolate_420_dim :
interpolate_420 this k w h start_h end_h mRaw = Ok r -> dim r = dim mRaw.
Proof. intros H. bind_inv H. injection H as <-. reflexivity. Qed.

Lemma interpolate_420_new_dim :
interpolate_420_new this k w h start_h end_h mRaw = Ok r -> dim r = dim mRaw.
Proof. intros H. bind_inv H. injection H as <-. reflexivity. Qed.
End KeepsDim.

Lemma sRawInterpolate_dim (this : Cr2Decoder) (mRaw r : RawImage) :
  sRawInterpolate this mRaw = Ok r -> dim r = dim mRaw.
Proof.
  unfold sRawInterpolate.
  destruct (getIFDsWithTag _ _) as [| data0 ?]; [discriminate |].
  intros H. bind_inv H. bind_inv H.
  repeat match type of H with
         | (if ?b then _ else _) = _ => destruct b
         end;
    try discriminate;
    match type of H with
    | interpolate_422 _ _ _ _ _ _ _ = _ => exact (interpolate_422_dim _ _ _ _ _ _ _ _ H)
    | interpolate_422_old _ _ _ _ _ _ _ = _ =>
        exact (interpolate_422_old_dim _ _ _ _ _ _ _ _ H)
    | interpolate_422_new _ _ _ _ _ _ _ = _ =>
        exact (interpolate_422_new_dim _ _ _ _ _ _ _ _ H)
    | interpolate_420 _ _ _ _ _ _ _ = _ => exact (interpolate_420_dim _ _ _ _ _ _ _ _ H)
    | interpolate_420_new _ _ _ _ _ _ _ = _ =>
        exact (interpolate_420_new_dim _ _ _ _ _ _ _ _ H)
    end.
Qed.

Lemma sraw_geometry_Bayer (raw : TiffIFD) (mRaw : RawImage) :
  hasEntry raw 0xc6c5 = false -> sraw_geometry raw mRaw = Ok mRaw.
Proof. unfold sraw_geometry. intros ->. reflexivity. Qed.

Lemma decode_calls_app (l1 l2 : list LJpegCall) :
  decode_calls (l1 ++ l2) = decode_calls l1 ++ decode_calls l2.
Proof. unfold decode_calls. apply List.filter_app. Qed.

Lemma decode_calls_getSOF (all : list Cr2Slice) : decode_calls (getSOF_calls all) = [].
Proof. induction all as [| sl all IH]; [reflexivity | exact IH]. Qed.

Lemma decode_loop_all_decodes (this : Cr2Decoder) (s_width : list Z)
    (slices : list Cr2Slice) :
  forall (i0 : nat) (offY : Z) (mRaw : RawImage),
    decode_calls (fst (decode_loop this s_width i0 slices offY mRaw)) =
      fst (decode_loop this s_width i0 slices offY mRaw).
Proof.
  induction slices as [| slice rest IH]; intros i0 offY mRaw; [reflexivity |].
  destruct (decode_loop_trace_cons this s_width i0 slice rest offY mRaw)
    as (t & -> & [-> | [r ->]]); [reflexivity |].
  unfold decode_calls in *. cbn [List.filter is_decode_call]. f_equal. apply IH.
Qed.

(** What a successful [decodeNewFormat] went through. *)
Lemma decodeNewFormat_Ok_inv (this : Cr2Decoder) (calls : list LJpegCall)
    (img : RawImage) :
  decodeNewFormat this = (calls, Ok img) ->
  exists (raw : TiffIFD) (offsets counts : TiffEntry) (all : list Cr2Slice)
         (slice0 : Cr2Slice) (rest : list Cr2Slice) (fixed : RawImage)
         (s_width : list Z) (decodes : list LJpegCall) (decoded : RawImage),
    getSubIFDs (mRootIFD this) !! 3%nat = Some raw /\
    getEntry raw STRIPOFFSETS = Ok offsets /\
    getEntry raw STRIPBYTECOUNTS = Ok counts /\
    slice_loop this offsets counts (Z.to_nat (count offsets)) 0 ([], 0) =
      (getSOF_calls all, Ok (slice0 :: rest, wrap_s32 (sum_Z (map Cr2Slice.h all)))) /\
    length all = Z.to_nat (count offsets) /\
    Forall (interrogated this) all /\
    retained this all = slice0 :: rest /\
    sraw_geometry raw
      (set_dim (provisional_dim slice0 all) (set_isCFA true RawImage_create)) = Ok fixed /\
    slice_widths raw slice0 = Ok s_width /\
    decode_loop this s_width 0 (slice0 :: rest) 0 (createData fixed) =
      (decodes, Ok decoded) /\
    calls = getSOF_calls all ++ decodes /\
    (if (1 <? iPoint2D.x (subsampling decoded)) || (1 <? iPoint2D.y (subsampling decoded))
     then sRawInterpolate this decoded = Ok img
     else img = decoded).
Proof.
  unfold decodeNewFormat. intros Hrun.
  destruct (getSubIFDs (mRootIFD this) !! 3%nat) as [raw |] eqn:Hraw; [| discriminate].
  apply M_bind_lift_Ok_inv in Hrun as (offsets & Hoffsets & Hrun).
  apply M_bind_lift_Ok_inv in Hrun as (counts & Hcounts & Hrun).
  apply M_bind_Ok_inv in Hrun as (t1 & [slices completeH] & t2 & Hloop & Hrun & ->).
  pose proof Hloop as Hinv.
  apply slice_loop_Ok_inv in Hinv as (all & Hlen & Hall & -> & Hslices & -> & Hsame);
    [| reflexivity | exact I].
  cbn [app] in Hslices. subst slices. rewrite Z.add_0_l in *.
  destruct (retained this all) as [| slice0 rest] eqn:Hret; [discriminate |].
  apply M_bind_lift_Ok_inv in Hrun as (fixed & Hfixed & Hrun).
  apply M_bind_lift_Ok_inv in Hrun as (s_width & Hwidths & Hrun).
  apply M_bind_Ok_inv in Hrun as (t3 & decoded & t4 & Hdecode & Hrun & ->).
  exists raw, offsets, counts, all, slice0, rest, fixed, s_width, t3, decoded.
  repeat (split; [first [assumption | reflexivity] |]).
  destruct ((1 <? iPoint2D.x (subsampling decoded))
            || (1 <? iPoint2D.y (subsampling decoded))).
  - unfold lift in Hrun. injection Hrun as <- Hrun.
    rewrite app_nil_r. split; [reflexivity | exact Hrun].
  - injection Hrun as <- <-. rewrite app_nil_r. split; reflexivity.
Qed.

(** The slices read off the calls of a run are the interrogated ones. *)
Lemma interrogated_slices_calls (this : Cr2Decoder) (all : list Cr2Slice)
    (decodes : list LJpegCall) :
  Forall (interrogated this) all ->
  decode_calls decodes = decodes ->
  interrogated_slices this (getSOF_calls all ++ decodes) = all.
Proof.
  intros Hall Hdec. unfold interrogated_slices. rewrite omap_app.
  assert (Hnone : forall l, decode_calls l = l ->
            omap (fun c =>
                    match c with
                    | Call_getSOF offset size =>
                        match getSOF (ljpeg this) offset size with
                        | Ok sof => Some (slice_of_sof sof offset size)
                        | Throw _ => None
                        end
                    | Call_decode _ _ _ _ _ => None
                    end) l = []).
  { induction l as [| c l IH]; [reflexivity |].
    unfold decode_calls. cbn [List.filter]. destruct c as [o z | sw o z ox oy].
    - cbn [is_decode_call]. intros H.
      pose proof (List.filter_length_le is_decode_call l) as Hle.
      apply (f_equal (@length _)) in H. cbn [length] in H. lia.
    - cbn [is_decode_call]. intros [= H]. cbn [omap list_omap]. apply IH, H. }
  rewrite (Hnone _ Hdec), app_nil_r.
  induction Hall as [| sl all (sof & Hsof & Hsl) Hall IH]; [reflexivity |].
  cbn [getSOF_calls map omap list_omap]. rewrite Hsof.
  fold (getSOF_calls all). rewrite <- Hsl. f_equal. exact IH.
Qed.

(** C1, as the code has it: for every successful new-format decode, the
    dimensions of the raster are what the sRaw geometry fixes make of a
    provisional width, the width of the first retained slice, which all
    retained slices share, and a provisional height, the sum of the
    heights of all interrogated slices; without an entry 0xc6c5 there is
    no fix, and these are the dimensions of the raster.  The interrogated
    slices are those of the run: one for each strip of STRIPOFFSETS, read
    off the [getSOF] calls, which come first among the calls of the run
    and are followed by [decode] calls only. *)
Theorem decodeNewFormat_dim (this : Cr2Decoder) (calls : list LJpegCall)
    (img : RawImage) :
  decodeNewFormat this = (calls, Ok img) ->
  let all := interrogated_slices this calls in
  exists (raw : TiffIFD) (offsets : TiffEntry) (slice0 : Cr2Slice)
         (rest : list Cr2Slice) (fixed : RawImage),
    getSubIFDs (mRootIFD this) !! 3%nat = Some raw /\
    getEntry raw STRIPOFFSETS = Ok offsets /\
    length all = Z.to_nat (count offsets) /\
    Forall (interrogated this) all /\
    calls = getSOF_calls all ++ decode_calls calls /\
    retained this all = slice0 :: rest /\
    Forall (fun sl => Cr2Slice.w sl = Cr2Slice.w slice0) rest /\
    sraw_geometry raw
      (set_dim (provisional_dim slice0 all) (set_isCFA true RawImage_create)) = Ok fixed /\
    dim img = dim fixed /\
    (hasEntry raw 0xc6c5 = false -> dim img = provisional_dim slice0 all).
Proof.
  intros Hrun all.
  apply decodeNewFormat_Ok_inv in Hrun
    as (raw & offsets & counts & all' & slice0 & rest & fixed & s_width & decodes
        & decoded & Hraw & Hoffsets & _ & Hloop & Hlen & Hall & Hret & Hfixed & _
        & Hdecode & Hcalls & Hlast).
  assert (Hdec : decode_calls decodes = decodes).
  { pose proof (decode_loop_all_decodes this s_width (slice0 :: rest) 0 0
                  (createData fixed)) as H.
    rewrite Hdecode in H. exact H. }
  assert (Hsl : all = all').
  { subst all calls. apply interrogated_slices_calls; assumption. }
  clearbody all. subst all'.
  apply slice_loop_Ok_inv in Hloop as (_ & _ & _ & _ & _ & _ & Hsame);
    [| reflexivity | exact I].
  apply decode_loop_dim in Hdecode. cbn in Hdecode.
  assert (Himg : dim img = dim fixed).
  { destruct ((1 <? iPoint2D.x (subsampling decoded))
              || (1 <? iPoint2D.y (subsampling decoded))).
    - apply sRawInterpolate_dim in Hlast. congruence.
    - subst img. exact Hdecode. }
  exists raw, offsets, slice0, rest, fixed.
  repeat (split; [assumption |]).
  split.
  { rewrite Hcalls at 1. rewrite Hcalls, decode_calls_app, decode_calls_getSOF, Hdec.
    reflexivity. }
  repeat (split; [assumption |]).
  intros Hno. rewrite (sraw_geometry_Bayer _ _ Hno) in Hfixed.
  injection Hfixed as <-. exact Himg.
Qed.

Lemma decodeNewFormat_dim_witness :
  decodeNewFormat two_strips = (fst (decodeNewFormat two_strips), Ok two_strips_raster) /\
  hasEntry two_strips_raw 0xc6c5 = false /\
  interrogated_slices two_strips (fst (decodeNewFormat two_strips)) =
    [slice_100; slice_100] /\
  dim two_strips_raster = provisional_dim slice_100 [slice_100; slice_100].
Proof.
  assert (Hrun : decodeNewFormat two_strips =
                   (fst (decodeNewFormat two_strips), Ok two_strips_raster))
    by (vm_compute; reflexivity).
  split; [exact Hrun |]. split; [reflexivity |].
  assert (Hsl : interrogated_slices two_strips (fst (decodeNewFormat two_strips)) =
                  [slice_100; slice_100]) by (vm_compute; reflexivity).
  split; [exact Hsl |].
  destruct (decodeNewFormat_dim two_strips _ _ Hrun)
    as (raw & offsets & slice0 & rest & fixed & Hraw & _ & _ & _ & _ & Hret & _ & _ & _
        & Hbayer).
  injection Hraw as <-. rewrite Hsl in Hret, Hbayer.
  injection Hret as <- _. apply Hbayer. reflexivity.
Defined.

(** C1, as the claim has it, fails: two slices, each 100 wide and 50
    high, give a raster 100 wide and 100 high; the widths add up to 200
    and the tallest slice is 50 high. *)
Lemma two_strips_raster_is_100_by_100 :
  snd (slice_loop two_strips (mkTiffEntry TIFF_LONG [100; 200])
         (mkTiffEntry TIFF_LONG [10; 20]) 2 0 ([], 0)) =
    Ok ([slice_100; slice_100], 100) /\
  exists img,
    snd (decodeNewFormat two_strips) = Ok img /\
    dim img = iPoint2D.mk 100 100 /\
    iPoint2D.x (dim img) <> sum_Z (map Cr2Slice.w [slice_100; slice_100]) /\
    iPoint2D.y (dim img) <> max_Z (map Cr2Slice.h [slice_100; slice_100]).
Proof.
  split; [vm_compute; reflexivity |].
  exists two_strips_raster.
  split; [vm_compute; reflexivity |].
  split; [reflexivity |]. split; vm_compute; discriminate.
Qed.

(** ** Interpolation: one line *)

Lemma STORE_RGB_length (X : list Z) (A B C : nat) (rgb : Z * Z * Z) :
  length (STORE_RGB X A B C rgb) = length X.
Proof. destruct rgb as [[r g] b]. unfold STORE_RGB. rewrite !length_insert. reflexivity. Qed.

Lemma STORE_RGB_other (X : list Z) (A B C : nat) (rgb : Z * Z * Z) (j : nat) :
  j <> A -> j <> B -> j <> C -> STORE_RGB X A B C rgb !!! j = X !!! j.
Proof.
  intros HA HB HC. destruct rgb as [[r g] b]. unfold STORE_RGB.
  rewrite !list_lookup_total_insert_ne by congruence. reflexivity.
Qed.

Lemma STORE_RGB_px (X : list Z) (A B C : nat) (rgb : Z * Z * Z) :
  B = (A + 1)%nat -> C = (A + 2)%nat -> (A + 2 < length X)%nat ->
  px (STORE_RGB X A B C rgb) A = clamp_rgb rgb.
Proof.
  intros -> -> Hlen. destruct rgb as [[r g] b]. unfold px, STORE_RGB, clamp_rgb.
  f_equal; [f_equal |].
  - rewrite !list_lookup_total_insert_ne by lia.
    apply list_lookup_total_insert_eq. lia.
  - rewrite list_lookup_total_insert_ne by lia.
    apply list_lookup_total_insert_eq. rewrite length_insert. lia.
  - apply list_lookup_total_insert_eq. rewrite !length_insert. lia.
Qed.

(** pixels away from the three samples written are kept *)
Lemma STORE_RGB_px_other (X : list Z) (A B C : nat) (rgb : Z * Z * Z) (j : nat) :
  B = (A + 1)%nat -> C = (A + 2)%nat -> (j + 3 <= A \/ A + 3 <= j)%nat ->
  px (STORE_RGB X A B C rgb) j = px X j.
Proof.
  intros -> -> Hj. unfold px.
  rewrite !STORE_RGB_other by lia. reflexivity.
Qed.

Lemma px_ext (l1 l2 : list Z) (j : nat) :
  (forall i, (j <= i < j + 3)%nat -> l1 !!! i = l2 !!! i) -> px l1 j = px l2 j.
Proof. intros H. unfold px. rewrite !H by lia. reflexivity. Qed.

Section Line422.
Context (yuv : Z -> Z -> Z -> Z * Z * Z) (hue hue_last : Z).

(** one turn of the [x] loop, on the line [c0] at [off] *)
Lemma body_422_step (c0 : list Z) (off : nat) :
(off + 5 < length c0)%nat ->
let st := body_422 yuv hue (c0, off) in
let '(Cb, Cr) := chroma_at hue c0 off in
let '(Cbn, Crn) := chroma_at hue c0 (off + 6) in
snd st = (off + 6)%nat /\
length (fst st) = length c0 /\
(forall j, (j < off \/ off + 6 <= j)%nat -> fst st !!! j = c0 !!! j) /\
px (fst st) off = clamp_rgb (yuv (c0 !!! off) Cb Cr) /\
px (fst st) (off + 3) =
  clamp_rgb (yuv (c0 !!! (off + 3)%nat)
               (Z.shiftr (Cb + Cbn) 1) (Z.shiftr (Cr + Crn) 1)).
Proof.
intros Hlen. unfold body_422, chroma_at. cbv zeta. cbn [fst snd].
set (Cb := c0 !!! (off + 1)%nat - hue).
set (Cr := c0 !!! (off + 2)%nat - hue).
set (c1 := STORE_RGB c0 off (off + 1) (off + 2) (yuv (c0 !!! off) Cb Cr)).
assert (Hl1 : length c1 = length c0) by apply STORE_RGB_length.
assert (Hk1 : forall j, (j < off \/ off + 3 <= j)%nat -> c1 !!! j = c0 !!! j).
{ intros j Hj. subst c1. apply STORE_RGB_other; lia. }
split; [lia |]. split; [rewrite STORE_RGB_length; exact Hl1 |]. split; [| split].
- intros j Hj. rewrite STORE_RGB_other by lia. apply Hk1. lia.
- rewrite STORE_RGB_px_other by lia. subst c1. apply STORE_RGB_px; lia.
- rewrite STORE_RGB_px by lia. rewrite !Hk1 by lia.
  replace (off + 3 + 1 + 3)%nat with (off + 6 + 1)%nat by lia.
  replace (off + 3 + 2 + 3)%nat with (off + 6 + 2)%nat by lia.
  do 2 f_equal; f_equal; lia.
Qed.

(** the last two pixels of a line *)
Lemma last_422_step (c0 : list Z) (off : nat) :
(off + 5 < length c0)%nat ->
let out := last_422 yuv hue_last (c0, off) in
let '(Cb, Cr) := chroma_at hue_last c0 off in
length out = length c0 /\
(forall j, (j < off \/ off + 6 <= j)%nat -> out !!! j = c0 !!! j) /\
px out off = clamp_rgb (yuv (c0 !!! off) Cb Cr) /\
px out (off + 3) = clamp_rgb (yuv (c0 !!! (off + 3)%nat) Cb Cr).
Proof.
intros Hlen. unfold last_422, chroma_at. cbv zeta.
set (Cb := c0 !!! (off + 1)%nat - hue_last).
set (Cr := c0 !!! (off + 2)%nat - hue_last).
set (c1 := STORE_RGB c0 off (off + 1) (off + 2) (yuv (c0 !!! off) Cb Cr)).
assert (Hl1 : length c1 = length c0) by apply STORE_RGB_length.
assert (Hk1 : forall j, (j < off \/ off + 3 <= j)%nat -> c1 !!! j = c0 !!! j).
{ intros j Hj. subst c1. apply STORE_RGB_other; lia. }
split; [rewrite STORE_RGB_length; exact Hl1 |]. split; [| split].
- intros j Hj. rewrite STORE_RGB_other by lia. apply Hk1. lia.
- rewrite STORE_RGB_px_other by lia. subst c1. apply STORE_RGB_px; lia.
- rewrite STORE_RGB_px by lia. rewrite !Hk1 by lia. reflexivity.
Qed.

Context (c : list Z).

(** after [n] turns of the [x] loop *)
Lemma body_422_iter (n : nat) :
(6 * n <= length c)%nat ->
let st := Nat.iter n (body_422 yuv hue) (c, 0%nat) in
snd st = (6 * n)%nat /\
length (fst st) = length c /\
(forall j, (6 * n <= j)%nat -> fst st !!! j = c !!! j) /\
(forall k, (k < n)%nat -> pair_422 yuv hue c (fst st) k).
Proof.
induction n as [| n IH]; intros Hlen; cbv zeta.
- cbn. split; [reflexivity |]. split; [reflexivity |].
  split; [reflexivity |]. intros k Hk. lia.
- rewrite Nat.iter_succ.
  destruct IH as (Hoff & Hl & Hkeep & Hdone); [lia |].
  destruct (Nat.iter n (body_422 yuv hue) (c, 0%nat)) as [c0 off].
  cbn [fst snd] in *. subst off.
  pose proof (body_422_step c0 (6 * n)) as Hstep. cbv zeta in Hstep.
  unfold chroma_at in Hstep.
  destruct Hstep as (Hoff' & Hl' & Hkeep' & Hp1 & Hp2); [lia |].
  split; [lia |]. split; [congruence |]. split.
  + intros j Hj. rewrite Hkeep' by lia. apply Hkeep. lia.
  + intros k Hk. unfold pair_422, chroma_at. cbv zeta.
    destruct (Nat.eq_dec k n) as [-> | Hne].
    * rewrite Hp1, Hp2. rewrite !Hkeep by lia. split; reflexivity.
    * specialize (Hdone k ltac:(lia)). unfold pair_422, chroma_at in Hdone.
      cbv zeta in Hdone. destruct Hdone as [Hd1 Hd2].
      rewrite <- Hd1, <- Hd2.
      split; apply px_ext; intros i Hi; apply Hkeep'; lia.
Qed.

(** C6 for one line: what [line_422] leaves, in terms of the samples it
  found. *)
Lemma line_422_pairs (n : nat) :
(6 * n + 6 <= length c)%nat ->
let out := line_422 yuv hue hue_last (Z.of_nat n) c in
length out = length c /\
(forall k, (k < n)%nat -> pair_422 yuv hue c out k) /\
pair_422_last yuv hue_last c out n.
Proof.
intros Hlen. cbv zeta. unfold line_422. rewrite Nat2Z.id.
destruct (body_422_iter n) as (Hoff & Hl & Hkeep & Hdone); [lia |].
destruct (Nat.iter n (body_422 yuv hue) (c, 0%nat)) as [c0 off].
cbn [fst snd] in *. subst off.
pose proof (last_422_step c0 (6 * n)) as Hlast. cbv zeta in Hlast.
unfold chroma_at in Hlast.
destruct Hlast as (Hl' & Hkeep' & Hp1 & Hp2); [lia |].
split; [congruence |]. split.
- intros k Hk. specialize (Hdone k Hk). unfold pair_422, chroma_at in *.
  cbv zeta in *. destruct Hdone as [Hd1 Hd2].
  rewrite <- Hd1, <- Hd2.
  split; apply px_ext; intros i Hi; apply Hkeep'; lia.
- unfold pair_422_last, chroma_at. cbv zeta.
  rewrite Hp1, Hp2. rewrite !Hkeep by lia. split; reflexivity.
Qed.
End Line422.

(** ** Interpolation: one line pair *)

Section Pair420.
Context (yuv : Z -> Z -> Z -> Z * Z * Z) (hue : Z) (nn : list Z).

(** one turn of the [x] loop, on the lines [c0] and [n0] at [off] *)
Lemma body_420_step (c0 n0 : list Z) (off k : nat) :
off = (6 * k)%nat ->
(off + 5 < length c0)%nat ->
(off + 5 < length n0)%nat ->
let st := body_420 yuv hue nn (c0, n0, off) in
snd st = (off + 6)%nat /\
length (fst (fst st)) = length c0 /\
length (snd (fst st)) = length n0 /\
(forall j, (j < off \/ off + 6 <= j)%nat -> fst (fst st) !!! j = c0 !!! j) /\
(forall j, (j < off \/ off + 6 <= j)%nat -> snd (fst st) !!! j = n0 !!! j) /\
block_420 yuv hue c0 n0 nn (fst (fst st)) (snd (fst st)) k.
Proof.
intros -> Hc Hn. unfold body_420, block_420, chroma_at. cbv zeta. cbn [fst snd].
set (off := (6 * k)%nat) in *.
set (Cb := c0 !!! (off + 1)%nat - hue).
set (Cr := c0 !!! (off + 2)%nat - hue).
set (c1 := STORE_RGB c0 off (off + 1) (off + 2) (yuv (c0 !!! off) Cb Cr)).
assert (Hlc1 : length c1 = length c0) by apply STORE_RGB_length.
assert (Hkc1 : forall j, (j < off \/ off + 3 <= j)%nat -> c1 !!! j = c0 !!! j).
{ intros j Hj. subst c1. apply STORE_RGB_other; lia. }
rewrite !Hkc1 by lia.
replace (off + 1 + 6)%nat with (off + 6 + 1)%nat by lia.
replace (off + 2 + 6)%nat with (off + 6 + 2)%nat by lia.
set (Cb2 := Z.shiftr (Cb + c0 !!! (off + 6 + 1)%nat - hue) 1).
set (Cr2 := Z.shiftr (Cr + c0 !!! (off + 6 + 2)%nat - hue) 1).
set (Cb3 := Z.shiftr (Cb + nn !!! (off + 1)%nat - hue) 1).
set (Cr3 := Z.shiftr (Cr + nn !!! (off + 2)%nat - hue) 1).
set (n1 := STORE_RGB n0 off (off + 1) (off + 2) (yuv (n0 !!! off) Cb3 Cr3)).
assert (Hln1 : length n1 = length n0) by apply STORE_RGB_length.
assert (Hkn1 : forall j, (j < off \/ off + 3 <= j)%nat -> n1 !!! j = n0 !!! j).
{ intros j Hj. subst n1. apply STORE_RGB_other; lia. }
rewrite !Hkn1 by lia.
split; [reflexivity |].
split; [rewrite STORE_RGB_length; exact Hlc1 |].
split; [rewrite STORE_RGB_length; exact Hln1 |].
split; [intros j Hj; rewrite STORE_RGB_other by lia; apply Hkc1; lia |].
split; [intros j Hj; rewrite STORE_RGB_other by lia; apply Hkn1; lia |].
split; [| split; [| split]].
- rewrite STORE_RGB_px_other by lia. subst c1. apply STORE_RGB_px; lia.
- rewrite STORE_RGB_px by lia.
  subst Cb2 Cr2. do 2 f_equal; f_equal; lia.
- rewrite STORE_RGB_px_other by lia. subst n1. rewrite STORE_RGB_px by lia.
  subst Cb3 Cr3. do 2 f_equal; f_equal; lia.
- rewrite STORE_RGB_px by lia.
  assert (E2 : Cb2 = Z.shiftr (Cb + (c0 !!! (off + 6 + 1)%nat - hue)) 1)
    by (subst Cb2; f_equal; lia).
  assert (F2 : Cr2 = Z.shiftr (Cr + (c0 !!! (off + 6 + 2)%nat - hue)) 1)
    by (subst Cr2; f_equal; lia).
  assert (E3 : Cb3 = Z.shiftr (Cb + (nn !!! (off + 1)%nat - hue)) 1)
    by (subst Cb3; f_equal; lia).
  assert (F3 : Cr3 = Z.shiftr (Cr + (nn !!! (off + 2)%nat - hue)) 1)
    by (subst Cr3; f_equal; lia).
  rewrite <- E2, <- F2, <- E3, <- F3.
  do 2 f_equal; f_equal; lia.
Qed.

(** the last block of the line pair *)
Lemma last_420_step (c0 n0 : list Z) (off k : nat) :
off = (6 * k)%nat ->
(off + 5 < length c0)%nat ->
(off + 5 < length n0)%nat ->
let out := last_420 yuv hue nn (c0, n0, off) in
length (fst out) = length c0 /\
length (snd out) = length n0 /\
(forall j, (j < off \/ off + 6 <= j)%nat -> fst out !!! j = c0 !!! j) /\
(forall j, (j < off \/ off + 6 <= j)%nat -> snd out !!! j = n0 !!! j) /\
block_420_last yuv hue c0 n0 nn (fst out) (snd out) k.
Proof.
intros -> Hc Hn. unfold last_420, block_420_last, chroma_at. cbv zeta. cbn [fst snd].
set (off := (6 * k)%nat) in *.
set (Cb := c0 !!! (off + 1)%nat - hue).
set (Cr := c0 !!! (off + 2)%nat - hue).
set (c1 := STORE_RGB c0 off (off + 1) (off + 2) (yuv (c0 !!! off) Cb Cr)).
assert (Hlc1 : length c1 = length c0) by apply STORE_RGB_length.
assert (Hkc1 : forall j, (j < off \/ off + 3 <= j)%nat -> c1 !!! j = c0 !!! j).
{ intros j Hj. subst c1. apply STORE_RGB_other; lia. }
rewrite !Hkc1 by lia.
set (Cb3 := Z.shiftr (Cb + nn !!! (off + 1)%nat - hue) 1).
set (Cr3 := Z.shiftr (Cr + nn !!! (off + 2)%nat - hue) 1).
set (n1 := STORE_RGB n0 off (off + 1) (off + 2) (yuv (n0 !!! off) Cb3 Cr3)).
assert (Hln1 : length n1 = length n0) by apply STORE_RGB_length.
assert (Hkn1 : forall j, (j < off \/ off + 3 <= j)%nat -> n1 !!! j = n0 !!! j).
{ intros j Hj. subst n1. apply STORE_RGB_other; lia. }
rewrite !Hkn1 by lia.
split; [rewrite STORE_RGB_length; exact Hlc1 |].
split; [rewrite STORE_RGB_length; exact Hln1 |].
split; [intros j Hj; rewrite STORE_RGB_other by lia; apply Hkc1; lia |].
split; [intros j Hj; rewrite STORE_RGB_other by lia; apply Hkn1; lia |].
assert (E3 : Cb3 = Z.shiftr (Cb + (nn !!! (off + 1)%nat - hue)) 1)
  by (subst Cb3; f_equal; lia).
assert (F3 : Cr3 = Z.shiftr (Cr + (nn !!! (off + 2)%nat - hue)) 1)
  by (subst Cr3; f_equal; lia).
rewrite <- E3, <- F3.
split; [| split; [| split]].
- rewrite STORE_RGB_px_other by lia. subst c1. apply STORE_RGB_px; lia.
- apply STORE_RGB_px; lia.
- rewrite STORE_RGB_px_other by lia. subst n1. apply STORE_RGB_px; lia.
- apply STORE_RGB_px; lia.
Qed.
End Pair420.

Section Pair420Loop.
Context (yuv : Z -> Z -> Z -> Z * Z * Z) (hue : Z) (c n nn : list Z).

(** after [m] turns of the [x] loop of a line pair *)
Lemma body_420_iter (m : nat) :
(6 * m <= length c)%nat ->
(6 * m <= length n)%nat ->
let st := Nat.iter m (body_420 yuv hue nn) (c, n, 0%nat) in
snd st = (6 * m)%nat /\
length (fst (fst st)) = length c /\
length (snd (fst st)) = length n /\
(forall j, (6 * m <= j)%nat -> fst (fst st) !!! j = c !!! j) /\
(forall j, (6 * m <= j)%nat -> snd (fst st) !!! j = n !!! j) /\
(forall k, (k < m)%nat -> block_420 yuv hue c n nn (fst (fst st)) (snd (fst st)) k).
Proof.
induction m as [| m IH]; intros Hc Hn; cbv zeta.
- cbn. repeat (split; [reflexivity |]). intros k Hk. lia.
- rewrite Nat.iter_succ.
  destruct IH as (Hoff & Hlc & Hln & Hkc & Hkn & Hdone); [lia | lia |].
  destruct (Nat.iter m (body_420 yuv hue nn) (c, n, 0%nat)) as [[c0 n0] off].
  cbn [fst snd] in *. subst off.
  pose proof (body_420_step yuv hue nn c0 n0 (6 * m) m eq_refl) as Hstep.
  cbv zeta in Hstep.
  destruct Hstep as (Hoff' & Hlc' & Hln' & Hkc' & Hkn' & Hblock); [lia | lia |].
  split; [lia |]. split; [congruence |]. split; [congruence |].
  split; [intros j Hj; rewrite Hkc' by lia; apply Hkc; lia |].
  split; [intros j Hj; rewrite Hkn' by lia; apply Hkn; lia |].
  intros k Hk. destruct (Nat.eq_dec k m) as [-> | Hne].
  + unfold block_420, chroma_at in *. cbv zeta in *.
    rewrite !Hkc, !Hkn in Hblock by lia. exact Hblock.
  + specialize (Hdone k ltac:(lia)). unfold block_420, chroma_at in *.
    cbv zeta in *. destruct Hdone as (D1 & D2 & D3 & D4).
    rewrite <- D1, <- D2, <- D3, <- D4.
    repeat split; apply px_ext; intros i Hi;
      first [apply Hkc'; lia | apply Hkn'; lia].
Qed.

(** C6 for one line pair of the main loop. *)
Lemma pair_420_blocks (m : nat) :
(6 * m + 6 <= length c)%nat ->
(6 * m + 6 <= length n)%nat ->
let out := pair_420 yuv hue (Z.of_nat m) c n nn in
length (fst out) = length c /\
length (snd out) = length n /\
(forall k, (k < m)%nat -> block_420 yuv hue c n nn (fst out) (snd out) k) /\
block_420_last yuv hue c n nn (fst out) (snd out) m.
Proof.
intros Hc Hn. cbv zeta. unfold pair_420. rewrite Nat2Z.id.
destruct (body_420_iter m) as (Hoff & Hlc & Hln & Hkc & Hkn & Hdone); [lia | lia |].
destruct (Nat.iter m (body_420 yuv hue nn) (c, n, 0%nat)) as [[c0 n0] off].
cbn [fst snd] in *. subst off.
pose proof (last_420_step yuv hue nn c0 n0 (6 * m) m eq_refl) as Hlast.
cbv zeta in Hlast.
destruct Hlast as (Hlc' & Hln' & Hkc' & Hkn' & Hblock); [lia | lia |].
split; [congruence |]. split; [congruence |]. split.
- intros k Hk. specialize (Hdone k Hk). unfold block_420, chroma_at in *.
  cbv zeta in *. destruct Hdone as (D1 & D2 & D3 & D4).
  rewrite <- D1, <- D2, <- D3, <- D4.
  repeat split; apply px_ext; intros i Hi;
    first [apply Hkc'; lia | apply Hkn'; lia].
- unfold block_420_last, chroma_at in *. cbv zeta in *.
  rewrite !Hkc, !Hkn in Hblock by lia. exact Hblock.
Qed.

(** one turn of the [x] loop of the last line pair *)
Lemma body_420_lastline_step (c0 n0 : list Z) (off k : nat) :
off = (6 * k)%nat ->
(off + 5 < length c0)%nat ->
(off + 5 < length n0)%nat ->
let st := body_420_lastline yuv hue (c0, n0, off) in
snd st = (off + 6)%nat /\
length (fst (fst st)) = length c0 /\
length (snd (fst st)) = length n0 /\
(forall j, (j < off \/ off + 6 <= j)%nat -> fst (fst st) !!! j = c0 !!! j) /\
(forall j, (j < off \/ off + 6 <= j)%nat -> snd (fst st) !!! j = n0 !!! j) /\
block_420_lastline yuv hue c0 n0 (fst (fst st)) (snd (fst st)) k.
Proof.
intros -> Hc Hn. unfold body_420_lastline, block_420_lastline, chroma_at.
cbv zeta. cbn [fst snd].
set (off := (6 * k)%nat) in *.
set (Cb := c0 !!! (off + 1)%nat - hue).
set (Cr := c0 !!! (off + 2)%nat - hue).
set (c1 := STORE_RGB c0 off (off + 1) (off + 2) (yuv (c0 !!! off) Cb Cr)).
assert (Hlc1 : length c1 = length c0) by apply STORE_RGB_length.
assert (Hkc1 : forall j, (j < off \/ off + 3 <= j)%nat -> c1 !!! j = c0 !!! j).
{ intros j Hj. subst c1. apply STORE_RGB_other; lia. }
rewrite !Hkc1 by lia.
set (n1 := STORE_RGB n0 off (off + 1) (off + 2) (yuv (n0 !!! off) Cb Cr)).
assert (Hln1 : length n1 = length n0) by apply STORE_RGB_length.
assert (Hkn1 : forall j, (j < off \/ off + 3 <= j)%nat -> n1 !!! j = n0 !!! j).
{ intros j Hj. subst n1. apply STORE_RGB_other; lia. }
rewrite !Hkn1 by lia.
split; [reflexivity |].
split; [rewrite STORE_RGB_length; exact Hlc1 |].
split; [rewrite STORE_RGB_length; exact Hln1 |].
split; [intros j Hj; rewrite STORE_RGB_other by lia; apply Hkc1; lia |].
split; [intros j Hj; rewrite STORE_RGB_other by lia; apply Hkn1; lia |].
split; [| split; [| split]].
- rewrite STORE_RGB_px_other by lia. subst c1. apply STORE_RGB_px; lia.
- apply STORE_RGB_px; lia.
- rewrite STORE_RGB_px_other by lia. subst n1. apply STORE_RGB_px; lia.
- apply STORE_RGB_px; lia.
Qed.

Lemma body_420_lastline_iter (m : nat) :
(6 * m <= length c)%nat ->
(6 * m <= length n)%nat ->
let st := Nat.iter m (body_420_lastline yuv hue) (c, n, 0%nat) in
snd st = (6 * m)%nat /\
length (fst (fst st)) = length c /\
length (snd (fst st)) = length n /\
(forall j, (6 * m <= j)%nat -> fst (fst st) !!! j = c !!! j) /\
(forall j, (6 * m <= j)%nat -> snd (fst st) !!! j = n !!! j) /\
(forall k, (k < m)%nat ->
   block_420_lastline yuv hue c n (fst (fst st)) (snd (fst st)) k).
Proof.
induction m as [| m IH]; intros Hc Hn; cbv zeta.
- cbn. repeat (split; [reflexivity |]). intros k Hk. lia.
- rewrite Nat.iter_succ.
  destruct IH as (Hoff & Hlc & Hln & Hkc & Hkn & Hdone); [lia | lia |].
  destruct (Nat.iter m (body_420_lastline yuv hue) (c, n, 0%nat)) as [[c0 n0] off].
  cbn [fst snd] in *. subst off.
  pose proof (body_420_lastline_step c0 n0 (6 * m) m eq_refl) as Hstep.
  cbv zeta in Hstep.
  destruct Hstep as (Hoff' & Hlc' & Hln' & Hkc' & Hkn' & Hblock); [lia | lia |].
  split; [lia |]. split; [congruence |]. split; [congruence |].
  split; [intros j Hj; rewrite Hkc' by lia; apply Hkc; lia |].
  split; [intros j Hj; rewrite Hkn' by lia; apply Hkn; lia |].
  intros k Hk. destruct (Nat.eq_dec k m) as [-> | Hne].
  + unfold block_420_lastline, chroma_at in *. cbv zeta in *.
    rewrite !Hkc, !Hkn in Hblock by lia. exact Hblock.
  + specialize (Hdone k ltac:(lia)). unfold block_420_lastline, chroma_at in *.
    cbv zeta in *. destruct Hdone as (D1 & D2 & D3 & D4).
    rewrite <- D1, <- D2, <- D3, <- D4.
    repeat split; apply px_ext; intros i Hi;
      first [apply Hkc'; lia | apply Hkn'; lia].
Qed.

(** C6 for the last line pair. *)
Lemma lastline_420_blocks (m : nat) :
(6 * m <= length c)%nat ->
(6 * m <= length n)%nat ->
let out := lastline_420 yuv hue (Z.of_nat m) c n in
length (fst out) = length c /\
length (snd out) = length n /\
(forall k, (k < m)%nat -> block_420_lastline yuv hue c n (fst out) (snd out) k).
Proof.
intros Hc Hn. cbv zeta. unfold lastline_420. rewrite Nat2Z.id.
destruct (body_420_lastline_iter m) as (Hoff & Hlc & Hln & _ & _ & Hdone);
  [lia | lia |].
destruct (Nat.iter m (body_420_lastline yuv hue) (c, n, 0%nat)) as [[c0 n0] off].
cbn [fst snd] in *. auto.
Qed.
End Pair420Loop.

(** ** Interpolation: the raster *)

Lemma for_loop_alter (f : list Z -> list Z) (n : nat) :
  forall (lo : nat) (img : list (list Z)) (y : nat),
    for_loop n (Z.of_nat lo) (fun y img => alter f (Z.to_nat y) img) img !! y =
      if decide (lo <= y < lo + n)%nat then f <$> img !! y else img !! y.
Proof.
  induction n as [| n IH]; intros lo img y; cbn [for_loop].
  - case_decide; [lia | reflexivity].
  - replace (Z.of_nat lo + 1) with (Z.of_nat (S lo)) by lia.
    rewrite IH, Nat2Z.id.
    destruct (decide (y = lo)) as [-> | Hne].
    + rewrite list_lookup_alter_eq. repeat case_decide; try lia; reflexivity.
    + rewrite list_lookup_alter_ne by congruence.
      repeat case_decide; try lia; reflexivity.
Qed.

Lemma rows_422_row (yuv : Z -> Z -> Z -> Z * Z * Z) (hue hue_last w h : Z)
    (rows : nat) (img : list (list Z)) (y : nat) :
  (y < rows)%nat -> (rows <= length img)%nat ->
  rows_422 yuv hue hue_last w h 0 (Z.of_nat rows) img !!! y =
    line_422 yuv hue hue_last (w - 1) (img !!! y).
Proof.
  intros Hy Hrows. unfold rows_422, for_range. cbv zeta.
  rewrite Z.sub_0_r, Nat2Z.id.
  rewrite !list_lookup_total_alt.
  pose proof (for_loop_alter (line_422 yuv hue hue_last (w - 1)) rows 0 img y) as E.
  change (Z.of_nat 0) with 0 in E. rewrite E. clear E.
  case_decide; [| lia].
  destruct (lookup_lt_is_Some_2 img y ltac:(lia)) as [row ->]. reflexivity.
Qed.

Section Rows420.
Context (yuv : Z -> Z -> Z -> Z * Z * Z) (hue m : Z).

Lemma pair_body_rows (lo : nat) (img : list (list Z)) :
(2 * lo + 2 <= length img)%nat ->
let out := line_pair_420 yuv hue m (Z.of_nat lo) img in
let res :=
  pair_420 yuv hue m (img !!! (2 * lo)%nat) (img !!! (2 * lo + 1)%nat)
    (img !!! (2 * lo + 2)%nat) in
length out = length img /\
out !!! (2 * lo)%nat = fst res /\
out !!! (2 * lo + 1)%nat = snd res /\
(forall r, r <> (2 * lo)%nat -> r <> (2 * lo + 1)%nat -> out !!! r = img !!! r).
Proof.
intros Hlen. unfold line_pair_420. cbv zeta.
replace (Z.to_nat (Z.of_nat lo * 2)) with (2 * lo)%nat by lia.
replace (Z.to_nat (Z.of_nat lo * 2 + 1)) with (2 * lo + 1)%nat by lia.
replace (Z.to_nat (Z.of_nat lo * 2 + 2)) with (2 * lo + 2)%nat by lia.
destruct (pair_420 _ _ _ _ _ _) as [c_line n_line]. cbn [fst snd]. cbv beta iota.
split; [rewrite !length_insert; reflexivity |]. split; [| split].
- rewrite list_lookup_total_insert_ne by lia.
  apply list_lookup_total_insert_eq. lia.
- apply list_lookup_total_insert_eq. rewrite length_insert. lia.
- intros r H1 H2. rewrite !list_lookup_total_insert_ne by congruence. reflexivity.
Qed.

(** the loop over the line pairs [lo], ..., [lo + n - 1] *)
Lemma pair_loop_rows (n : nat) :
forall (lo : nat) (img : list (list Z)),
  (2 * (lo + n) <= length img)%nat ->
  let out := for_loop n (Z.of_nat lo) (line_pair_420 yuv hue m) img in
  length out = length img /\
  (forall r, (r < 2 * lo \/ 2 * (lo + n) <= r)%nat -> out !!! r = img !!! r) /\
  (forall y, (lo <= y < lo + n)%nat ->
     (out !!! (2 * y)%nat, out !!! (2 * y + 1)%nat) =
       pair_420 yuv hue m (img !!! (2 * y)%nat) (img !!! (2 * y + 1)%nat)
         (img !!! (2 * y + 2)%nat)).
Proof.
induction n as [| n IH]; intros lo img Hlen; cbv zeta; cbn [for_loop].
- split; [reflexivity |]. split; [reflexivity |]. intros y Hy. lia.
- replace (Z.of_nat lo + 1) with (Z.of_nat (S lo)) by lia.
  destruct (pair_body_rows lo img) as (Hl1 & Hc & Hn & Hkeep1); [lia |].
  destruct (IH (S lo) (line_pair_420 yuv hue m (Z.of_nat lo) img))
    as (Hl & Hkeep & Hdone);
    [rewrite Hl1; lia |].
  split; [congruence |]. split.
  + intros r Hr. rewrite Hkeep by lia. apply Hkeep1; lia.
  + intros y Hy. destruct (Nat.eq_dec y lo) as [-> | Hne].
    * rewrite !Hkeep by lia. rewrite Hc, Hn. symmetry. apply surjective_pairing.
    * rewrite Hdone by lia. rewrite !Hkeep1 by lia. reflexivity.
Qed.

(** [rows_420] over [H] line pairs, the last one included: the pairs
  before the last go through [pair_420], the last through
  [lastline_420], each on the lines as they were found. *)
Lemma rows_420_rows (H : nat) (img : list (list Z)) :
(1 <= H)%nat -> (2 * H <= length img)%nat ->
let out := rows_420 yuv hue (m + 1) (Z.of_nat H) 0 (Z.of_nat H) img in
length out = length img /\
(forall y, (y < H - 1)%nat ->
   (out !!! (2 * y)%nat, out !!! (2 * y + 1)%nat) =
     pair_420 yuv hue m (img !!! (2 * y)%nat) (img !!! (2 * y + 1)%nat)
       (img !!! (2 * y + 2)%nat)) /\
(out !!! (2 * (H - 1))%nat, out !!! (2 * (H - 1) + 1)%nat) =
  lastline_420 yuv hue m (img !!! (2 * (H - 1))%nat) (img !!! (2 * (H - 1) + 1)%nat).
Proof.
intros H1 Hlen. unfold rows_420, for_range. cbv zeta.
rewrite bool_decide_eq_true_2 by reflexivity.
replace (m + 1 - 1) with m by lia.
replace (Z.to_nat (Z.of_nat H - 1 - 0)) with (H - 1)%nat by lia.
replace (Z.to_nat ((Z.of_nat H - 1) * 2)) with (2 * (H - 1))%nat by lia.
replace (Z.to_nat ((Z.of_nat H - 1) * 2 + 1)) with (2 * (H - 1) + 1)%nat by lia.
destruct (pair_loop_rows (H - 1) 0 img) as (Hl & Hkeep & Hdone); [lia |].
change (Z.of_nat 0) with 0 in Hl, Hkeep, Hdone.
set (mid := for_loop (H - 1) 0 (line_pair_420 yuv hue m) img) in *.
rewrite !Hkeep by lia.
destruct (lastline_420 _ _ _ _ _) as [c_line n_line].
split; [rewrite !length_insert; exact Hl |]. split.
- intros y Hy. rewrite !list_lookup_total_insert_ne by lia.
  apply Hdone. lia.
- f_equal.
  + rewrite list_lookup_total_insert_ne by lia.
    apply list_lookup_total_insert_eq. lia.
  + apply list_lookup_total_insert_eq. rewrite length_insert. lia.
Qed.
End Rows420.

Lemma rows_422_lines (yuv : Z -> Z -> Z -> Z * Z * Z) (hue hue_last h : Z)
    (W H : nat) (img : list (list Z)) :
  (1 <= W)%nat ->
  raster_at_least H (6 * W) img ->
  let out := rows_422 yuv hue hue_last (Z.of_nat W) h 0 (Z.of_nat H) img in
  lines_422 yuv hue (W - 1) H img out /\
  line_ends_422 yuv hue_last (W - 1) H img out.
Proof.
  intros HW [Hrows Hcols]. cbv zeta.
  assert (Hline : forall y, (y < H)%nat ->
            (forall k, (k < W - 1)%nat ->
               pair_422 yuv hue (img !!! y)
                 (rows_422 yuv hue hue_last (Z.of_nat W) h 0 (Z.of_nat H) img !!! y) k) /\
            pair_422_last yuv hue_last (img !!! y)
              (rows_422 yuv hue hue_last (Z.of_nat W) h 0 (Z.of_nat H) img !!! y) (W - 1)).
  { intros y Hy. rewrite rows_422_row by lia.
    replace (Z.of_nat W - 1) with (Z.of_nat (W - 1)) by lia.
    specialize (Hcols y Hy).
    destruct (line_422_pairs yuv hue hue_last (img !!! y) (W - 1)) as (_ & Hp & Hl);
      [lia |].
    split; assumption. }
  split.
  - intros y Hy k Hk. apply (Hline y Hy). exact Hk.
  - intros y Hy. apply (Hline y Hy).
Qed.

Lemma rows_420_blocks (yuv : Z -> Z -> Z -> Z * Z * Z) (hue : Z)
    (W H : nat) (img : list (list Z)) :
  (1 <= W)%nat -> (1 <= H)%nat ->
  raster_at_least (2 * H) (6 * W) img ->
  let out := rows_420 yuv hue (Z.of_nat W) (Z.of_nat H) 0 (Z.of_nat H) img in
  blocks_420 yuv hue (W - 1) (H - 1) img out /\
  block_ends_420 yuv hue (W - 1) (H - 1) img out /\
  lastline_blocks_420 yuv hue (W - 1) (H - 1) img out.
Proof.
  intros HW HH [Hrows Hcols]. cbv zeta.
  replace (Z.of_nat W) with (Z.of_nat (W - 1) + 1) by lia.
  destruct (rows_420_rows yuv hue (Z.of_nat (W - 1)) H img HH Hrows)
    as (_ & Hpairs & Hlast).
  set (out := rows_420 yuv hue (Z.of_nat (W - 1) + 1) (Z.of_nat H) 0 (Z.of_nat H) img) in *.
  assert (Hpair : forall y, (y < H - 1)%nat ->
            (forall k, (k < W - 1)%nat ->
               block_420 yuv hue (img !!! (2 * y)%nat) (img !!! (2 * y + 1)%nat)
                 (img !!! (2 * y + 2)%nat) (out !!! (2 * y)%nat)
                 (out !!! (2 * y + 1)%nat) k) /\
            block_420_last yuv hue (img !!! (2 * y)%nat) (img !!! (2 * y + 1)%nat)
              (img !!! (2 * y + 2)%nat) (out !!! (2 * y)%nat)
              (out !!! (2 * y + 1)%nat) (W - 1)).
  { intros y Hy. specialize (Hpairs y Hy).
    pose proof (Hcols (2 * y)%nat ltac:(lia)) as Hc.
    pose proof (Hcols (2 * y + 1)%nat ltac:(lia)) as Hn.
    destruct (pair_420_blocks yuv hue (img !!! (2 * y)%nat) (img !!! (2 * y + 1)%nat)
                (img !!! (2 * y + 2)%nat) (W - 1)) as (_ & _ & Hb & Hl); [lia | lia |].
    rewrite <- Hpairs in Hb, Hl. cbn [fst snd] in Hb, Hl. split; assumption. }
  split; [| split].
  - intros y Hy k Hk. apply (Hpair y Hy). exact Hk.
  - intros y Hy. apply (Hpair y Hy).
  - intros k Hk.
    pose proof (Hcols (2 * (H - 1))%nat ltac:(lia)) as Hc.
    pose proof (Hcols (2 * (H - 1) + 1)%nat ltac:(lia)) as Hn.
    destruct (lastline_420_blocks yuv hue (img !!! (2 * (H - 1))%nat)
                (img !!! (2 * (H - 1) + 1)%nat) (W - 1)) as (_ & _ & Hb); [lia | lia |].
    rewrite <- Hlast in Hb. cbn [fst snd] in Hb. apply Hb. exact Hk.
Qed.

(** C6, as the code has it: each interpolator takes [bias = -hue + 16384]
    off every chroma sample it reads before the matrixing; stated for the
    pairs of a line, for the last two pixels of a line of
    [interpolate_422], and for all blocks of the two 4:2:0
    interpolators. *)
Theorem interpolators_subtract_bias (this : Cr2Decoder) (k : SrawCoeffs)
    (mRaw : RawImage) (g : Z) (W H : nat) :
  getHue this mRaw = Ok g ->
  (1 <= W)%nat ->
  (1 <= H)%nat ->
  let bias := - g + 16384 in
  let w := Z.of_nat W in
  let h := Z.of_nat H in
  let img := data mRaw in
  (raster_at_least H (6 * W) img ->
   (exists r,
      interpolate_422 this k w h 0 h mRaw = Ok r /\
      lines_422 (YUV_TO_RGB k) bias (W - 1) H img (data r) /\
      line_ends_422 (YUV_TO_RGB k) bias (W - 1) H img (data r)) /\
   (exists r,
      interpolate_422_old this k w h 0 h mRaw = Ok r /\
      lines_422 (YUV_TO_RGB_old k) bias (W - 1) H img (data r)) /\
   (exists r,
      interpolate_422_new this k w h 0 h mRaw = Ok r /\
      lines_422 (YUV_TO_RGB_new k) bias (W - 1) H img (data r))) /\
  (raster_at_least (2 * H) (6 * W) img ->
   (exists r,
      interpolate_420 this k w h 0 h mRaw = Ok r /\
      blocks_420 (YUV_TO_RGB k) bias (W - 1) (H - 1) img (data r) /\
      block_ends_420 (YUV_TO_RGB k) bias (W - 1) (H - 1) img (data r) /\
      lastline_blocks_420 (YUV_TO_RGB k) bias (W - 1) (H - 1) img (data r)) /\
   (exists r,
      interpolate_420_new this k w h 0 h mRaw = Ok r /\
      blocks_420 (YUV_TO_RGB_new k) bias (W - 1) (H - 1) img (data r) /\
      block_ends_420 (YUV_TO_RGB_new k) bias (W - 1) (H - 1) img (data r) /\
      lastline_blocks_420 (YUV_TO_RGB_new k) bias (W - 1) (H - 1) img (data r))).
Proof.
  intros Hg HW HH. cbv zeta.
  unfold interpolate_422, interpolate_422_old, interpolate_422_new,
    interpolate_420, interpolate_420_new.
  rewrite Hg. cbn [mbind result_bind].
  split; intros Hraster.
  - split; [| split]; eexists; (split; [reflexivity |]); cbn [data set_data].
    + apply rows_422_lines; assumption.
    + apply (rows_422_lines (YUV_TO_RGB_old k) (- g + 16384) 16384); assumption.
    + apply (rows_422_lines (YUV_TO_RGB_new k) (- g + 16384) 16384); assumption.
  - split; eexists; (split; [reflexivity |]); cbn [data set_data];
      apply rows_420_blocks; assumption.
Qed.

(** In [interpolate_422_old] and [interpolate_422_new] the last two pixels
    of a line take the constant 16384 off their chroma, whatever the
    hue. *)
Lemma interpolate_422_old_new_line_ends (this : Cr2Decoder) (k : SrawCoeffs)
    (mRaw : RawImage) (g : Z) (W H : nat) :
  getHue this mRaw = Ok g ->
  (1 <= W)%nat ->
  raster_at_least H (6 * W) (data mRaw) ->
  (exists r,
     interpolate_422_old this k (Z.of_nat W) (Z.of_nat H) 0 (Z.of_nat H) mRaw = Ok r /\
     line_ends_422 (YUV_TO_RGB_old k) 16384 (W - 1) H (data mRaw) (data r)) /\
  (exists r,
     interpolate_422_new this k (Z.of_nat W) (Z.of_nat H) 0 (Z.of_nat H) mRaw = Ok r /\
     line_ends_422 (YUV_TO_RGB_new k) 16384 (W - 1) H (data mRaw) (data r)).
Proof.
  intros Hg HW Hraster.
  unfold interpolate_422_old, interpolate_422_new.
  rewrite Hg. cbn [mbind result_bind].
  split; eexists; (split; [reflexivity |]); cbn [data set_data];
    apply (rows_422_lines _ (- g + 16384) 16384); assumption.
Qed.

Lemma interpolators_subtract_bias_witness :
  getHue hue_decoder sraw_raster = Ok 1 /\
  raster_at_least 1 (6 * 2) (data sraw_raster) /\
  raster_at_least (2 * 1) (6 * 2) (data sraw_raster) /\
  (exists r,
     interpolate_422 hue_decoder unit_coeffs (Z.of_nat 2) (Z.of_nat 1) 0 (Z.of_nat 1)
       sraw_raster = Ok r /\
     lines_422 (YUV_TO_RGB unit_coeffs) (- 1 + 16384) (2 - 1) 1
       (data sraw_raster) (data r) /\
     line_ends_422 (YUV_TO_RGB unit_coeffs) (- 1 + 16384) (2 - 1) 1
       (data sraw_raster) (data r)) /\
  (exists r,
     interpolate_420 hue_decoder unit_coeffs (Z.of_nat 2) (Z.of_nat 1) 0 (Z.of_nat 1)
       sraw_raster = Ok r /\
     lastline_blocks_420 (YUV_TO_RGB unit_coeffs) (- 1 + 16384) (2 - 1) (1 - 1)
       (data sraw_raster) (data r)).
Proof.
  assert (Hg : getHue hue_decoder sraw_raster = Ok 1) by reflexivity.
  assert (H1 : raster_at_least 1 (6 * 2) (data sraw_raster)).
  { split; [cbn; lia |]. intros y Hy. destruct y as [| y]; [cbn; lia | lia]. }
  assert (H2 : raster_at_least (2 * 1) (6 * 2) (data sraw_raster)).
  { split; [cbn; lia |]. intros y Hy. destruct y as [| [| y]]; [cbn; lia | cbn; lia | lia]. }
  split; [exact Hg |]. split; [exact H1 |]. split; [exact H2 |].
  destruct (interpolators_subtract_bias hue_decoder unit_coeffs sraw_raster 1 2 1 Hg
              ltac:(lia) ltac:(lia)) as [H422 H420].
  split.
  - destruct (H422 H1) as [Hclassic _]. exact Hclassic.
  - destruct (H420 H2) as [(r & Hr & _ & _ & Hlast) _]. exists r. split; assumption.
Defined.

(** C6, as the claim has it, fails: with hue 0 the chroma samples 16484
    and 16584 enter the matrixing as 100 and 200, that is with 16384 taken
    off them, not added to them. *)
Lemma chroma_bias_is_taken_off :
  getHue forced_hue_decoder sraw_line = Ok 0 /\
  exists r,
    interpolate_422 forced_hue_decoder unit_coeffs 1 1 0 1 sraw_line = Ok r /\
    px (data r !!! 0%nat) 0 =
      clamp_rgb (YUV_TO_RGB unit_coeffs 1000 (16484 - 16384) (16584 - 16384)) /\
    px (data r !!! 0%nat) 0 <>
      clamp_rgb (YUV_TO_RGB unit_coeffs 1000 (16484 + 16384) (16584 + 16384)).
Proof.
  split; [reflexivity |]. eexists. split; [reflexivity |].
  split; [vm_compute; reflexivity | vm_compute; discriminate].
Qed.

(** * Further properties *)

(** ** Slices *)

(** The "Canon double height" fix, when it applies (four components, frame
    wider than high), halves the width and doubles the height: the slice
    holds the samples of the frame, less one column of four when the
    frame width is odd. *)
Theorem slice_of_sof_double_height (sof : SOFInfo) (offset size : Z) :
  SOFInfo.cps sof = 4 ->
  SOFInfo.h sof < SOFInfo.w sof ->
  0 <= SOFInfo.h sof ->
  SOFInfo.w sof < 2 ^ 31 ->
  let sl := slice_of_sof sof offset size in
  Cr2Slice.w sl = SOFInfo.w sof / 2 * 4 /\
  Cr2Slice.h sl = SOFInfo.h sof * 2 /\
  Cr2Slice.w sl * Cr2Slice.h sl =
    (SOFInfo.w sof - SOFInfo.w sof mod 2) * 4 * SOFInfo.h sof.
Proof.
  intros Hcps Hwide Hh Hw. unfold slice_of_sof. cbv zeta.
  rewrite Hcps. cbn [Z.eqb Pos.eqb andb].
  destruct (Z.ltb_spec (SOFInfo.h sof) (SOFInfo.w sof)) as [_ | ?]; [| lia].
  cbn [Cr2Slice.w Cr2Slice.h SOFInfo.w SOFInfo.h SOFInfo.cps].
  pose proof (Z.div_mod (SOFInfo.w sof) 2 ltac:(lia)) as Hdm.
  pose proof (Z.mod_pos_bound (SOFInfo.w sof) 2 ltac:(lia)) as Hm.
  assert (E1 : wrap_u32 (SOFInfo.w sof / 2 * 4) = SOFInfo.w sof / 2 * 4).
  { unfold wrap_u32. apply Z.mod_small. lia. }
  assert (E2 : wrap_u32 (SOFInfo.h sof * 2) = SOFInfo.h sof * 2).
  { unfold wrap_u32. apply Z.mod_small. lia. }
  rewrite E1, E2. repeat split. nia.
Qed.

Lemma slice_of_sof_double_height_witness :
  SOFInfo.cps (SOFInfo.mk 5793 3768 4 14) = 4 /\
  Cr2Slice.w (slice_of_sof (SOFInfo.mk 5793 3768 4 14) 100 10) = 5793 / 2 * 4 /\
  Cr2Slice.h (slice_of_sof (SOFInfo.mk 5793 3768 4 14) 100 10) = 3768 * 2.
Proof.
  split; [reflexivity |].
  destruct (slice_of_sof_double_height (SOFInfo.mk 5793 3768 4 14) 100 10)
    as (Hw & Hh & _); cbn; try lia.
  split; assumption.
Defined.

(** When the fix does not apply, the slice is as wide as the frame's
    samples and as high as the frame. *)
Lemma slice_of_sof_plain (sof : SOFInfo) (offset size : Z) :
  (SOFInfo.cps sof =? 4) && (SOFInfo.h sof <? SOFInfo.w sof) = false ->
  slice_of_sof sof offset size =
    Cr2Slice.mk (wrap_u32 (SOFInfo.w sof * SOFInfo.cps sof)) (SOFInfo.h sof) offset size.
Proof. intros H. unfold slice_of_sof. rewrite H. reflexivity. Qed.

Lemma wrap_u16_small (v : Z) : 0 <= v < 65536 -> wrap_u16 v = v.
Proof. intros Hv. unfold wrap_u16. apply Z.mod_small. lia. Qed.

Lemma getShort_head (e : TiffEntry) (i : nat) (v : Z) :
  vals e !! i = Some v -> 0 <= v < 65536 -> getShort e i = Ok v.
Proof.
  intros Hi Hv. unfold getShort, entry_at. rewrite Hi. cbn.
  rewrite wrap_u16_small by exact Hv. reflexivity.
Qed.

Lemma sum_Z_app (l1 l2 : list Z) : sum_Z (l1 ++ l2) = sum_Z l1 + sum_Z l2.
Proof.
  induction l1 as [| a l1 IH]; cbn; [reflexivity |].
  unfold sum_Z in *. cbn. rewrite IH. lia.
Qed.

Lemma sum_Z_replicate (n : nat) (v : Z) : sum_Z (replicate n v) = Z.of_nat n * v.
Proof.
  induction n as [| n IH]; [reflexivity |].
  unfold sum_Z in *. cbn [replicate foldr]. rewrite IH. lia.
Qed.

(** The slice-width table handed to the black box: with CANONCR2SLICE
    = (n, w1, w2), [n] times [w1] and then [w2], so n + 1 widths that
    add up to n * w1 + w2. *)
Theorem slice_widths_of_table (raw : TiffIFD) (slice0 : Cr2Slice)
    (ss : TiffEntry) (n w1 w2 : Z) (more : list Z) :
  entries raw !! CANONCR2SLICE = Some ss ->
  vals ss = n :: w1 :: w2 :: more ->
  0 <= n < 65536 -> 0 <= w1 < 65536 -> 0 <= w2 < 65536 ->
  slice_widths raw slice0 = Ok (replicate (Z.to_nat n) w1 ++ [w2]) /\
  length (replicate (Z.to_nat n) w1 ++ [w2]) = Z.to_nat (n + 1) /\
  sum_Z (replicate (Z.to_nat n) w1 ++ [w2]) = n * w1 + w2.
Proof.
  intros Hss Hvals Hn Hw1 Hw2.
  split; [| split].
  - unfold slice_widths, hasEntry, getEntry. rewrite Hss.
    rewrite bool_decide_eq_true_2 by eauto. cbn [mbind result_bind].
    rewrite (getShort_head ss 0 n) by (rewrite ?Hvals; auto). cbn [mbind result_bind].
    rewrite (getShort_head ss 2 w2) by (rewrite ?Hvals; auto).
    destruct (Z.ltb_spec 0 n) as [Hpos | Hzero]; cbn [mbind result_bind].
    + rewrite (getShort_head ss 1 w1) by (rewrite ?Hvals; auto). reflexivity.
    + replace n with 0 by lia. reflexivity.
  - rewrite length_app, length_replicate. cbn. lia.
  - rewrite sum_Z_app, sum_Z_replicate. unfold sum_Z; cbn. lia.
Qed.

Lemma slice_widths_of_table_witness :
  entries sliced_raw !! CANONCR2SLICE = Some (mkTiffEntry TIFF_SHORT [3; 1512; 552]) /\
  slice_widths sliced_raw slice_100 = Ok [1512; 1512; 1512; 552] /\
  sum_Z [1512; 1512; 1512; 552] = 5088.
Proof.
  split; [reflexivity |].
  destruct (slice_widths_of_table sliced_raw slice_100
              (mkTiffEntry TIFF_SHORT [3; 1512; 552]) 3 1512 552 [])
    as (Hw & _ & Hsum); try reflexivity; try lia.
  split; [exact Hw | exact Hsum].
Defined.

(** ** The sRaw geometry fixes *)

Lemma hasEntry_true (raw : TiffIFD) (tag : Z) :
  hasEntry raw tag = true -> exists e, entries raw !! tag = Some e.
Proof.
  unfold hasEntry, TiffTag. intros H. apply bool_decide_eq_true_1 in H as [e He]. eauto.
Qed.

Lemma hasEntry_false (raw : TiffIFD) (tag : Z) :
  hasEntry raw tag = false -> entries raw !! tag = None.
Proof.
  unfold hasEntry, TiffTag. intros H. apply bool_decide_eq_false_1 in H.
  destruct (entries raw !! tag); [exfalso; apply H; eauto | reflexivity].
Qed.

Lemma getEntry_Ok (raw : TiffIFD) (tag : Z) (e : TiffEntry) :
  getEntry raw tag = Ok e -> entries raw !! tag = Some e.
Proof. unfold getEntry, TiffTag. destruct (entries raw !! tag); intros [=]. congruence. Qed.

Lemma getInt_Ok (e : TiffEntry) (i : nat) (v : Z) :
  getInt e i = Ok v -> exists v0, vals e !! i = Some v0 /\ v = wrap_u32 v0.
Proof.
  unfold getInt, entry_at. destruct (vals e !! i) as [v0 |]; cbn; intros [=]. eauto.
Qed.

(** With an entry 0xc6c5 in the raw directory, the fixes never leave a
    raster higher than wide. *)
Theorem sraw_geometry_landscape (raw : TiffIFD) (mRaw r : RawImage) :
  hasEntry raw 0xc6c5 = true ->
  sraw_geometry raw mRaw = Ok r ->
  iPoint2D.y (dim r) <= iPoint2D.x (dim r).
Proof.
  intros Hhas Hrun. unfold sraw_geometry in Hrun. rewrite Hhas in Hrun.
  bind_inv Hrun. bind_inv Hrun. cbv zeta in Hrun. bind_inv Hrun.
  destruct (Z.ltb_spec (iPoint2D.x (dim v1)) (iPoint2D.y (dim v1))) as [Hlt | Hge];
    injection Hrun as <-; cbn; lia.
Qed.

Lemma sraw_geometry_landscape_witness :
  hasEntry sraw_raw 0xc6c5 = true /\
  sraw_geometry sraw_raw provisional_300_500 =
    Ok (set_dim (iPoint2D.mk 500 100)
          (set_isCFA false (setCpp 3 provisional_300_500))) /\
  100 <= 500.
Proof.
  split; [reflexivity |].
  assert (Hrun : sraw_geometry sraw_raw provisional_300_500 =
                   Ok (set_dim (iPoint2D.mk 500 100)
                         (set_isCFA false (setCpp 3 provisional_300_500))))
    by reflexivity.
  split; [exact Hrun |].
  exact (sraw_geometry_landscape sraw_raw provisional_300_500 _ eq_refl Hrun).
Defined.

(** What the fixes do to the components and to the mosaic flag: three
    components and no mosaic exactly when the directory announces sRaw. *)
Lemma sraw_geometry_cpp (raw : TiffIFD) (mRaw r : RawImage) :
  sraw_geometry raw mRaw = Ok r ->
  cpp r = (if sraw_flag raw then 3 else cpp mRaw) /\
  isCFA r = (if sraw_flag raw then false else isCFA mRaw).
Proof.
  unfold sraw_geometry, sraw_flag. intros Hrun.
  destruct (hasEntry raw 0xc6c5) eqn:Hhas.
  - bind_inv Hrun. bind_inv Hrun. cbv zeta in Hrun. bind_inv Hrun.
    apply getEntry_Ok in E. rewrite E.
    apply getInt_Ok in E0 as (v00 & Hv00 & ->).
    destruct (vals v) as [| v' ?] eqn:Hvals; [discriminate |].
    injection Hv00 as ->.
    assert (Hlast : cpp r = cpp v1 /\ isCFA r = isCFA v1).
    { destruct (iPoint2D.x (dim v1) <? iPoint2D.y (dim v1));
        injection Hrun as <-; split; reflexivity. }
    destruct Hlast as [-> ->].
    destruct (wrap_u16 (wrap_u32 v00) =? 4).
    + destruct (hasEntry raw IMAGEWIDTH && hasEntry raw IMAGELENGTH).
      * bind_inv E1. bind_inv E1. bind_inv E1. bind_inv E1. cbv zeta in E1.
        destruct (negb _); [discriminate |]. injection E1 as <-. split; reflexivity.
      * injection E1 as <-. split; reflexivity.
    + injection E1 as <-. split; reflexivity.
  - apply hasEntry_false in Hhas. rewrite Hhas. injection Hrun as <-.
    split; reflexivity.
Qed.

(** With sRaw announced and both IMAGEWIDTH and IMAGELENGTH present, a
    raster that comes out has the declared dimensions, the larger first,
    and the declared area is the area of the raster as wrapped by the
    slices (a third of the width, by the height, as [int]s). *)
Theorem sraw_geometry_declared_size (raw : TiffIFD) (mRaw r : RawImage)
    (ew eh : TiffEntry) (wv hv : Z) (wmore hmore : list Z) :
  sraw_flag raw = true ->
  entries raw !! IMAGEWIDTH = Some ew -> vals ew = wv :: wmore ->
  entries raw !! IMAGELENGTH = Some eh -> vals eh = hv :: hmore ->
  sraw_geometry raw mRaw = Ok r ->
  let w := wrap_s32 (wrap_u32 wv) in
  let h := wrap_s32 (wrap_u32 hv) in
  dim r = iPoint2D.mk (Z.max w h) (Z.min w h) /\
  wrap_s32 (w * h) =
    wrap_s32 (idiv (iPoint2D.x (dim mRaw)) 3 * iPoint2D.y (dim mRaw)).
Proof.
  intros Hflag Hew Hwv Heh Hhv Hrun. cbv zeta.
  unfold sraw_flag in Hflag.
  destruct (entries raw !! 0xc6c5) as [e |] eqn:He; [| discriminate].
  destruct (vals e) as [| v0 ?] eqn:Hvals; [discriminate |].
  unfold sraw_geometry, hasEntry, getEntry, TiffTag, IMAGEWIDTH, IMAGELENGTH in *.
  rewrite He, Hew, Heh in Hrun.
  rewrite !bool_decide_eq_true_2 in Hrun by eauto.
  cbn [mbind result_bind andb] in Hrun.
  unfold getInt, entry_at in Hrun. rewrite Hvals, Hwv, Hhv in Hrun.
  cbn [lookup list_lookup mbind result_bind] in Hrun. cbv zeta in Hrun.
  rewrite Hflag in Hrun.
  cbn [dim set_dim setCpp set_isCFA iPoint2D.x iPoint2D.y] in Hrun.
  destruct (Z.eqb_spec (wrap_s32 (wrap_s32 (wrap_u32 wv) * wrap_s32 (wrap_u32 hv)))
              (wrap_s32 (idiv (iPoint2D.x (dim mRaw)) 3 * iPoint2D.y (dim mRaw))))
    as [Harea | Harea]; cbn [negb mbind result_bind] in Hrun; [| discriminate].
  split; [| exact Harea].
  cbn [dim set_dim iPoint2D.x iPoint2D.y] in Hrun.
  destruct (Z.ltb_spec (wrap_s32 (wrap_u32 wv)) (wrap_s32 (wrap_u32 hv)));
    injection Hrun as <-; cbn; f_equal; lia.
Qed.

Lemma sraw_geometry_declared_size_witness :
  sraw_flag sraw_sized_raw = true /\
  sraw_geometry sraw_sized_raw provisional_300_500 =
    Ok (set_dim (iPoint2D.mk 1000 50)
          (set_isCFA false (setCpp 3 provisional_300_500))) /\
  dim (set_dim (iPoint2D.mk 1000 50)
         (set_isCFA false (setCpp 3 provisional_300_500))) =
    iPoint2D.mk (Z.max (wrap_s32 (wrap_u32 50)) (wrap_s32 (wrap_u32 1000)))
      (Z.min (wrap_s32 (wrap_u32 50)) (wrap_s32 (wrap_u32 1000))).
Proof.
  split; [reflexivity |].
  assert (Hrun : sraw_geometry sraw_sized_raw provisional_300_500 =
                   Ok (set_dim (iPoint2D.mk 1000 50)
                         (set_isCFA false (setCpp 3 provisional_300_500))))
    by (vm_compute; reflexivity).
  split; [exact Hrun |].
  destruct (sraw_geometry_declared_size sraw_sized_raw provisional_300_500 _
              (mkTiffEntry TIFF_LONG [50]) (mkTiffEntry TIFF_LONG [1000]) 50 1000 [] []
              eq_refl eq_refl eq_refl eq_refl eq_refl Hrun) as [Hdim _].
  exact Hdim.
Defined.

(** ** New format: the whole decode *)

Section KeepsComponents.
Context (this : Cr2Decoder).

Lemma decode_loop_cpp (s_width : list Z) (slices : list Cr2Slice) :
  forall (i0 : nat) (offY : Z) (mRaw img : RawImage) (t : list LJpegCall),
    decode_loop this s_width i0 slices offY mRaw = (t, Ok img) ->
    cpp img = cpp mRaw /\ isCFA img = isCFA mRaw.
Proof.
  induction slices as [| slice rest IH]; intros i0 offY mRaw img t Hrun.
  - cbn in Hrun. injection Hrun as _ <-. split; reflexivity.
  - rewrite decode_loop_cons in Hrun. cbv zeta in Hrun.
    assert (Hnext : forall r,
               cpp r = cpp mRaw /\ isCFA r = isCFA mRaw ->
               prepend
                 (Call_decode s_width (Cr2Slice.offset slice) (Cr2Slice.size slice) 0 offY)
                 (decode_loop this s_width (S i0) rest
                    (wrap_u32 (offY + Cr2Slice.w slice)) r) = (t, Ok img) ->
               cpp img = cpp mRaw /\ isCFA img = isCFA mRaw).
    { intros r [Hc Hf]. destruct (decode_loop _ _ _ rest _ r) as [t' res] eqn:Hloop.
      unfold prepend; cbn. intros [= <- ->]. rewrite <- Hc, <- Hf. eapply IH, Hloop. }
    destruct (thrown _) as [[m | m | m] |]; try discriminate;
      try (eapply Hnext; [| exact Hrun]; split; reflexivity).
    destruct (bool_decide (i0 = 0%nat)); [discriminate |].
    eapply Hnext; [| exact Hrun]; split; reflexivity.
Qed.

Lemma sRawInterpolate_cpp (mRaw r : RawImage) :
  sRawInterpolate this mRaw = Ok r ->
  cpp r = cpp mRaw /\ isCFA r = isCFA mRaw /\ errors r = errors mRaw /\
  subsampling r = subsampling mRaw.
Proof.
  unfold sRawInterpolate.
  destruct (getIFDsWithTag _ _) as [| data0 ?]; [discriminate |].
  intros H. bind_inv H. bind_inv H.
  unfold interpolate_422, interpolate_422_old, interpolate_422_new,
    interpolate_420, interpolate_420_new in H.
  repeat match type of H with
         | (if ?b then _ else _) = _ => destruct b
         end;
    try discriminate; bind_inv H; injection H as <-; repeat split; reflexivity.
Qed.
End KeepsComponents.

(** A raster that a new-format decode returns has three components and
    no mosaic flag when the raw directory announces sRaw (entry 0xc6c5
    whose value, as [ushort16], is 4), and one component and the mosaic
    flag otherwise. *)
Theorem decodeNewFormat_components (this : Cr2Decoder) (calls : list LJpegCall)
    (img : RawImage) (raw : TiffIFD) :
  decodeNewFormat this = (calls, Ok img) ->
  getSubIFDs (mRootIFD this) !! 3%nat = Some raw ->
  cpp img = (if sraw_flag raw then 3 else 1) /\
  isCFA img = negb (sraw_flag raw).
Proof.
  intros Hrun Hraw.
  apply decodeNewFormat_Ok_inv in Hrun
    as (raw' & offsets & counts & all & slice0 & rest & fixed & s_width & decodes
        & decoded & Hraw' & _ & _ & _ & _ & _ & _ & Hfixed & _ & Hdecode & _ & Hlast).
  rewrite Hraw in Hraw'. injection Hraw' as <-.
  apply sraw_geometry_cpp in Hfixed as [Hc Hf]. cbn in Hc, Hf.
  apply decode_loop_cpp in Hdecode as [Hc' Hf']. cbn in Hc', Hf'.
  assert (Himg : cpp img = cpp decoded /\ isCFA img = isCFA decoded).
  { destruct ((1 <? iPoint2D.x (subsampling decoded))
              || (1 <? iPoint2D.y (subsampling decoded))).
    - apply sRawInterpolate_cpp in Hlast as (? & ? & _). split; assumption.
    - subst img. split; reflexivity. }
  destruct Himg as [-> ->]. rewrite Hc', Hf', Hc, Hf.
  destruct (sraw_flag raw); split; reflexivity.
Qed.

Lemma decodeNewFormat_components_witness :
  getSubIFDs (mRootIFD sraw_strip) !! 3%nat = Some sraw_raw /\
  sraw_flag sraw_raw = true /\
  (exists img, snd (decodeNewFormat sraw_strip) = Ok img /\
               cpp img = 3 /\ isCFA img = false).
Proof.
  split; [reflexivity |]. split; [reflexivity |].
  destruct (decodeNewFormat sraw_strip) as [calls [img | e]] eqn:Hrun;
    [| vm_compute in Hrun; discriminate].
  exists img. split; [reflexivity |].
  exact (decodeNewFormat_components sraw_strip calls img sraw_raw Hrun eq_refl).
Defined.

(** The calls of a successful new-format decode, in full. *)
Lemma decodeNewFormat_trace (this : Cr2Decoder) (calls : list LJpegCall)
    (img : RawImage) :
  decodeNewFormat this = (calls, Ok img) ->
  let all := interrogated_slices this calls in
  exists (raw : TiffIFD) (slice0 : Cr2Slice) (s_width : list Z),
    getSubIFDs (mRootIFD this) !! 3%nat = Some raw /\
    head (retained this all) = Some slice0 /\
    slice_widths raw slice0 = Ok s_width /\
    calls = getSOF_calls all ++ decode_calls calls /\
    length (decode_calls calls) = length (retained this all) /\
    (forall (i : nat) (c : LJpegCall),
       decode_calls calls !! i = Some c ->
       exists sl,
         retained this all !! i = Some sl /\
         c = Call_decode s_width (Cr2Slice.offset sl) (Cr2Slice.size sl) 0
               (wrap_u32 (widths_before (retained this all) i))).
Proof.
  intros Hrun all.
  apply decodeNewFormat_Ok_inv in Hrun
    as (raw & offsets & counts & all' & slice0 & rest & fixed & s_width & decodes
        & decoded & Hraw & _ & _ & _ & _ & Hall & Hret & _ & Hwidths & Hdecode & Hcalls & _).
  assert (Hdec : decode_calls decodes = decodes).
  { pose proof (decode_loop_all_decodes this s_width (slice0 :: rest) 0 0
                  (createData fixed)) as H.
    rewrite Hdecode in H. exact H. }
  assert (Hsl : all = all').
  { subst all calls. apply interrogated_slices_calls; assumption. }
  clearbody all. subst all'.
  assert (Hdecs : decode_calls calls = decodes).
  { rewrite Hcalls, decode_calls_app, decode_calls_getSOF. exact Hdec. }
  exists raw, slice0, s_width. rewrite Hdecs, Hret.
  split; [exact Hraw |]. split; [reflexivity |]. split; [exact Hwidths |].
  split; [exact Hcalls |].
  split; [eapply decode_loop_Ok_length, Hdecode |].
  intros i c Hc.
  pose proof (decode_loop_calls this s_width (slice0 :: rest) 0 0 (createData fixed) i c
                ltac:(lia)) as H.
  rewrite Hdecode in H. specialize (H Hc). rewrite Z.add_0_l in H. exact H.
Qed.



(** As the code stands, the y-origin handed to the black box with
    retained slice [i] is the sum, as [uint32], of the widths of the
    retained slices before it ([offY += slice.w]), whereas the height of
    the raster is made of the heights of the slices. *)
Theorem decodeNewFormat_y_origin_by_widths (this : Cr2Decoder)
    (calls : list LJpegCall) (img : RawImage) (i : nat) (s_width : list Z)
    (offset size offX offY : Z) :
  decodeNewFormat this = (calls, Ok img) ->
  decode_calls calls !! i = Some (Call_decode s_width offset size offX offY) ->
  offY = wrap_u32 (widths_before (retained this (interrogated_slices this calls)) i).
Proof.
  intros Hrun Hc.
  apply decodeNewFormat_trace in Hrun
    as (raw & slice0 & s_width' & _ & _ & _ & _ & _ & Hdec).
  apply Hdec in Hc as (sl & _ & [= _ _ _ _ ->]). reflexivity.
Qed.

Lemma decodeNewFormat_y_origin_by_widths_witness :
  decodeNewFormat two_strips = (fst (decodeNewFormat two_strips), Ok two_strips_raster) /\
  decode_calls (fst (decodeNewFormat two_strips)) !! 1%nat =
    Some (Call_decode [100] 100 10 0 100) /\
  100 = wrap_u32 (widths_before
                    (retained two_strips
                       (interrogated_slices two_strips (fst (decodeNewFormat two_strips))))
                    1) /\
  dim two_strips_raster = iPoint2D.mk 100 100.
Proof.
  assert (Hrun : decodeNewFormat two_strips =
                   (fst (decodeNewFormat two_strips), Ok two_strips_raster))
    by (vm_compute; reflexivity).
  assert (Hc : decode_calls (fst (decodeNewFormat two_strips)) !! 1%nat =
                 Some (Call_decode [100] 100 10 0 100)) by (vm_compute; reflexivity).
  split; [exact Hrun |]. split; [exact Hc |].
  split; [| reflexivity].
  exact (decodeNewFormat_y_origin_by_widths two_strips _ _ _ _ _ _ _ _ Hrun Hc).
Defined.

(** ** New format: the error log *)

Lemma decode_loop_errors (this : Cr2Decoder) (s_width : list Z)
    (slices : list Cr2Slice) :
  forall (i0 : nat) (offY : Z) (mRaw img : RawImage) (t : list LJpegCall),
    decode_loop this s_width i0 slices offY mRaw = (t, Ok img) ->
    (length (errors img) <= length (errors mRaw) + length slices)%nat /\
    ((forall sw o s x y r, thrown (decode (ljpeg this) sw o s x y r) = None) ->
     errors img = errors mRaw).
Proof.
  induction slices as [| slice rest IH]; intros i0 offY mRaw img t Hrun.
  - cbn in Hrun. injection Hrun as _ <-. split; [lia | reflexivity].
  - rewrite decode_loop_cons in Hrun. cbv zeta in Hrun.
    assert (Hnext : forall r,
               prepend
                 (Call_decode s_width (Cr2Slice.offset slice) (Cr2Slice.size slice) 0 offY)
                 (decode_loop this s_width (S i0) rest
                    (wrap_u32 (offY + Cr2Slice.w slice)) r) = (t, Ok img) ->
               (length (errors img) <= length (errors r) + length rest)%nat /\
               ((forall sw o s x y r,
                   thrown (decode (ljpeg this) sw o s x y r) = None) ->
                errors img = errors r)).
    { intros r. destruct (decode_loop _ _ _ rest _ r) as [t' res] eqn:Hloop.
      unfold prepend; cbn. intros [= <- ->]. eapply IH, Hloop. }
    destruct (thrown _) as [[m | m | m] |] eqn:Hthrown; try discriminate.
    + destruct (bool_decide (i0 = 0%nat)); [discriminate |].
      apply Hnext in Hrun as [Hlen _]. cbn in Hlen. rewrite length_app in Hlen.
      cbn in *. split; [lia |]. intros Hnone. rewrite Hnone in Hthrown. discriminate.
    + apply Hnext in Hrun as [Hlen _]. cbn in Hlen. rewrite length_app in Hlen.
      cbn in *. split; [lia |]. intros Hnone. rewrite Hnone in Hthrown. discriminate.
    + apply Hnext in Hrun as [Hlen Hsame]. cbn in *. split; [lia | exact Hsame].
Qed.

Lemma sraw_geometry_errors (raw : TiffIFD) (mRaw r : RawImage) :
  sraw_geometry raw mRaw = Ok r -> errors r = errors mRaw.
Proof.
  unfold sraw_geometry. intros Hrun.
  destruct (hasEntry raw 0xc6c5); [| injection Hrun as <-; reflexivity].
  bind_inv Hrun. bind_inv Hrun. cbv zeta in Hrun. bind_inv Hrun.
  assert (Hlast : errors r = errors v1).
  { destruct (iPoint2D.x (dim v1) <? iPoint2D.y (dim v1));
      injection Hrun as <-; reflexivity. }
  rewrite Hlast.
  destruct (wrap_u16 v0 =? 4); [| injection E1 as <-; reflexivity].
  destruct (hasEntry raw IMAGEWIDTH && hasEntry raw IMAGELENGTH);
    [| injection E1 as <-; reflexivity].
  bind_inv E1. bind_inv E1. bind_inv E1. bind_inv E1. cbv zeta in E1.
  destruct (negb _); [discriminate |]. injection E1 as <-. reflexivity.
Qed.

(** The raster of a successful new-format decode carries at most one
    logged error per slice decoded, and none when the black box throws
    nothing. *)
Theorem decodeNewFormat_error_log (this : Cr2Decoder) (calls : list LJpegCall)
    (img : RawImage) :
  decodeNewFormat this = (calls, Ok img) ->
  (length (errors img) <= length (decode_calls calls))%nat /\
  ((forall sw o s x y r, thrown (decode (ljpeg this) sw o s x y r) = None) ->
   errors img = []).
Proof.
  intros Hrun.
  apply decodeNewFormat_Ok_inv in Hrun
    as (raw & offsets & counts & all & slice0 & rest & fixed & s_width & decodes
        & decoded & _ & _ & _ & _ & _ & _ & _ & Hfixed & _ & Hdecode & -> & Hlast).
  apply sraw_geometry_errors in Hfixed. cbn in Hfixed.
  assert (Hdec : decode_calls (getSOF_calls all ++ decodes) = decodes).
  { rewrite decode_calls_app, decode_calls_getSOF. cbn [app].
    pose proof (decode_loop_all_decodes this s_width (slice0 :: rest) 0 0
                  (createData fixed)) as H.
    rewrite Hdecode in H. exact H. }
  rewrite Hdec.
  pose proof (decode_loop_Ok_length _ _ _ _ _ _ _ _ Hdecode) as Hlen.
  apply decode_loop_errors in Hdecode as [Hle Hnone].
  change (errors (createData fixed)) with (errors fixed) in Hle, Hnone.
  rewrite Hfixed in Hle, Hnone.
  assert (Himg : errors img = errors decoded).
  { destruct ((1 <? iPoint2D.x (subsampling decoded))
              || (1 <? iPoint2D.y (subsampling decoded))).
    - apply sRawInterpolate_cpp in Hlast as (_ & _ & He & _). exact He.
    - subst img. reflexivity. }
  rewrite Himg, Hlen. split; [exact Hle | exact Hnone].
Qed.

Lemma decodeNewFormat_error_log_witness :
  decodeNewFormat truncated_strip =
    (fst (decodeNewFormat truncated_strip),
     Ok (setError "truncated"
           (createData (set_dim (iPoint2D.mk 100 50) (set_isCFA true RawImage_create))))) /\
  (1 <= length (decode_calls (fst (decodeNewFormat truncated_strip))))%nat.
Proof.
  assert (Hrun : decodeNewFormat truncated_strip =
            (fst (decodeNewFormat truncated_strip),
             Ok (setError "truncated"
                   (createData (set_dim (iPoint2D.mk 100 50)
                                  (set_isCFA true RawImage_create))))))
    by (vm_compute; reflexivity).
  split; [exact Hrun |].
  destruct (decodeNewFormat_error_log truncated_strip _ _ Hrun) as [Hle _].
  exact Hle.
Defined.

(** ** New format: failures *)

Lemma M_bind_lift (A B : Type) (r : result A) (f : A -> M B) :
  lift r ≫= f = match r with Ok a => f a | Throw e => ([], Throw e) end.
Proof.
  destruct r as [a | e]; cbn; [| reflexivity]. destruct (f a); reflexivity.
Qed.

Lemma M_bind_fst_decode_calls (A B : Type) (m : M A) (f : A -> M B) :
  decode_calls (fst m) = [] ->
  (forall a, decode_calls (fst (f a)) = []) ->
  decode_calls (fst (m ≫= f)) = [].
Proof.
  intros Hm Hf. destruct m as [t [a | e]]; unfold mbind, M_bind; [| exact Hm].
  specialize (Hf a). destruct (f a) as [t' r]. cbn [fst] in *.
  rewrite decode_calls_app, Hm, Hf. reflexivity.
Qed.

Section SliceLoopCalls.
Context (this : Cr2Decoder) (offsets counts : TiffEntry).

Lemma slice_body_no_decode (s : nat) (acc : list Cr2Slice * Z) :
  decode_calls (fst (slice_body this offsets counts s acc)) = [].
Proof.
  unfold slice_body. destruct acc as [slices completeH].
  rewrite M_bind_lift.
  destruct (getInt offsets 0) as [offset |]; [| reflexivity].
  rewrite M_bind_lift.
  destruct (getInt counts 0) as [size |]; [| reflexivity].
  rewrite M_bind_call.
  destruct (getSOF (ljpeg this) offset size) as [sof |]; [| reflexivity].
  cbn [prepend fst]. unfold decode_calls. cbn [List.filter is_decode_call].
  apply (M_bind_fst_decode_calls unit).
  - destruct slices as [| slice0 ?]; [reflexivity |].
    destruct (negb _); reflexivity.
  - intros []. reflexivity.
Qed.

Lemma slice_loop_no_decode (n : nat) :
  forall (s : nat) (acc : list Cr2Slice * Z),
    decode_calls (fst (slice_loop this offsets counts n s acc)) = [].
Proof.
  induction n as [| n IH]; intros s acc; [reflexivity |].
  cbn [slice_loop]. apply M_bind_fst_decode_calls.
  - apply slice_body_no_decode.
  - intros acc'. apply IH.
Qed.
End SliceLoopCalls.

Lemma retained_none (this : Cr2Decoder) (all : list Cr2Slice) :
  (forall o s, isValid (mFile this) o s = false) -> retained this all = [].
Proof.
  intros Hnone. unfold retained.
  induction all as [| sl all IH]; [reflexivity |].
  cbn [List.filter]. rewrite Hnone. exact IH.
Qed.

(** When no byte range lies in the file, a new-format decode fails, and
    the black box is never asked to decode. *)
Theorem decodeNewFormat_nothing_in_file (this : Cr2Decoder)
    (calls : list LJpegCall) (r : result RawImage) :
  (forall o s, isValid (mFile this) o s = false) ->
  decodeNewFormat this = (calls, r) ->
  (exists e, r = Throw e) /\ decode_calls calls = [].
Proof.
  intros Hnone. unfold decodeNewFormat.
  destruct (getSubIFDs (mRootIFD this) !! 3%nat) as [raw |];
    [| intros [= <- <-]; split; [eexists |]; reflexivity].
  rewrite M_bind_lift.
  destruct (getEntry raw STRIPOFFSETS) as [offsets |];
    [| intros [= <- <-]; split; [eexists |]; reflexivity].
  rewrite M_bind_lift.
  destruct (getEntry raw STRIPBYTECOUNTS) as [counts |];
    [| intros [= <- <-]; split; [eexists |]; reflexivity].
  pose proof (slice_loop_no_decode this offsets counts
                (Z.to_nat (count offsets)) 0 ([], 0)) as Hcalls.
  destruct (slice_loop this offsets counts (Z.to_nat (count offsets)) 0 ([], 0))
    as [t [[slices completeH] | e]] eqn:Hloop.
  - apply slice_loop_Ok_inv in Hloop as (all & _ & _ & _ & -> & _ & _);
      [| reflexivity | exact I].
    rewrite (retained_none this all Hnone). cbn.
    intros [= <- <-]. rewrite app_nil_r. split; [eexists; reflexivity | exact Hcalls].
  - cbn. intros [= <- <-]. split; [eexists; reflexivity | exact Hcalls].
Qed.

Lemma decodeNewFormat_nothing_in_file_witness :
  decodeNewFormat strips_outside_file =
    ([Call_getSOF 100 10; Call_getSOF 100 10],
     ThrowRDE "CR2 Decoder: No Slices found.") /\
  decode_calls [Call_getSOF 100 10; Call_getSOF 100 10] = [].
Proof.
  assert (Hrun : decodeNewFormat strips_outside_file =
                   ([Call_getSOF 100 10; Call_getSOF 100 10],
                    ThrowRDE "CR2 Decoder: No Slices found."))
    by (vm_compute; reflexivity).
  split; [exact Hrun |].
  destruct (decodeNewFormat_nothing_in_file strips_outside_file _ _
              (fun _ _ => eq_refl) Hrun) as [_ Hcalls].
  exact Hcalls.
Defined.

(** Without the hint "old_format", a container with fewer than four
    sub-directories fails with "No image data found", and a raw directory
    without STRIPOFFSETS or without STRIPBYTECOUNTS with "Unsupported
    format"; in both cases before any call into the black box. *)
Theorem decodeRawInternal_missing_directory (this : Cr2Decoder) :
  hints this !! "old_format" = None ->
  (getSubIFDs (mRootIFD this) !! 3%nat = None ->
   decodeRawInternal this = ([], ThrowRDE "CR2 Decoder: No image data found")) /\
  (forall raw,
     getSubIFDs (mRootIFD this) !! 3%nat = Some raw ->
     entries raw !! STRIPOFFSETS = None \/ entries raw !! STRIPBYTECOUNTS = None ->
     decodeRawInternal this = ([], ThrowRDE "CR2 Decoder: Unsupported format.")).
Proof.
  intros Hhint. unfold decodeRawInternal, has_hint. rewrite Hhint.
  rewrite bool_decide_eq_false_2 by (intros [? ?]; discriminate).
  unfold decodeNewFormat. split.
  - intros ->. reflexivity.
  - intros raw -> Hmissing. rewrite M_bind_lift.
    unfold getEntry, TiffTag, STRIPOFFSETS, STRIPBYTECOUNTS in *.
    destruct (entries raw !! 273) as [offsets |] eqn:Hoff; [| reflexivity].
    destruct Hmissing as [? | Hcounts]; [discriminate |].
    rewrite M_bind_lift, Hcounts. reflexivity.
Qed.

Lemma decodeRawInternal_missing_directory_witness :
  hints no_strips_decoder !! "old_format" = None /\
  getSubIFDs (mRootIFD no_strips_decoder) !! 3%nat = Some no_entries /\
  decodeRawInternal no_strips_decoder =
    ([], ThrowRDE "CR2 Decoder: Unsupported format.").
Proof.
  split; [reflexivity |]. split; [reflexivity |].
  destruct (decodeRawInternal_missing_directory no_strips_decoder ltac:(reflexivity))
    as [_ Hmissing].
  apply (Hmissing no_entries); [reflexivity | left; reflexivity].
Defined.

(** ** New format: the byte ranges read *)

Section SliceLoopRanges.
Context (this : Cr2Decoder) (offsets counts : TiffEntry) (offset size : Z).
Context (Hoffset : getInt offsets 0 = Ok offset) (Hsize : getInt counts 0 = Ok size).

Let at_strip_0 (sl : Cr2Slice) : Prop :=
  Cr2Slice.offset sl = offset /\ Cr2Slice.size sl = size.

Lemma slice_body_ranges (s : nat) (slices slices' : list Cr2Slice)
    (completeH completeH' : Z) (t : list LJpegCall) :
  slice_body this offsets counts s (slices, completeH) = (t, Ok (slices', completeH')) ->
  Forall at_strip_0 slices ->
  Forall (call_at offset size) t /\ Forall at_strip_0 slices'.
Proof.
  unfold slice_body. rewrite M_bind_lift, Hoffset, M_bind_lift, Hsize, M_bind_call.
  destruct (getSOF (ljpeg this) offset size) as [sof |]; [| discriminate].
  intros Hrun Hslices.
  assert (Hnew : at_strip_0 (slice_of_sof sof offset size)) by (split; reflexivity).
  destruct slices as [| slice0 rest].
  - cbn in Hrun. injection Hrun as <- <- _. split.
    + repeat constructor.
    + destruct (isValid _ _ _); repeat constructor; assumption.
  - destruct (negb _); [discriminate |].
    cbn in Hrun. injection Hrun as <- <- _. split.
    + repeat constructor.
    + destruct (isValid _ _ _); [| exact Hslices].
      change (slice0 :: rest ++ [slice_of_sof sof offset size])
        with ((slice0 :: rest) ++ [slice_of_sof sof offset size]).
      apply Forall_app. split; [exact Hslices | repeat constructor; assumption].
Qed.

Lemma slice_loop_ranges (n : nat) :
  forall (s : nat) (slices slices' : list Cr2Slice) (completeH completeH' : Z)
         (t : list LJpegCall),
    slice_loop this offsets counts n s (slices, completeH) =
      (t, Ok (slices', completeH')) ->
    Forall at_strip_0 slices ->
    Forall (call_at offset size) t /\ Forall at_strip_0 slices'.
Proof.
  induction n as [| n IH]; intros s slices slices' completeH completeH' t Hrun Hslices.
  - cbn in Hrun. injection Hrun as <- <- _. split; [constructor | exact Hslices].
  - cbn [slice_loop] in Hrun.
    apply M_bind_Ok_inv in Hrun as (t1 & [slices1 H1] & t2 & Hbody & Hrest & ->).
    apply slice_body_ranges in Hbody as [Ht1 Hslices1]; [| exact Hslices].
    apply IH in Hrest as [Ht2 Hslices']; [| exact Hslices1].
    split; [apply Forall_app; split; assumption | exact Hslices'].
Qed.
End SliceLoopRanges.

Lemma decode_loop_ranges (this : Cr2Decoder) (s_width : list Z) (offset size : Z)
    (slices : list Cr2Slice) :
  Forall (fun sl => Cr2Slice.offset sl = offset /\ Cr2Slice.size sl = size) slices ->
  forall (i0 : nat) (offY : Z) (mRaw : RawImage),
    Forall (call_at offset size) (fst (decode_loop this s_width i0 slices offY mRaw)).
Proof.
  induction 1 as [| slice rest [Ho Hs] _ IH]; intros i0 offY mRaw; [constructor |].
  destruct (decode_loop_trace_cons this s_width i0 slice rest offY mRaw)
    as (t & -> & [-> | [r ->]]).
  - repeat constructor; assumption.
  - constructor; [split; assumption | apply IH].
Qed.

(** Every call a successful new-format decode makes into the black box,
    [getSOF] or [decode], reads the byte range given by element 0 of
    STRIPOFFSETS and element 0 of STRIPBYTECOUNTS. *)
Theorem decodeNewFormat_byte_range (this : Cr2Decoder) (calls : list LJpegCall)
    (img : RawImage) :
  decodeNewFormat this = (calls, Ok img) ->
  exists (raw : TiffIFD) (offsets counts : TiffEntry) (offset size : Z),
    getSubIFDs (mRootIFD this) !! 3%nat = Some raw /\
    getEntry raw STRIPOFFSETS = Ok offsets /\
    getEntry raw STRIPBYTECOUNTS = Ok counts /\
    getInt offsets 0 = Ok offset /\
    getInt counts 0 = Ok size /\
    Forall (call_at offset size) calls.
Proof.
  intros Hrun.
  apply decodeNewFormat_Ok_inv in Hrun
    as (raw & offsets & counts & all & slice0 & rest & fixed & s_width & decodes
        & decoded & Hraw & Hoffsets & Hcounts & Hloop & Hlen & Hall & Hret & _ & _
        & Hdecode & -> & _).
  assert (Hn : (1 <= Z.to_nat (count offsets))%nat).
  { rewrite <- Hlen. destruct all; [discriminate | cbn; lia]. }
  destruct (Z.to_nat (count offsets)) as [| n] eqn:Hcount; [lia |].
  pose proof Hloop as Hfirst. cbn [slice_loop] in Hfirst.
  apply M_bind_Ok_inv in Hfirst as (t1 & acc1 & t2 & Hbody & _ & _).
  unfold slice_body in Hbody.
  apply M_bind_lift_Ok_inv in Hbody as (offset & Hoffset & Hbody).
  apply M_bind_lift_Ok_inv in Hbody as (size & Hsize & _).
  exists raw, offsets, counts, offset, size.
  repeat (split; [assumption |]).
  apply (slice_loop_ranges this offsets counts offset size Hoffset Hsize) in Hloop
    as [Hsof Hslices]; [| constructor].
  apply Forall_app. split; [exact Hsof |].
  pose proof (decode_loop_ranges this s_width offset size (slice0 :: rest) Hslices
                0%nat 0 (createData fixed)) as H.
  rewrite Hdecode in H. exact H.
Qed.

Lemma decodeNewFormat_byte_range_witness :
  decodeNewFormat two_strips = (fst (decodeNewFormat two_strips), Ok two_strips_raster) /\
  Forall (call_at 100 10) (fst (decodeNewFormat two_strips)).
Proof.
  assert (Hrun : decodeNewFormat two_strips =
                   (fst (decodeNewFormat two_strips), Ok two_strips_raster))
    by (vm_compute; reflexivity).
  split; [exact Hrun |].
  destruct (decodeNewFormat_byte_range two_strips _ _ Hrun)
    as (raw & offsets & counts & offset & size & Hraw & Ho & Hc & Hoff & Hsz & Hcalls).
  injection Hraw as <-.
  injection Ho as <-. injection Hc as <-.
  injection Hoff as <-. injection Hsz as <-.
  exact Hcalls.
Defined.

(** ** sRaw interpolation: dispatch *)

(** [sRawInterpolate] returns only for the subsamplings (2, 1) and
    (2, 2), and only when some directory carries CANONCOLORDATA; what it
    returns differs from the raster it was given in the samples only. *)
Theorem sRawInterpolate_returns (this : Cr2Decoder) (mRaw r : RawImage) :
  sRawInterpolate this mRaw = Ok r ->
  (subsampling mRaw = iPoint2D.mk 2 1 \/ subsampling mRaw = iPoint2D.mk 2 2) /\
  getIFDsWithTag (mRootIFD this) CANONCOLORDATA <> [] /\
  dim r = dim mRaw /\ cpp r = cpp mRaw /\ isCFA r = isCFA mRaw /\
  subsampling r = subsampling mRaw /\ errors r = errors mRaw /\ table r = table mRaw.
Proof.
  intros Hrun.
  pose proof (sRawInterpolate_dim this mRaw r Hrun) as Hdim.
  pose proof (sRawInterpolate_cpp this mRaw r Hrun) as (Hc & Hf & He & Hs).
  unfold sRawInterpolate in Hrun.
  destruct (getIFDsWithTag (mRootIFD this) CANONCOLORDATA) as [| data0 ?];
    [discriminate |].
  bind_inv Hrun. bind_inv Hrun.
  assert (Htable : table r = table mRaw).
  { unfold interpolate_422, interpolate_422_old, interpolate_422_new,
      interpolate_420, interpolate_420_new in Hrun.
    repeat match type of Hrun with
           | (if ?b then _ else _) = _ => destruct b
           end;
      try discriminate; bind_inv Hrun; injection Hrun as <-; reflexivity. }
  split; [| repeat split; try assumption; discriminate].
  destruct (subsampling mRaw) as [sx sy]. cbn [iPoint2D.x iPoint2D.y] in Hrun.
  destruct (Z.eqb_spec sx 2) as [Hx | Hx].
  - destruct (Z.eqb_spec sy 1) as [Hy | Hy]; [left; congruence |].
    destruct (Z.eqb_spec sy 2) as [Hy' | Hy']; [right; congruence |].
    cbn [andb] in Hrun. discriminate.
  - rewrite !andb_false_r in Hrun. discriminate.
Qed.

Lemma sRawInterpolate_returns_witness :
  sRawInterpolate sraw_decoder sraw_raster =
    Ok (set_data (rows_420 (YUV_TO_RGB (mkSrawCoeffs 1024 1024 512)) 16384 2 1 0 1
                    (data sraw_raster)) sraw_raster) /\
  subsampling sraw_raster = iPoint2D.mk 2 2.
Proof.
  assert (Hrun : sRawInterpolate sraw_decoder sraw_raster =
            Ok (set_data (rows_420 (YUV_TO_RGB (mkSrawCoeffs 1024 1024 512)) 16384 2 1 0 1
                            (data sraw_raster)) sraw_raster))
    by reflexivity.
  split; [exact Hrun |].
  destruct (sRawInterpolate_returns sraw_decoder sraw_raster _ Hrun) as [[H | H] _];
    [discriminate | exact H].
Defined.

Lemma has_hint_insert_ne (h : gmap string string) (k k' v : string) :
  k <> k' -> has_hint (<[k := v]> h) k' = has_hint h k'.
Proof. intros Hne. unfold has_hint. rewrite lookup_insert_ne by exact Hne. reflexivity. Qed.

Lemma getHue_with_hints (this : Cr2Decoder) (h : gmap string string) (mRaw : RawImage) :
  has_hint h "old_sraw_hue" = has_hint (hints this) "old_sraw_hue" ->
  has_hint h "force_new_sraw_hue" = has_hint (hints this) "force_new_sraw_hue" ->
  getHue (with_hints h this) mRaw = getHue this mRaw.
Proof. intros Hold Hforce. unfold getHue. cbn. rewrite Hold, Hforce. reflexivity. Qed.

(** For 4:2:0 images the hint "sraw_40d" changes nothing: setting it, to
    any value, gives the same interpolation. *)
Theorem sRawInterpolate_420_ignores_sraw_40d (this : Cr2Decoder) (v : string)
    (mRaw : RawImage) :
  subsampling mRaw = iPoint2D.mk 2 2 ->
  sRawInterpolate (with_hints (<["sraw_40d" := v]> (hints this)) this) mRaw =
    sRawInterpolate this mRaw.
Proof.
  intros Hsub. unfold sRawInterpolate. cbn [mRootIFD hints with_hints].
  destruct (getIFDsWithTag (mRootIFD this) CANONCOLORDATA) as [| data0 ?];
    [reflexivity |].
  destruct (getEntry data0 CANONCOLORDATA) as [wb |]; [| reflexivity].
  cbn [mbind result_bind].
  unfold sraw_coeffs_of. cbn [hints with_hints].
  rewrite (has_hint_insert_ne (hints this) "sraw_40d" "invert_sraw_wb" v) by discriminate.
  rewrite (has_hint_insert_ne (hints this) "sraw_40d" "sraw_new" v) by discriminate.
  destruct (read_sraw_coeffs wb) as [k |]; [| reflexivity].
  cbn [mbind result_bind]. rewrite Hsub. cbn [iPoint2D.x iPoint2D.y Z.eqb Pos.eqb andb].
  unfold interpolate_420, interpolate_420_new.
  rewrite getHue_with_hints by (cbn; apply has_hint_insert_ne; discriminate).
  reflexivity.
Qed.

Lemma sRawInterpolate_420_ignores_sraw_40d_witness :
  subsampling sraw_raster = iPoint2D.mk 2 2 /\
  sRawInterpolate (with_hints (<["sraw_40d" := ""]> (hints sraw_decoder)) sraw_decoder)
    sraw_raster = sRawInterpolate sraw_decoder sraw_raster.
Proof.
  split; [reflexivity |].
  apply (sRawInterpolate_420_ignores_sraw_40d sraw_decoder "" sraw_raster). reflexivity.
Defined.

(** ** sRaw interpolation: the coefficients *)

Lemma getShort_at (e : TiffEntry) (i : nat) :
  (i < length (vals e))%nat -> getShort e i = Ok (wrap_u16 (vals e !!! i)).
Proof.
  intros Hi. unfold getShort, entry_at.
  rewrite (list_lookup_lookup_total_lt (vals e) i Hi). reflexivity.
Qed.

Lemma getShort_past (e : TiffEntry) (i : nat) :
  (length (vals e) <= i)%nat ->
  getShort e i = Throw (TiffParserException "TIFF: Trying to read out of bounds").
Proof.
  intros Hi. unfold getShort, entry_at.
  rewrite (lookup_ge_None_2 (vals e) i Hi). reflexivity.
Qed.

Lemma shiftr_1_mean (a b : Z) :
  Z.min a b <= Z.shiftr (a + b + 1) 1 <= Z.max a b.
Proof.
  rewrite Z.shiftr_div_pow2 by lia. change (2 ^ 1) with 2.
  pose proof (Z.div_mod (a + b + 1) 2 ltac:(lia)).
  pose proof (Z.mod_pos_bound (a + b + 1) 2 ltac:(lia)). lia.
Qed.

(** The sRaw coefficients need 82 shorts of colour data: with fewer the
    read throws a parser exception; with 82 or more, coefficients 0 and 2
    are shorts 78 and 81 and coefficient 1 lies between shorts 79 and
    80. *)
Theorem read_sraw_coeffs_needs_82 (wb : TiffEntry) :
  ((length (vals wb) < 82)%nat ->
   exists msg, read_sraw_coeffs wb = Throw (TiffParserException msg)) /\
  ((82 <= length (vals wb))%nat ->
   exists k,
     read_sraw_coeffs wb = Ok k /\
     sraw_coeffs_0 k = wrap_u16 (vals wb !!! 78%nat) /\
     sraw_coeffs_2 k = wrap_u16 (vals wb !!! 81%nat) /\
     Z.min (wrap_u16 (vals wb !!! 79%nat)) (wrap_u16 (vals wb !!! 80%nat))
       <= sraw_coeffs_1 k
       <= Z.max (wrap_u16 (vals wb !!! 79%nat)) (wrap_u16 (vals wb !!! 80%nat))).
Proof.
  unfold read_sraw_coeffs. cbn [Nat.add]. split; intros Hlen.
  - destruct (le_lt_dec (length (vals wb)) 78) as [H78 | H78];
      [rewrite (getShort_past wb 78) by lia; eexists; reflexivity |].
    rewrite (getShort_at wb 78) by lia. cbn [mbind result_bind].
    destruct (le_lt_dec (length (vals wb)) 79) as [H79 | H79];
      [rewrite (getShort_past wb 79) by lia; eexists; reflexivity |].
    rewrite (getShort_at wb 79) by lia. cbn [mbind result_bind].
    destruct (le_lt_dec (length (vals wb)) 80) as [H80 | H80];
      [rewrite (getShort_past wb 80) by lia; eexists; reflexivity |].
    rewrite (getShort_at wb 80) by lia. cbn [mbind result_bind].
    rewrite (getShort_past wb 81) by lia. eexists; reflexivity.
  - rewrite (getShort_at wb 78), (getShort_at wb 79), (getShort_at wb 80),
      (getShort_at wb 81) by lia.
    cbn [mbind result_bind]. eexists. split; [reflexivity |].
    cbn [sraw_coeffs_0 sraw_coeffs_1 sraw_coeffs_2].
    split; [reflexivity |]. split; [reflexivity |]. apply shiftr_1_mean.
Qed.

Lemma read_sraw_coeffs_needs_82_witness :
  (82 <= length (vals (color_data 1000 1024 1024 512)))%nat /\
  exists k, read_sraw_coeffs (color_data 1000 1024 1024 512) = Ok k /\
            sraw_coeffs_0 k = 1000.
Proof.
  split; [cbn; lia |].
  destruct (read_sraw_coeffs_needs_82 (color_data 1000 1024 1024 512)) as [_ Hok].
  destruct Hok as (k & Hk & H0 & _); [cbn; lia |].
  exists k. split; [exact Hk | exact H0].
Defined.

(** ** sRaw interpolation: lines and line ranges *)

Lemma rows_422_lookup (yuv : Z -> Z -> Z -> Z * Z * Z) (hue hue_last w h : Z)
    (A B : nat) (img : list (list Z)) (y : nat) :
  rows_422 yuv hue hue_last w h (Z.of_nat A) (Z.of_nat B) img !! y =
    if decide (A <= y < B)%nat
    then line_422 yuv hue hue_last (w - 1) <$> img !! y
    else img !! y.
Proof.
  unfold rows_422, for_range. cbv zeta.
  replace (Z.to_nat (Z.of_nat B - Z.of_nat A)) with (B - A)%nat by lia.
  rewrite for_loop_alter. repeat case_decide; try lia; reflexivity.
Qed.

Lemma rows_422_split (yuv : Z -> Z -> Z -> Z * Z * Z) (hue hue_last w h : Z)
    (A B C : nat) (img : list (list Z)) :
  (A <= B <= C)%nat ->
  rows_422 yuv hue hue_last w h (Z.of_nat B) (Z.of_nat C)
    (rows_422 yuv hue hue_last w h (Z.of_nat A) (Z.of_nat B) img) =
    rows_422 yuv hue hue_last w h (Z.of_nat A) (Z.of_nat C) img /\
  rows_422 yuv hue hue_last w h (Z.of_nat A) (Z.of_nat B)
    (rows_422 yuv hue hue_last w h (Z.of_nat B) (Z.of_nat C) img) =
    rows_422 yuv hue hue_last w h (Z.of_nat A) (Z.of_nat C) img.
Proof.
  intros HABC. split; apply list_eq; intros y; rewrite !rows_422_lookup;
    repeat case_decide; try lia; reflexivity.
Qed.

Lemma interpolator_422_rows
    (interp : Cr2Decoder -> SrawCoeffs -> Z -> Z -> Z -> Z -> RawImage -> result RawImage) :
  In interp interpolators_422 ->
  exists (yuv : SrawCoeffs -> Z -> Z -> Z -> Z * Z * Z) (hue_last : Z -> Z),
    forall this k w h start_h end_h mRaw,
      interp this k w h start_h end_h mRaw =
        g ← getHue this mRaw;
        Ok (set_data (rows_422 (yuv k) (- g + 16384) (hue_last (- g + 16384))
                        w h start_h end_h (data mRaw)) mRaw).
Proof.
  intros [<- | [<- | [<- | []]]].
  - exists YUV_TO_RGB, (fun hue => hue). reflexivity.
  - exists YUV_TO_RGB_old, (fun _ => 16384). reflexivity.
  - exists YUV_TO_RGB_new, (fun _ => 16384). reflexivity.
Qed.

(** The 4:2:2 interpolators work line by line: two adjacent line ranges
    done one after the other, in either order, give what the whole range
    gives. *)
Theorem interpolate_422_by_line_ranges
    (interp : Cr2Decoder -> SrawCoeffs -> Z -> Z -> Z -> Z -> RawImage -> result RawImage)
    (this : Cr2Decoder) (k : SrawCoeffs) (w h : Z) (A B C : nat) (mRaw : RawImage) :
  In interp interpolators_422 ->
  (A <= B <= C)%nat ->
  (interp this k w h (Z.of_nat A) (Z.of_nat B) mRaw
     ≫= interp this k w h (Z.of_nat B) (Z.of_nat C)) =
    interp this k w h (Z.of_nat A) (Z.of_nat C) mRaw /\
  (interp this k w h (Z.of_nat B) (Z.of_nat C) mRaw
     ≫= interp this k w h (Z.of_nat A) (Z.of_nat B)) =
    interp this k w h (Z.of_nat A) (Z.of_nat C) mRaw.
Proof.
  intros Hin HABC.
  destruct (interpolator_422_rows interp Hin) as (yuv & hue_last & Hinterp).
  rewrite !Hinterp.
  destruct (getHue this mRaw) as [g |] eqn:Hg; [| split; reflexivity].
  cbn [mbind result_bind]. rewrite !Hinterp.
  change (getHue this (set_data ?d mRaw)) with (getHue this mRaw).
  rewrite Hg. cbn [mbind result_bind data set_data].
  destruct (rows_422_split (yuv k) (- g + 16384) (hue_last (- g + 16384)) w h A B C
              (data mRaw) HABC) as [-> ->].
  split; reflexivity.
Qed.

Lemma interpolate_422_by_line_ranges_witness :
  In interpolate_422 interpolators_422 /\
  (0 <= 1 <= 2)%nat /\
  (interpolate_422 hue_decoder unit_coeffs 2 2 (Z.of_nat 0) (Z.of_nat 1) sraw_raster
     ≫= interpolate_422 hue_decoder unit_coeffs 2 2 (Z.of_nat 1) (Z.of_nat 2)) =
    interpolate_422 hue_decoder unit_coeffs 2 2 (Z.of_nat 0) (Z.of_nat 2) sraw_raster.
Proof.
  split; [left; reflexivity |]. split; [lia |].
  apply (interpolate_422_by_line_ranges interpolate_422 hue_decoder unit_coeffs 2 2
           0 1 2 sraw_raster); [left; reflexivity | lia].
Defined.

Section Line422Keeps.
Context (yuv : Z -> Z -> Z -> Z * Z * Z) (hue hue_last : Z) (c : list Z).

Lemma body_422_iter_keeps (n : nat) :
  let st := Nat.iter n (body_422 yuv hue) (c, 0%nat) in
  snd st = (6 * n)%nat /\
  length (fst st) = length c /\
  (forall j, (6 * n <= j)%nat -> fst st !!! j = c !!! j).
Proof.
  induction n as [| n IH]; cbv zeta.
  - cbn. repeat split; reflexivity.
  - rewrite Nat.iter_succ. destruct IH as (Hoff & Hl & Hkeep).
    destruct (Nat.iter n (body_422 yuv hue) (c, 0%nat)) as [c0 off].
    cbn [fst snd] in *. subst off. unfold body_422. cbv zeta. cbn [fst snd].
    split; [lia |]. split; [rewrite !STORE_RGB_length; exact Hl |].
    intros j Hj. rewrite !STORE_RGB_other by lia. apply Hkeep. lia.
Qed.

(** a line keeps its length, and its samples past the pairs converted *)
Lemma line_422_keeps (n : nat) :
  let out := line_422 yuv hue hue_last (Z.of_nat n) c in
  length out = length c /\
  (forall j, (6 * n + 6 <= j)%nat -> out !!! j = c !!! j).
Proof.
  cbv zeta. unfold line_422. rewrite Nat2Z.id.
  destruct (body_422_iter_keeps n) as (Hoff & Hl & Hkeep).
  destruct (Nat.iter n (body_422 yuv hue) (c, 0%nat)) as [c0 off].
  cbn [fst snd] in *. subst off. unfold last_422. cbv zeta.
  split; [rewrite !STORE_RGB_length; exact Hl |].
  intros j Hj. rewrite !STORE_RGB_other by lia. apply Hkeep. lia.
Qed.
End Line422Keeps.

(** A 4:2:2 interpolator writes in place and within bounds: the raster
    keeps its lines and their lengths, the lines outside the range are
    untouched, and so are, in every line, the samples past the [w] pairs
    of pixels. *)
Theorem interpolate_422_in_place
    (interp : Cr2Decoder -> SrawCoeffs -> Z -> Z -> Z -> Z -> RawImage -> result RawImage)
    (this : Cr2Decoder) (k : SrawCoeffs) (W : nat) (h : Z) (A B : nat)
    (mRaw r : RawImage) :
  In interp interpolators_422 ->
  (1 <= W)%nat ->
  interp this k (Z.of_nat W) h (Z.of_nat A) (Z.of_nat B) mRaw = Ok r ->
  length (data r) = length (data mRaw) /\
  (forall y, length (data r !!! y) = length (data mRaw !!! y)) /\
  (forall y, ~ (A <= y < B)%nat -> data r !!! y = data mRaw !!! y) /\
  (forall y j, (6 * W <= j)%nat -> (data r !!! y) !!! j = (data mRaw !!! y) !!! j).
Proof.
  intros Hin HW Hrun.
  destruct (interpolator_422_rows interp Hin) as (yuv & hue_last & Hinterp).
  rewrite Hinterp in Hrun. bind_inv Hrun. injection Hrun as <-. cbn [data set_data].
  set (out := rows_422 _ _ _ _ _ _ _ _).
  assert (Hrow : forall y,
            out !! y =
              if decide (A <= y < B)%nat
              then line_422 (yuv k) (- v + 16384) (hue_last (- v + 16384))
                     (Z.of_nat (W - 1)) <$> data mRaw !! y
              else data mRaw !! y).
  { intros y. subst out. rewrite rows_422_lookup.
    replace (Z.of_nat W - 1) with (Z.of_nat (W - 1)) by lia. reflexivity. }
  assert (Hlen : length out = length (data mRaw)).
  { apply Nat.le_antisymm.
    - destruct (le_lt_dec (length out) (length (data mRaw))) as [? | Hlt]; [assumption |].
      destruct (lookup_lt_is_Some_2 out (length (data mRaw)) Hlt) as [row Hsome].
      rewrite Hrow, (lookup_ge_None_2 (data mRaw) (length (data mRaw))) in Hsome by lia.
      case_decide; discriminate.
    - destruct (le_lt_dec (length (data mRaw)) (length out)) as [? | Hlt]; [assumption |].
      destruct (lookup_lt_is_Some_2 (data mRaw) (length out) Hlt) as [row Hsome].
      pose proof (Hrow (length out)) as H.
      rewrite (lookup_ge_None_2 out (length out)), Hsome in H by lia.
      case_decide; discriminate. }
  assert (Htot : forall y,
            out !!! y = data mRaw !!! y \/
            ((A <= y < B)%nat /\
             out !!! y =
               line_422 (yuv k) (- v + 16384) (hue_last (- v + 16384))
                 (Z.of_nat (W - 1)) (data mRaw !!! y))).
  { intros y. rewrite !list_lookup_total_alt, Hrow.
    case_decide; [| left; reflexivity].
    destruct (data mRaw !! y) as [row |]; [right; split; [assumption | reflexivity] |].
    left; reflexivity. }
  split; [exact Hlen |]. split; [| split].
  - intros y. destruct (Htot y) as [-> | [_ ->]]; [reflexivity |].
    apply line_422_keeps.
  - intros y Hy. destruct (Htot y) as [-> | [Hin' _]]; [reflexivity | contradiction].
  - intros y j Hj. destruct (Htot y) as [-> | [_ ->]]; [reflexivity |].
    apply line_422_keeps. lia.
Qed.

Lemma interpolate_422_in_place_witness :
  In interpolate_422_old interpolators_422 /\
  exists r,
    interpolate_422_old hue_decoder unit_coeffs (Z.of_nat 1) 2 (Z.of_nat 0) (Z.of_nat 1)
      sraw_raster = Ok r /\
    length (data r) = length (data sraw_raster) /\
    data r !!! 1%nat = data sraw_raster !!! 1%nat.
Proof.
  split; [right; left; reflexivity |].
  eexists. split; [reflexivity |].
  destruct (interpolate_422_in_place interpolate_422_old hue_decoder unit_coeffs 1 2 0 1
              sraw_raster _ ltac:(right; left; reflexivity) ltac:(lia) eq_refl)
    as (Hlen & _ & Hout & _).
  split; [exact Hlen |]. apply Hout. lia.
Defined.

(** ** sRaw interpolation: the last line pair of 4:2:0 *)

Lemma lastline_420_keeps (yuv : Z -> Z -> Z -> Z * Z * Z) (hue : Z)
    (c n : list Z) (m : nat) :
  let out := lastline_420 yuv hue (Z.of_nat m) c n in
  forall j, (6 * m <= j)%nat -> fst out !!! j = c !!! j /\ snd out !!! j = n !!! j.
Proof.
  cbv zeta. unfold lastline_420. rewrite Nat2Z.id.
  assert (Hiter : let st := Nat.iter m (body_420_lastline yuv hue) (c, n, 0%nat) in
            snd st = (6 * m)%nat /\
            forall j, (6 * m <= j)%nat ->
              fst (fst st) !!! j = c !!! j /\ snd (fst st) !!! j = n !!! j).
  { clear. induction m as [| m IH]; cbv zeta.
    - cbn. split; [reflexivity |]. intros j _. split; reflexivity.
    - rewrite Nat.iter_succ. destruct IH as (Hoff & Hkeep).
      destruct (Nat.iter m (body_420_lastline yuv hue) (c, n, 0%nat)) as [[c0 n0] off].
      cbn [fst snd] in *. subst off. unfold body_420_lastline. cbv zeta. cbn [fst snd].
      split; [lia |]. intros j Hj. rewrite !STORE_RGB_other by lia. apply Hkeep. lia. }
  cbv zeta in Hiter. destruct Hiter as [_ Hkeep].
  destruct (Nat.iter m (body_420_lastline yuv hue) (c, n, 0%nat)) as [[c0 n0] off].
  exact Hkeep.
Qed.

Lemma interpolator_420_rows
    (interp : Cr2Decoder -> SrawCoeffs -> Z -> Z -> Z -> Z -> RawImage -> result RawImage) :
  In interp interpolators_420 ->
  exists (yuv : SrawCoeffs -> Z -> Z -> Z -> Z * Z * Z),
    forall this k w h start_h end_h mRaw,
      interp this k w h start_h end_h mRaw =
        g ← getHue this mRaw;
        Ok (set_data (rows_420 (yuv k) (- g + 16384) w h start_h end_h (data mRaw)) mRaw).
Proof.
  intros [<- | [<- | []]].
  - exists YUV_TO_RGB. reflexivity.
  - exists YUV_TO_RGB_new. reflexivity.
Qed.

(** In the last line pair the 4:2:0 interpolators stop one block short:
    the last two pixels of the last two lines keep the samples the raster
    had, luma and chroma, unconverted. *)
Theorem interpolate_420_last_block_unconverted
    (interp : Cr2Decoder -> SrawCoeffs -> Z -> Z -> Z -> Z -> RawImage -> result RawImage)
    (this : Cr2Decoder) (k : SrawCoeffs) (W H : nat) (mRaw r : RawImage) :
  In interp interpolators_420 ->
  (1 <= W)%nat ->
  (1 <= H)%nat ->
  (2 * H <= length (data mRaw))%nat ->
  interp this k (Z.of_nat W) (Z.of_nat H) 0 (Z.of_nat H) mRaw = Ok r ->
  forall j, (6 * (W - 1) <= j)%nat ->
    (data r !!! (2 * (H - 1))%nat) !!! j = (data mRaw !!! (2 * (H - 1))%nat) !!! j /\
    (data r !!! (2 * (H - 1) + 1)%nat) !!! j = (data mRaw !!! (2 * (H - 1) + 1)%nat) !!! j.
Proof.
  intros Hin HW HH Hrows Hrun j Hj.
  destruct (interpolator_420_rows interp Hin) as (yuv & Hinterp).
  rewrite Hinterp in Hrun. bind_inv Hrun. injection Hrun as <-. cbn [data set_data].
  replace (Z.of_nat W) with (Z.of_nat (W - 1) + 1) by lia.
  destruct (rows_420_rows (yuv k) (- v + 16384) (Z.of_nat (W - 1)) H (data mRaw) HH Hrows)
    as (_ & _ & Hlast).
  pose proof (lastline_420_keeps (yuv k) (- v + 16384)
                (data mRaw !!! (2 * (H - 1))%nat) (data mRaw !!! (2 * (H - 1) + 1)%nat)
                (W - 1) j Hj) as Hkeep.
  rewrite <- Hlast in Hkeep. exact Hkeep.
Qed.

Lemma interpolate_420_last_block_unconverted_witness :
  In interpolate_420 interpolators_420 /\
  (2 * 1 <= length (data sraw_raster))%nat /\
  exists r,
    interpolate_420 hue_decoder unit_coeffs (Z.of_nat 2) (Z.of_nat 1) 0 (Z.of_nat 1)
      sraw_raster = Ok r /\
    (data r !!! (2 * (1 - 1))%nat) !!! 7%nat = 16284.
Proof.
  split; [left; reflexivity |]. split; [cbn; lia |].
  eexists. split; [reflexivity |].
  destruct (interpolate_420_last_block_unconverted interpolate_420 hue_decoder
              unit_coeffs 2 1 sraw_raster _ ltac:(left; reflexivity) ltac:(lia)
              ltac:(lia) ltac:(cbn; lia) eq_refl 7%nat ltac:(lia)) as [Hc _].
  rewrite Hc. reflexivity.
Defined.

Lemma be16_range (bytes : list byte) (pos v : Z) :
  be16 bytes pos = Some v -> 0 <= v < 65536.
Proof.
  unfold be16.
  destruct (bytes !! Z.to_nat pos) as [b0 |]; [| discriminate].
  destruct (bytes !! Z.to_nat (pos + 1)) as [b1 |]; [| discriminate].
  intros [= <-].
  pose proof (Byte.to_N_bounded b0). pose proof (Byte.to_N_bounded b1). lia.
Qed.

Lemma old_format_size_range (this : Cr2Decoder) (off height width : Z) :
  old_format_size this off = Ok (height, width) ->
  0 <= height < 65536 /\ 0 <= width < 65536.
Proof.
  rewrite old_format_size_reads.
  destruct (be16 _ (wrap_u32 (off + 41))) as [h |] eqn:Hh; [| discriminate].
  destruct (be16 _ (wrap_u32 (off + 41) + 2)) as [w |] eqn:Hw; [| discriminate].
  intros [= <- <-]. split; eapply be16_range; eassumption.
Qed.

Lemma wrap_u32_small (z : Z) : 0 <= z < 2 ^ 32 -> wrap_u32 z = z.
Proof. intros H. unfold wrap_u32. apply Z.mod_small. exact H. Qed.

Lemma wrap_s32_small (z : Z) : - 2 ^ 31 <= z < 2 ^ 31 -> wrap_s32 z = z.
Proof. intros H. unfold wrap_s32. rewrite Z.mod_small by lia. lia. Qed.

(** The frame of the old format, with and without "double_line_ljpeg". *)
Lemma old_format_frame_eq (height width : Z) :
  0 <= height < 65536 -> 0 <= width < 65536 ->
  createData
    (set_dim (iPoint2D.mk (wrap_s32 (width * 2)) (wrap_s32 (wrap_u32 (height * 2) / 2)))
       RawImage_create) = old_format_frame width height /\
  createData
    (set_dim (iPoint2D.mk (wrap_s32 (wrap_u32 (width * 2))) (wrap_s32 height))
       RawImage_create) = old_format_frame width height.
Proof.
  intros Hh Hw. unfold old_format_frame.
  rewrite (wrap_u32_small (height * 2)), (wrap_u32_small (width * 2)) by lia.
  rewrite (wrap_s32_small (width * 2)), (wrap_s32_small height) by lia.
  replace (height * 2 / 2) with height by (rewrite Z.div_mul; lia).
  rewrite (wrap_s32_small height) by lia.
  replace (width * 2) with (2 * width) by lia. split; reflexivity.
Qed.

Lemma apply_linearization_keeps (this : Cr2Decoder) (mRaw : RawImage) :
  dim (apply_linearization this mRaw) = dim mRaw /\
  cpp (apply_linearization this mRaw) = cpp mRaw /\
  isCFA (apply_linearization this mRaw) = isCFA mRaw /\
  subsampling (apply_linearization this mRaw) = subsampling mRaw /\
  errors (apply_linearization this mRaw) = errors mRaw.
Proof.
  unfold apply_linearization.
  destruct (getEntryRecursive _ _) as [curve |]; [| repeat split].
  destruct (_ && _); [| repeat split].
  destruct (negb _); repeat split.
Qed.

Lemma apply_linearization_errors (this : Cr2Decoder) (mRaw : RawImage) :
  errors (apply_linearization this mRaw) = errors mRaw.
Proof. apply apply_linearization_keeps. Qed.

Lemma apply_linearization_none (this : Cr2Decoder) (mRaw : RawImage) :
  no_linearization this -> apply_linearization this mRaw = mRaw.
Proof.
  unfold no_linearization, apply_linearization.
  destruct (getEntryRecursive _ _) as [curve |]; [| reflexivity].
  intros [Ht | Hc].
  - rewrite bool_decide_eq_false_2 by exact Ht. reflexivity.
  - destruct (Z.eqb_spec (count curve) 4096) as [? | _]; [contradiction |].
    rewrite andb_false_r. reflexivity.
Qed.

(** What [decodeOldFormat] does once it has the offset and the size
    record: one [decode] into the frame, and then the rearrangement and
    the table. *)
Lemma decodeOldFormat_run (this : Cr2Decoder) (off height width : Z) :
  old_format_offset this = Ok off ->
  old_format_size this off = Ok (height, width) ->
  let eff := old_format_decode this off width height in
  let decoded :=
    set_subsampling (frame_subsampling eff)
      (set_data (written eff) (old_format_frame width height)) in
  let finish := fun mRaw0 : RawImage =>
    apply_linearization this
      (if has_hint (hints this) "double_line_ljpeg" then
         mkRawImage (iPoint2D.mk width (2 * height)) 1 true
           (double_line_copy width (2 * height) (data mRaw0)
              (replicate (Z.to_nat (2 * height)) (replicate (Z.to_nat width) 0)))
           (subsampling mRaw0) (errors mRaw0) None
       else mRaw0) in
  decodeOldFormat this =
    ([Call_decode [] off (wrap_u32 (getSize (mFile this) - off)) 0 0],
     match thrown eff with
     | None => Ok (finish decoded)
     | Some (IOException m) => Ok (finish (setError m decoded))
     | Some e => Throw e
     end).
Proof.
  intros Hoff Hsize eff decoded finish.
  pose proof (old_format_size_range _ _ _ _ Hsize) as [Hh Hw].
  destruct (old_format_frame_eq height width Hh Hw) as [Hdouble Hplain].
  unfold decodeOldFormat. rewrite Hoff, M_bind_lift, Hsize, M_bind_lift.
  cbv zeta. subst finish decoded eff. unfold old_format_decode.
  destruct (has_hint (hints this) "double_line_ljpeg").
  - rewrite Hdouble, M_bind_call.
    rewrite (wrap_u32_small (height * 2)) by lia.
    rewrite (wrap_s32_small (height * 2)), (wrap_s32_small width) by lia.
    replace (height * 2) with (2 * height) by lia.
    unfold createData, set_dim, set_subsampling, set_data, RawImage_create; cbn.
    rewrite Z.mul_1_r.
    destruct (thrown _) as [[m | m | m] |]; reflexivity.
  - rewrite Hplain, M_bind_call.
    destruct (thrown _) as [[m | m | m] |]; reflexivity.
Qed.

(** The old-format decode asks nothing of the black box until it has the
    payload offset and the size record; it then makes exactly one call, a
    [decode] of the bytes from the payload offset to the end of the file,
    at origin (0, 0) and with no slice table.  When the offset or the size
    record cannot be read, the decode ends with that failure. *)
Theorem decodeOldFormat_calls (this : Cr2Decoder) (calls : list LJpegCall)
    (r : result RawImage) :
  decodeOldFormat this = (calls, r) ->
  match old_format_offset this with
  | Throw e => calls = [] /\ r = Throw e
  | Ok off =>
      match old_format_size this off with
      | Throw e => calls = [] /\ r = Throw e
      | Ok _ =>
          calls = [Call_decode [] off (wrap_u32 (getSize (mFile this) - off)) 0 0]
      end
  end.
Proof.
  intros Hrun.
  destruct (old_format_offset this) as [off | e] eqn:Hoff.
  - destruct (old_format_size this off) as [[height width] | e] eqn:Hsize.
    + rewrite (decodeOldFormat_run this off height width Hoff Hsize) in Hrun.
      injection Hrun as <- _. reflexivity.
    + unfold decodeOldFormat in Hrun.
      rewrite Hoff, M_bind_lift, Hsize, M_bind_lift in Hrun.
      injection Hrun as <- <-. split; reflexivity.
  - unfold decodeOldFormat in Hrun. rewrite Hoff, M_bind_lift in Hrun.
    injection Hrun as <- <-. split; reflexivity.
Qed.

Lemma decodeOldFormat_calls_witness :
  decodeOldFormat (old_format_decoder ∅ None) =
    ([Call_decode [] 0 45 0 0],
     Ok (set_data [[10; 11; 12; 13]] (old_format_frame 2 1))) /\
  old_format_offset (old_format_decoder ∅ None) = Ok 0 /\
  old_format_size (old_format_decoder ∅ None) 0 = Ok (1, 2) /\
  [Call_decode [] 0 45 0 0] =
    [Call_decode [] 0 (wrap_u32 (getSize (mFile (old_format_decoder ∅ None)) - 0)) 0 0].
Proof.
  assert (Hrun : decodeOldFormat (old_format_decoder ∅ None) =
                   ([Call_decode [] 0 45 0 0],
                    Ok (set_data [[10; 11; 12; 13]] (old_format_frame 2 1))))
    by (vm_compute; reflexivity).
  split; [exact Hrun |]. split; [reflexivity |]. split; [reflexivity |].
  exact (decodeOldFormat_calls _ _ _ Hrun).
Defined.

(** In the old format an [IOException] of the black box is logged on the
    raster and the decode goes on to return it; any other exception of
    the black box, a [RawDecoderException] included, ends the decode; and
    nothing else is ever logged. *)
Theorem decodeOldFormat_failures (this : Cr2Decoder) (off height width : Z) :
  old_format_offset this = Ok off ->
  old_format_size this off = Ok (height, width) ->
  match thrown (old_format_decode this off width height) with
  | None => exists img, snd (decodeOldFormat this) = Ok img /\ errors img = []
  | Some (IOException m) =>
      exists img, snd (decodeOldFormat this) = Ok img /\ errors img = [m]
  | Some e => snd (decodeOldFormat this) = Throw e
  end.
Proof.
  intros Hoff Hsize.
  rewrite (decodeOldFormat_run this off height width Hoff Hsize). cbv zeta. cbn [snd].
  destruct (thrown _) as [[m | m | m] |]; try reflexivity;
    eexists; (split; [reflexivity |]);
    rewrite apply_linearization_errors;
    destruct (has_hint (hints this) "double_line_ljpeg"); reflexivity.
Qed.

Lemma decodeOldFormat_failures_witness :
  old_format_offset (old_format_decoder ∅ (Some (IOException "truncated"))) = Ok 0 /\
  old_format_size (old_format_decoder ∅ (Some (IOException "truncated"))) 0 = Ok (1, 2) /\
  exists img,
    snd (decodeOldFormat (old_format_decoder ∅ (Some (IOException "truncated")))) = Ok img /\
    errors img = ["truncated"].
Proof.
  split; [reflexivity |]. split; [reflexivity |].
  exact (decodeOldFormat_failures (old_format_decoder ∅ (Some (IOException "truncated")))
           0 1 2 eq_refl eq_refl).
Defined.

(** The size record gives the dimensions of the old-format raster: twice
    its width by its height, or, with "double_line_ljpeg", its width by
    twice its height; the black box decodes into a frame twice the width
    by the height in both cases.  The raster has one component, is a
    mosaic, and carries the subsampling the black box reports. *)
Theorem decodeOldFormat_dim (this : Cr2Decoder) (off height width : Z)
    (calls : list LJpegCall) (img : RawImage) :
  old_format_offset this = Ok off ->
  old_format_size this off = Ok (height, width) ->
  decodeOldFormat this = (calls, Ok img) ->
  dim img =
    (if has_hint (hints this) "double_line_ljpeg"
     then iPoint2D.mk width (2 * height) else iPoint2D.mk (2 * width) height) /\
  iPoint2D.x (dim img) * iPoint2D.y (dim img) =
    iPoint2D.x (dim (old_format_frame width height)) *
    iPoint2D.y (dim (old_format_frame width height)) /\
  cpp img = 1 /\ isCFA img = true /\
  subsampling img = frame_subsampling (old_format_decode this off width height).
Proof.
  intros Hoff Hsize Hrun.
  rewrite (decodeOldFormat_run this off height width Hoff Hsize) in Hrun.
  cbv zeta in Hrun. injection Hrun as _ Hrun.
  destruct (thrown _) as [[m | m | m] |]; try discriminate; injection Hrun as <-;
    match goal with
    | |- context [apply_linearization this ?X] =>
        destruct (apply_linearization_keeps this X) as (-> & -> & -> & -> & _)
    end;
    destruct (has_hint (hints this) "double_line_ljpeg"); cbn;
    repeat split; lia.
Qed.

Lemma decodeOldFormat_dim_witness :
  old_format_offset (old_format_decoder double_line_hints None) = Ok 0 /\
  old_format_size (old_format_decoder double_line_hints None) 0 = Ok (1, 2) /\
  exists img,
    snd (decodeOldFormat (old_format_decoder double_line_hints None)) = Ok img /\
    dim img = iPoint2D.mk 2 2.
Proof.
  split; [reflexivity |]. split; [reflexivity |].
  destruct (decodeOldFormat (old_format_decoder double_line_hints None))
    as [calls [img | e]] eqn:Hrun; [| vm_compute in Hrun; discriminate].
  exists img. split; [reflexivity |].
  destruct (decodeOldFormat_dim (old_format_decoder double_line_hints None) 0 1 2 calls img
              eq_refl eq_refl Hrun) as [Hdim _].
  exact Hdim.
Defined.

(** ** Old format: two lines in one *)

Lemma for_loop_alter_line (f : Z -> list Z -> list Z) (n : nat) :
  forall (lo : nat) (img : list (list Z)) (y : nat),
    for_loop n (Z.of_nat lo) (fun y img => alter (f y) (Z.to_nat y) img) img !! y =
      if decide (lo <= y < lo + n)%nat then f (Z.of_nat y) <$> img !! y else img !! y.
Proof.
  induction n as [| n IH]; intros lo img y; cbn [for_loop].
  - case_decide; [lia | reflexivity].
  - replace (Z.of_nat lo + 1) with (Z.of_nat (S lo)) by lia.
    rewrite IH, Nat2Z.id.
    destruct (decide (y = lo)) as [-> | Hne].
    + rewrite list_lookup_alter_eq. repeat case_decide; try lia; reflexivity.
    + rewrite list_lookup_alter_ne by congruence.
      repeat case_decide; try lia; reflexivity.
Qed.

Lemma for_loop_insert (g : Z -> Z) (n : nat) :
  forall (lo : nat) (dst : list Z) (x : nat),
    for_loop n (Z.of_nat lo) (fun x dst => <[Z.to_nat x := g x]> dst) dst !! x =
      if decide (lo <= x < lo + n)%nat
      then (fun _ => g (Z.of_nat x)) <$> dst !! x else dst !! x.
Proof.
  induction n as [| n IH]; intros lo dst x; cbn [for_loop].
  - case_decide; [lia | reflexivity].
  - replace (Z.of_nat lo + 1) with (Z.of_nat (S lo)) by lia.
    rewrite IH, Nat2Z.id.
    destruct (decide (x = lo)) as [-> | Hne].
    + destruct (decide (lo < length dst)%nat) as [Hlt | Hge].
      * rewrite list_lookup_insert_eq by exact Hlt.
        destruct (lookup_lt_is_Some_2 dst lo Hlt) as [v ->].
        repeat case_decide; try lia; reflexivity.
      * rewrite list_insert_ge by lia.
        rewrite (lookup_ge_None_2 dst lo) by lia.
        repeat case_decide; reflexivity.
    + rewrite list_lookup_insert_ne by congruence.
      repeat case_decide; try lia; reflexivity.
Qed.

(** Line [y] of the copy is the left half of line [y / 2] of the source
    when [y] is even, and its right half when [y] is odd. *)
Lemma double_line_copy_sample (width height : Z) (src : list (list Z)) (y x : Z) :
  0 <= y < height -> 0 <= x < width ->
  (double_line_copy width height src
     (replicate (Z.to_nat height) (replicate (Z.to_nat width) 0)) !!! Z.to_nat y)
    !!! Z.to_nat x =
  (src !!! Z.to_nat (y / 2)) !!! Z.to_nat (y mod 2 * width + x).
Proof.
  intros Hy Hx. unfold double_line_copy, for_range.
  rewrite Z.sub_0_r.
  rewrite (list_lookup_total_alt _ (Z.to_nat y)).
  pose proof (for_loop_alter_line
                (fun y dst =>
                   for_loop (Z.to_nat (width - 0)) 0
                     (fun x dst =>
                        <[Z.to_nat x :=
                            drop (Z.to_nat (if y mod 2 =? 0 then 0 else width))
                              (src !!! Z.to_nat (y / 2)) !!! Z.to_nat x]> dst) dst)
                (Z.to_nat height) 0
                (replicate (Z.to_nat height) (replicate (Z.to_nat width) 0))
                (Z.to_nat y)) as E.
  change (Z.of_nat 0) with 0 in E. cbv zeta. rewrite E. clear E.
  rewrite decide_True by lia.
  rewrite lookup_replicate_2 by lia. cbn [fmap option_fmap option_map from_option].
  rewrite Z2Nat.id by lia. rewrite Z.sub_0_r.
  rewrite (list_lookup_total_alt _ (Z.to_nat x)).
  pose proof (for_loop_insert
                (fun x =>
                   drop (Z.to_nat (if y mod 2 =? 0 then 0 else width))
                     (src !!! Z.to_nat (y / 2)) !!! Z.to_nat x)
                (Z.to_nat width) 0 (replicate (Z.to_nat width) 0) (Z.to_nat x)) as E.
  change (Z.of_nat 0) with 0 in E. cbv beta in E. unfold id. rewrite E. clear E.
  rewrite decide_True by lia.
  rewrite lookup_replicate_2 by lia. cbn [fmap option_fmap option_map from_option].
  rewrite Z2Nat.id by lia.
  rewrite lookup_total_drop. f_equal.
  pose proof (Z.mod_pos_bound y 2 ltac:(lia)) as Hmod.
  destruct (Z.eqb_spec (y mod 2) 0) as [-> | Hodd].
  - rewrite Z.mul_0_l, Z.add_0_l. reflexivity.
  - replace (y mod 2) with 1 by lia. rewrite Z.mul_1_l. lia.
Qed.

Lemma for_loop_alter_length (f : Z -> list Z -> list Z) (n : nat) :
  forall (lo : Z) (rows : list (list Z)),
    length (for_loop n lo (fun y rows => alter (f y) (Z.to_nat y) rows) rows) =
      length rows.
Proof.
  induction n as [| n IH]; intros lo rows; cbn [for_loop]; [reflexivity |].
  rewrite IH. apply length_alter.
Qed.

Lemma double_line_copy_length (width height : Z) (src rows : list (list Z)) :
  length (double_line_copy width height src rows) = length rows.
Proof. unfold double_line_copy, for_range. cbv zeta. apply for_loop_alter_length. Qed.

(** With "double_line_ljpeg" and no linearisation table, each line of
    the frame gives two lines of the raster: line [y] of the raster is the
    left half of line [y / 2] of the frame when [y] is even and its right
    half when [y] is odd. *)
Theorem decodeOldFormat_double_line (this : Cr2Decoder) (off height width : Z)
    (calls : list LJpegCall) (img : RawImage) :
  has_hint (hints this) "double_line_ljpeg" = true ->
  no_linearization this ->
  old_format_offset this = Ok off ->
  old_format_size this off = Ok (height, width) ->
  decodeOldFormat this = (calls, Ok img) ->
  let frame := written (old_format_decode this off width height) in
  length (data img) = Z.to_nat (2 * height) /\
  forall y x : Z,
    0 <= y < 2 * height -> 0 <= x < width ->
    (data img !!! Z.to_nat y) !!! Z.to_nat x =
      (frame !!! Z.to_nat (y / 2)) !!! Z.to_nat (y mod 2 * width + x).
Proof.
  intros Hhint Hno Hoff Hsize Hrun frame.
  rewrite (decodeOldFormat_run this off height width Hoff Hsize) in Hrun.
  cbv zeta in Hrun. rewrite Hhint in Hrun. injection Hrun as _ Hrun.
  assert (Himg : data img =
                   double_line_copy width (2 * height) frame
                     (replicate (Z.to_nat (2 * height)) (replicate (Z.to_nat width) 0))).
  { destruct (thrown _) as [[m | m | m] |]; try discriminate; injection Hrun as <-;
      rewrite (apply_linearization_none _ _ Hno); reflexivity. }
  rewrite Himg. split.
  - rewrite double_line_copy_length, length_replicate. reflexivity.
  - intros y x Hy Hx. apply double_line_copy_sample; assumption.
Qed.

Lemma decodeOldFormat_double_line_witness :
  has_hint (hints (old_format_decoder double_line_hints None)) "double_line_ljpeg" = true /\
  decodeOldFormat (old_format_decoder double_line_hints None) =
    ([Call_decode [] 0 45 0 0],
     Ok (set_data [[10; 11]; [12; 13]]
           (set_dim (iPoint2D.mk 2 2) RawImage_create))) /\
  ([[10; 11]; [12; 13]] !!! Z.to_nat 1) !!! Z.to_nat 0 =
    ([[10; 11; 12; 13]] !!! Z.to_nat (1 / 2)) !!! Z.to_nat (1 mod 2 * 2 + 0).
Proof.
  assert (Hrun : decodeOldFormat (old_format_decoder double_line_hints None) =
                   ([Call_decode [] 0 45 0 0],
                    Ok (set_data [[10; 11]; [12; 13]]
                          (set_dim (iPoint2D.mk 2 2) RawImage_create))))
    by (vm_compute; reflexivity).
  split; [reflexivity |]. split; [exact Hrun |].
  destruct (decodeOldFormat_double_line (old_format_decoder double_line_hints None)
              0 1 2 _ _ eq_refl I eq_refl eq_refl Hrun) as [_ Hsamples].
  exact (Hsamples 1 0 ltac:(lia) ltac:(lia)).
Defined.

(** ** The entry point *)

(** [decodeRawInternal] never ends with a [TiffParserException]: one
    thrown while decoding, in either format, comes out as the
    [RawDecoderException] "Unsupported format"; every other outcome, and
    the calls into the black box, are those of the format's decoder. *)
Theorem decodeRawInternal_parser_exceptions (this : Cr2Decoder)
    (calls : list LJpegCall) (r : result RawImage) :
  decodeRawInternal this = (calls, r) ->
  let inner :=
    if has_hint (hints this) "old_format" then decodeOldFormat this
    else decodeNewFormat this in
  calls = fst inner /\
  (forall m, r <> Throw (TiffParserException m)) /\
  (forall m, snd inner = Throw (TiffParserException m) ->
             r = ThrowRDE "CR2 Decoder: Unsupported format.") /\
  ((forall m, snd inner <> Throw (TiffParserException m)) -> r = snd inner).
Proof.
  intros Hrun inner. unfold decodeRawInternal in Hrun. fold inner in Hrun.
  destruct inner as [t [img | [m | m | m]]]; injection Hrun as <- <-; cbn [fst snd];
    (split; [reflexivity |]); (split; [discriminate |]);
    (split; [intros; first [reflexivity | discriminate] |]);
    try reflexivity.
  intros H. destruct (H m). reflexivity.
Qed.

Lemma decodeRawInternal_parser_exceptions_witness :
  decodeRawInternal no_strips_decoder =
    ([], ThrowRDE "CR2 Decoder: Unsupported format.") /\
  snd (decodeNewFormat no_strips_decoder) =
    Throw (TiffParserException "TiffIFD: TIFF Parser entry not found") /\
  forall m,
    ThrowRDE (A := RawImage) "CR2 Decoder: Unsupported format." <>
      Throw (TiffParserException m).
Proof.
  assert (Hrun : decodeRawInternal no_strips_decoder =
                   ([], ThrowRDE "CR2 Decoder: Unsupported format."))
    by (vm_compute; reflexivity).
  split; [exact Hrun |]. split; [vm_compute; reflexivity |].
  destruct (decodeRawInternal_parser_exceptions _ _ _ Hrun) as (_ & Hnever & _).
  exact Hnever.
Defined.

(** ** New format: one frame for every strip *)

Lemma interrogated_at (this : Cr2Decoder) (offset size : Z) (sof : SOFInfo)
    (all : list Cr2Slice) :
  getSOF (ljpeg this) offset size = Ok sof ->
  Forall (interrogated this) all ->
  Forall (call_at offset size) (getSOF_calls all) ->
  all = replicate (length all) (slice_of_sof sof offset size).
Proof.
  intros Hsof Hall. induction Hall as [| sl all (sof' & Hsof' & Hsl) _ IH];
    [reflexivity |].
  cbn [getSOF_calls map]. intros Hat.
  apply Forall_cons in Hat as [[Ho Hs] Hat].
  cbn [length replicate]. f_equal; [| apply IH, Hat].
  rewrite Hsl, Ho, Hs. rewrite Ho, Hs, Hsof in Hsof'. injection Hsof' as <-.
  reflexivity.
Qed.

Lemma retained_replicate (this : Cr2Decoder) (n : nat) (sl : Cr2Slice) :
  retained this (replicate n sl) =
    if isValid (mFile this) (Cr2Slice.offset sl) (Cr2Slice.size sl)
    then replicate n sl else [].
Proof.
  unfold retained. induction n as [| n IH]; cbn [replicate List.filter].
  - destruct (isValid _ _ _); reflexivity.
  - rewrite IH. destruct (isValid _ _ _); reflexivity.
Qed.

Lemma map_replicate {A B : Type} (f : A -> B) (n : nat) (x : A) :
  map f (replicate n x) = replicate n (f x).
Proof. induction n as [| n IH]; cbn; [reflexivity | f_equal; exact IH]. Qed.

(** As the code stands, every strip is interrogated at the byte range of
    strip 0, so the slices of a successful new-format decode are one and
    the same slice, once per strip, all of them retained; without an entry
    0xc6c5 the raster is as wide as that slice and as high as the number
    of strips times its height. *)
Theorem decodeNewFormat_slices_alike (this : Cr2Decoder) (calls : list LJpegCall)
    (img : RawImage) :
  decodeNewFormat this = (calls, Ok img) ->
  exists (raw : TiffIFD) (offsets : TiffEntry) (sl : Cr2Slice),
    getSubIFDs (mRootIFD this) !! 3%nat = Some raw /\
    getEntry raw STRIPOFFSETS = Ok offsets /\
    interrogated this sl /\
    interrogated_slices this calls = replicate (Z.to_nat (count offsets)) sl /\
    retained this (interrogated_slices this calls) =
      replicate (Z.to_nat (count offsets)) sl /\
    (hasEntry raw 0xc6c5 = false ->
     dim img =
       iPoint2D.mk (wrap_s32 (Cr2Slice.w sl)) (wrap_s32 (count offsets * Cr2Slice.h sl))).
Proof.
  intros Hrun.
  apply decodeNewFormat_Ok_inv in Hrun
    as (raw & offsets & counts & all & slice0 & rest & fixed & s_width & decodes
        & decoded & Hraw & Hoffsets & Hcounts & Hloop & Hlen & Hall & Hret & Hfixed & _
        & Hdecode & Hcalls & Hlast).
  assert (Hdec : decode_calls decodes = decodes).
  { pose proof (decode_loop_all_decodes this s_width (slice0 :: rest) 0 0
                  (createData fixed)) as H.
    rewrite Hdecode in H. exact H. }
  assert (Hsl : interrogated_slices this calls = all).
  { subst calls. apply interrogated_slices_calls; assumption. }
  assert (Hn : (1 <= Z.to_nat (count offsets))%nat).
  { rewrite <- Hlen. destruct all; [discriminate | cbn; lia]. }
  destruct (Z.to_nat (count offsets)) as [| n] eqn:Hcount; [lia |].
  pose proof Hloop as Hfirst. cbn [slice_loop] in Hfirst.
  apply M_bind_Ok_inv in Hfirst as (t1 & acc1 & t2 & Hbody & _ & _).
  unfold slice_body in Hbody.
  apply M_bind_lift_Ok_inv in Hbody as (offset & Hoffset & Hbody).
  apply M_bind_lift_Ok_inv in Hbody as (size & Hsize & Hbody).
  rewrite M_bind_call in Hbody.
  destruct (getSOF (ljpeg this) offset size) as [sof |] eqn:Hsof; [| discriminate].
  clear Hbody.
  apply (slice_loop_ranges this offsets counts offset size Hoffset Hsize) in Hloop
    as [Hat _]; [| constructor].
  pose proof (interrogated_at this offset size sof all Hsof Hall Hat) as Heq.
  rewrite Hlen in Heq.
  set (sl := slice_of_sof sof offset size) in *.
  assert (Hint : interrogated this sl).
  { exists sof. split; [exact Hsof | reflexivity]. }
  assert (Hretained : retained this all = replicate (S n) sl).
  { rewrite Heq, retained_replicate. rewrite Heq, retained_replicate in Hret.
    destruct (isValid _ _ _); [reflexivity | discriminate]. }
  exists raw, offsets, sl. rewrite Hsl, Hcount.
  repeat (split; [assumption |]).
  intros Hno. rewrite (sraw_geometry_Bayer _ _ Hno) in Hfixed.
  injection Hfixed as <-.
  apply decode_loop_dim in Hdecode. cbn in Hdecode.
  assert (Himg : dim img = provisional_dim slice0 all).
  { destruct ((1 <? iPoint2D.x (subsampling decoded))
              || (1 <? iPoint2D.y (subsampling decoded))).
    - apply sRawInterpolate_dim in Hlast. congruence.
    - subst img. exact Hdecode. }
  rewrite Himg. unfold provisional_dim.
  rewrite Hretained in Hret. injection Hret as <- _.
  rewrite Heq at 1. rewrite map_replicate, sum_Z_replicate.
  do 3 f_equal. unfold count in *. lia.
Qed.

Lemma decodeNewFormat_slices_alike_witness :
  decodeNewFormat two_strips = (fst (decodeNewFormat two_strips), Ok two_strips_raster) /\
  hasEntry two_strips_raw 0xc6c5 = false /\
  interrogated_slices two_strips (fst (decodeNewFormat two_strips)) =
    replicate 2 slice_100 /\
  dim two_strips_raster = iPoint2D.mk (wrap_s32 100) (wrap_s32 (2 * 50)).
Proof.
  assert (Hrun : decodeNewFormat two_strips =
                   (fst (decodeNewFormat two_strips), Ok two_strips_raster))
    by (vm_compute; reflexivity).
  split; [exact Hrun |]. split; [reflexivity |].
  assert (Hsl : interrogated_slices two_strips (fst (decodeNewFormat two_strips)) =
                  replicate 2 slice_100) by (vm_compute; reflexivity).
  split; [exact Hsl |].
  destruct (decodeNewFormat_slices_alike two_strips _ _ Hrun)
    as (raw & offsets & sl & Hraw & Hoffsets & _ & Hall & _ & Hdim).
  injection Hraw as <-. specialize (Hdim ltac:(reflexivity)).
  vm_compute in Hoffsets. injection Hoffsets as <-.
  rewrite Hsl in Hall. vm_compute in Hall. injection Hall as <-.
  exact Hdim.
Defined.

(** ** Interpolation: the samples written *)

Lemma clampbits_16_range (x : Z) : 0 <= clampbits x 16 <= 65535.
Proof. unfold clampbits. change (2 ^ 16 - 1) with 65535. lia. Qed.

Lemma px_clamped (out : list Z) (j : nat) (v : Z * Z * Z) (t : nat) :
  px out j = clamp_rgb v -> (t < 3)%nat -> 0 <= out !!! (j + t)%nat <= 65535.
Proof.
  destruct v as [[r g] b]. unfold px, clamp_rgb. intros [= H0 H1 H2] Ht.
  destruct t as [| [| [| t]]]; [| | | lia].
  - rewrite Nat.add_0_r, H0. apply clampbits_16_range.
  - rewrite H1. apply clampbits_16_range.
  - rewrite H2. apply clampbits_16_range.
Qed.

(** Whatever the samples found and the coefficients, a 4:2:2 interpolator
    leaves 16-bit values in every sample of the [w] pairs of pixels of the
    lines it goes through. *)
Theorem interpolate_422_samples_16_bit
    (interp : Cr2Decoder -> SrawCoeffs -> Z -> Z -> Z -> Z -> RawImage -> result RawImage)
    (this : Cr2Decoder) (k : SrawCoeffs) (W H : nat) (h : Z) (mRaw r : RawImage) :
  In interp interpolators_422 ->
  (1 <= W)%nat ->
  raster_at_least H (6 * W) (data mRaw) ->
  interp this k (Z.of_nat W) h 0 (Z.of_nat H) mRaw = Ok r ->
  forall y j, (y < H)%nat -> (j < 6 * W)%nat ->
    0 <= (data r !!! y) !!! j <= 65535.
Proof.
  intros Hin HW Hraster Hrun y j Hy Hj.
  destruct (interpolator_422_rows interp Hin) as (yuv & hue_last & Heq).
  rewrite Heq in Hrun. bind_inv Hrun. injection Hrun as <-. cbn [data set_data].
  destruct (rows_422_lines (yuv k) (- v + 16384) (hue_last (- v + 16384)) h W H
              (data mRaw) HW Hraster) as [Hlines Hends].
  specialize (Hlines y Hy). specialize (Hends y Hy).
  pose proof (Nat.div_mod_eq j 6) as Hdiv.
  pose proof (Nat.mod_upper_bound j 6 ltac:(lia)) as Hmod.
  set (q := (j / 6)%nat) in *. set (t := (j mod 6)%nat) in *.
  assert (Hpx : exists v1 v2,
             px (rows_422 (yuv k) (- v + 16384) (hue_last (- v + 16384)) (Z.of_nat W) h 0
                   (Z.of_nat H) (data mRaw) !!! y) (6 * q) = clamp_rgb v1 /\
             px (rows_422 (yuv k) (- v + 16384) (hue_last (- v + 16384)) (Z.of_nat W) h 0
                   (Z.of_nat H) (data mRaw) !!! y) (6 * q + 3) = clamp_rgb v2).
  { destruct (decide (q < W - 1)%nat) as [Hq | Hq].
    - specialize (Hlines q Hq). unfold pair_422, chroma_at in Hlines.
      cbv zeta in Hlines. destruct Hlines as [H1 H2]. eauto.
    - assert (q = (W - 1)%nat) as -> by lia.
      unfold pair_422_last, chroma_at in Hends. cbv zeta in Hends.
      destruct Hends as [H1 H2]. eauto. }
  destruct Hpx as (v1 & v2 & H1 & H2).
  destruct (decide (t < 3)%nat) as [Ht | Ht].
  - replace j with (6 * q + t)%nat by lia. eapply px_clamped; [exact H1 | exact Ht].
  - replace j with (6 * q + 3 + (t - 3))%nat by lia.
    eapply px_clamped; [exact H2 | lia].
Qed.

Lemma interpolate_422_samples_16_bit_witness :
  In interpolate_422_new interpolators_422 /\
  raster_at_least 1 (6 * 1) (data sraw_line) /\
  exists r,
    interpolate_422_new hue_decoder unit_coeffs (Z.of_nat 1) 1 0 (Z.of_nat 1) sraw_line
      = Ok r /\
    0 <= (data r !!! 0%nat) !!! 5%nat <= 65535.
Proof.
  assert (Hin : In interpolate_422_new interpolators_422) by (cbn; tauto).
  assert (Hraster : raster_at_least 1 (6 * 1) (data sraw_line)).
  { split; [cbn; lia |]. intros [| y] Hy; [cbn; lia | lia]. }
  split; [exact Hin |]. split; [exact Hraster |].
  destruct (interpolate_422_new hue_decoder unit_coeffs (Z.of_nat 1) 1 0 (Z.of_nat 1)
              sraw_line) as [r | e] eqn:Hrun; [| vm_compute in Hrun; discriminate].
  exists r. split; [reflexivity |].
  exact (interpolate_422_samples_16_bit interpolate_422_new hue_decoder unit_coeffs
           1 1 1 sraw_line r Hin ltac:(lia) Hraster Hrun 0%nat 5%nat ltac:(lia) ltac:(lia)).
Defined.

(** ** Hue: the values it takes *)

(** For the two subsamplings that [sRawInterpolate] accepts, the hue is
    0, 2 (4:2:2) or 0, 1, 4 (4:2:0), so that the chroma bias
    [-hue + 16384] of the interpolators lies between 16380 and 16384;
    with the hint "old_sraw_hue" it is the product of the factors, whatever
    the model id and the other hints. *)
Theorem getHue_values (this : Cr2Decoder) (mRaw : RawImage) (g : Z) :
  subsampling mRaw = iPoint2D.mk 2 1 \/ subsampling mRaw = iPoint2D.mk 2 2 ->
  getHue this mRaw = Ok g ->
  let product := iPoint2D.y (subsampling mRaw) * iPoint2D.x (subsampling mRaw) in
  (g = 0 \/ g = product \/ g = (product - 1) / 2) /\
  16380 <= - g + 16384 <= 16384 /\
  (has_hint (hints this) "old_sraw_hue" = true -> g = product).
Proof.
  intros Hsub Hrun product. unfold getHue in Hrun. cbv zeta in Hrun.
  fold product in Hrun.
  assert (Hp : product = 2 \/ product = 4).
  { subst product. destruct Hsub as [-> | ->]; cbn; lia. }
  assert (Hw : wrap_s32 product = product).
  { destruct Hp as [-> | ->]; reflexivity. }
  rewrite Hw in Hrun.
  assert (Hhalf : Z.shiftr (product - 1) 1 = (product - 1) / 2).
  { rewrite Z.shiftr_div_pow2 by lia. reflexivity. }
  rewrite Hhalf in Hrun.
  assert (Hdiv : (product - 1) / 2 = 0 \/ (product - 1) / 2 = 1).
  { destruct Hp as [-> | ->]; [left | right]; reflexivity. }
  destruct (has_hint (hints this) "old_sraw_hue").
  - injection Hrun as <-. split; [tauto |]. split; [lia | reflexivity].
  - assert (Hg : g = 0 \/ g = product \/ g = (product - 1) / 2).
    { destruct (negb _); [injection Hrun as <-; tauto |].
      destruct (getEntryRecursive _ _) as [e |]; [| discriminate].
      bind_inv Hrun. destruct (_ || _); injection Hrun as <-; tauto. }
    split; [exact Hg |]. split; [lia | discriminate].
Qed.

Lemma getHue_values_witness :
  subsampling sraw_raster = iPoint2D.mk 2 2 /\
  getHue hue_decoder sraw_raster = Ok 1 /\
  16380 <= - 1 + 16384 <= 16384.
Proof.
  split; [reflexivity |]. split; [reflexivity |].
  destruct (getHue_values hue_decoder sraw_raster 1 (or_intror eq_refl) eq_refl)
    as (_ & Hbias & _).
  exact Hbias.
Defined.
